(** * deepdecoder/mask_loss.py: segment statistics of a labelled image batch

    A shallow embedding of the host code of [mask_loss.py]: the shape
    guard [shape_ok], the two Theano operators [SplitMask] (forward) and
    [SplitMaskGrad] (backward) with the launch set-up of their thunks, the
    symbolic gradient rule [SplitMask.grad], the reference implementation
    [theano_split_mask], the post-processing [mean_by_count] and
    [split_to_mean_var], and the functions built on them:
    [get_split_mask_fn], [median], [segment_means] and [mask_loss].

    Conventions of the embedding.
    - A Python tuple of ints (a shape) is a [list Z]; indexing past its end
      raises [IndexError].
    - A float32 tensor is a nested list of exact rationals [Q]; rounding is
      outside the model and numeric equalities are stated with [==].
      Where the code divides by a count that can be zero, a value is an
      [fval]: a number, an infinity or NaN.
    - Where rounding decides, the statistics are evaluated in float32
      itself: IEEE 754 binary32 as the [spec_float] of the Standard
      Library, with the precision of the accumulator of a sum as a
      parameter.
    - Python exceptions are the constructors of [exn]; fallible code lives
      in the monad [result].
    - [MASK] (imported from the package beesgrid) is a parameter: an ordered
      association list of class names and enumeration values.
    - The device kernels live in [cuda/mask_split.cu]; they are modelled
      from the specification and are marked as such. *)

From Stdlib Require Import String ZArith QArith Bool Lia Setoid Morphisms List.
From Stdlib Require Import Qround Lqa SpecFloat.
Import ListNotations.

Local Open Scope Z_scope.

(** ** Exceptions and the result monad *)

Inductive exn : Type :=
| AssertionError
| IndexError
| TypeError
| ZeroDivisionError
| ValueError (msg : string)
| Exception (msg : string).

Inductive result (A : Type) : Type :=
| Ok (a : A)
| Raise (e : exn).

Arguments Ok {A} a.
Arguments Raise {A} e.

Definition bind {A B : Type} (r : result A) (k : A -> result B) : result B :=
  match r with
  | Ok a => k a
  | Raise e => Raise e
  end.

Declare Scope py_scope.
Delimit Scope py_scope with py.
Notation "x <- c ;; k" := (bind c (fun x => k))
  (at level 61, c at next level, right associativity) : py_scope.
Notation "c ;;; k" := (bind c (fun _ => k))
  (at level 61, right associativity) : py_scope.
Local Open Scope py_scope.

(** [assert b] *)
Definition assert (b : bool) : result unit :=
  if b then Ok tt else Raise AssertionError.

(** ** Shapes *)

Definition shape : Type := list Z.

(** [shp[i]] for a non-negative literal index. *)
Definition getitem {A : Type} (l : list A) (i : nat) : result A :=
  match nth_error l i with
  | Some a => Ok a
  | None => Raise IndexError
  end.

(** [shape_ok(shp)]:
    [shp[2] == shp[3] and shp[2] % 2 == 0 and shp[1] == 1],
    with the short-circuit evaluation of [and]. *)
Definition shape_ok (shp : shape) : result bool :=
  a <- getitem shp 2 ;;
  b <- getitem shp 3 ;;
  if negb (a =? b) then Ok false
  else
    a' <- getitem shp 2 ;;
    if negb (a' mod 2 =? 0) then Ok false
    else
      c <- getitem shp 1 ;;
      Ok (c =? 1).

(** [math.ceil(a / b)] on non-negative ints: true division, then ceiling. *)
Definition ceil_div (a b : Z) : result Z :=
  if b =? 0 then Raise ZeroDivisionError else Ok (- ((- a) / b)).

(** ** Tensors *)

Abbreviation tensor1 := (list Q) (only parsing).
Abbreviation tensor2 := (list (list Q)) (only parsing).
Abbreviation tensor3 := (list (list (list Q))) (only parsing).
Abbreviation tensor4 := (list (list (list (list Q)))) (only parsing).
Abbreviation tensor5 := (list (list (list (list (list Q))))) (only parsing).

(** Boolean index tensors, as [T.eq] returns them. *)
Abbreviation mask1 := (list bool) (only parsing).
Abbreviation mask2 := (list (list bool)) (only parsing).
Abbreviation mask3 := (list (list (list bool))) (only parsing).
Abbreviation mask4 := (list (list (list (list bool)))) (only parsing).

(** A device array of rank 4: its [shape] attribute and its elements,
    indexed (batch, channel, row, column). *)
Record ndarray4 : Type := mk_ndarray4 {
  nd_shape : shape;
  nd_data : tensor4
}.

Inductive dtype : Type := float32 | float64 | int32 | int64.

Definition dtype_eqb (a b : dtype) : bool :=
  match a, b with
  | float32, float32 | float64, float64 | int32, int32 | int64, int64 => true
  | _, _ => false
  end.

(** Rectangular nested lists. *)
Definition rect1 {A : Type} (w : nat) (t : list A) : Prop := length t = w.
Definition rect2 {A : Type} (h w : nat) (t : list (list A)) : Prop :=
  length t = h /\ Forall (rect1 w) t.
Definition rect3 {A : Type} (c h w : nat) (t : list (list (list A)))
  : Prop :=
  length t = c /\ Forall (rect2 h w) t.
Definition rect4 {A : Type} (n c h w : nat)
  (t : list (list (list (list A)))) : Prop :=
  length t = n /\ Forall (rect3 c h w) t.

(** The array's [shape] attribute describes its elements. *)
Definition wf4 (n c h w : nat) (a : ndarray4) : Prop :=
  nd_shape a = [Z.of_nat n; Z.of_nat c; Z.of_nat h; Z.of_nat w] /\
  rect4 n c h w (nd_data a).

Definition get1 (t : tensor1) (x : nat) : Q := nth x t 0%Q.
Definition get2 (t : tensor2) (y x : nat) : Q := get1 (nth y t []) x.
Definition get3 (t : tensor3) (c y x : nat) : Q := get2 (nth c t []) y x.
Definition get4 (t : tensor4) (b c y x : nat) : Q := get3 (nth b t []) c y x.

(** [t[b, c, y, x]] when the position exists. *)
Definition lookup4 {A : Type} (t : list (list (list (list A))))
  (b c y x : nat) : option A :=
  match nth_error t b with
  | Some t3 =>
      match nth_error t3 c with
      | Some t2 =>
          match nth_error t2 y with
          | Some t1 => nth_error t1 x
          | None => None
          end
      | None => None
      end
  | None => None
  end.

Definition zeros1 (w : nat) : tensor1 := repeat 0%Q w.
Definition zeros2 (h w : nat) : tensor2 := repeat (zeros1 w) h.
Definition zeros3 (c h w : nat) : tensor3 := repeat (zeros2 h w) c.
Definition zeros4 (n c h w : nat) : tensor4 := repeat (zeros3 c h w) n.

(** [T.zeros_like(x)] on the elements. *)
Definition zeros_like1 (t : tensor1) : tensor1 := map (fun _ => 0%Q) t.
Definition zeros_like2 (t : tensor2) : tensor2 := map zeros_like1 t.
Definition zeros_like3 (t : tensor3) : tensor3 := map zeros_like2 t.
Definition zeros_like4 (t : tensor4) : tensor4 := map zeros_like3 t.

Definition zeros_like (a : ndarray4) : ndarray4 :=
  mk_ndarray4 (nd_shape a) (zeros_like4 (nd_data a)).

(** Sums over all elements. *)
Definition sum1 (t : tensor1) : Q := fold_right Qplus 0%Q t.
Definition sum2 (t : tensor2) : Q := sum1 (map sum1 t).
Definition sum3 (t : tensor3) : Q := sum1 (map sum2 t).

(** The sum of [f 0], ..., [f (n - 1)]. *)
Definition sumseq (n : nat) (f : nat -> Q) : Q := sum1 (map f (seq 0 n)).

(** The sum of [f ch y x] over the positions of a (c, h, w) volume. *)
Definition sumseq3 (c h w : nat) (f : nat -> nat -> nat -> Q) : Q :=
  sumseq c (fun ch => sumseq h (fun y => sumseq w (fun x => f ch y x))).

(** Reduction over the last three axes of a rank-5 tensor:
    [x.sum(axis=[2, 3, 4])]. *)
Definition sum_axes234 (t : tensor5) : tensor2 := map (map sum3) t.

(** Pointwise rational equality of matrices. *)
Definition eq2 (a b : tensor2) : Prop := Forall2 (Forall2 Qeq) a b.

(** ** Symbolic variables *)

(** A graph variable is embedded by its dtype and the array it denotes. *)
Record tvar : Type := mk_tvar {
  v_dtype : dtype;
  v_array : ndarray4
}.

(** An upstream gradient: a variable holding one value per (class, batch)
    slot, or the variable whose [str] is ["<DisconnectedType>"]. *)
Inductive upstream : Type :=
| Connected (g : tensor2)
| DisconnectedType.

Definition is_disconnected (g : upstream) : bool :=
  match g with DisconnectedType => true | Connected _ => false end.

(** [gpu_contiguous(as_cuda_ndarray_variable(x))]: a transfer to device
    memory in C-contiguous layout; shape, dtype and elements are kept. *)
Definition contiguouse {A : Type} (x : A) : A := x.

(** [name in connected] *)
Definition contains (name : string) (l : list string) : bool :=
  existsb (String.eqb name) l.

Definition no_gradient_msg : string :=
  "At least sum or pow gradient must be provided".

(** ** The backward operator: construction and node building *)

Record SplitMaskGrad : Type := mk_SplitMaskGrad {
  connected : list string;
  function_name : string
}.

(** [SplitMaskGrad.__init__(self, connected=None)] *)
Definition SplitMaskGrad_init (arg : option (list string))
  : result SplitMaskGrad :=
  let conn := match arg with
              | None => ["sum"; "pow"]%string
              | Some c => c
              end in
  if contains "sum" conn && contains "pow" conn then
    Ok (mk_SplitMaskGrad conn "image_mask_split_grad_sum_pow")
  else if contains "sum" conn then
    Ok (mk_SplitMaskGrad conn "image_mask_split_grad_sum")
  else if contains "pow" conn then
    Ok (mk_SplitMaskGrad conn "image_mask_split_grad_pow")
  else Raise (ValueError no_gradient_msg).

(** The [Apply] node of the backward operator: the operator and its
    inputs, [mask_idx], [image] and then the connected gradients. *)
Record apply_grad : Type := mk_apply_grad {
  ag_op : SplitMaskGrad;
  ag_mask : tvar;
  ag_image : tvar;
  ag_grads : list tensor2
}.

(** [SplitMaskGrad.make_node(self, mask_idx, image, og_sum, og_pow)] *)
Definition SplitMaskGrad_make_node (self : SplitMaskGrad)
  (mask_idx image : tvar) (og_sum og_pow : upstream) : result apply_grad :=
  let mask_idx := contiguouse mask_idx in
  let image := contiguouse image in
  if is_disconnected og_sum && is_disconnected og_pow then
    Raise (ValueError no_gradient_msg)
  else
    let inputs := [] in
    let inputs := match og_sum with
                  | Connected g => inputs ++ [contiguouse g]
                  | DisconnectedType => inputs
                  end in
    let inputs := match og_pow with
                  | Connected g => inputs ++ [contiguouse g]
                  | DisconnectedType => inputs
                  end in
    Ok (mk_apply_grad self mask_idx image inputs).

(** The three device functions of the backward pass. *)
Inductive kernel : Type :=
| image_mask_split_grad_sum_pow
| image_mask_split_grad_sum
| image_mask_split_grad_pow.

(** [mod.get_function(name)] *)
Definition get_function (name : string) : result kernel :=
  if String.eqb name "image_mask_split_grad_sum_pow" then
    Ok image_mask_split_grad_sum_pow
  else if String.eqb name "image_mask_split_grad_sum" then
    Ok image_mask_split_grad_sum
  else if String.eqb name "image_mask_split_grad_pow" then
    Ok image_mask_split_grad_pow
  else Raise (Exception "cuModuleGetFunction failed: named symbol not found").

(** The connection mode an operator was built with. *)
Inductive mode : Type := Both | SumOnly | PowOnly.

Definition kernel_mode (k : kernel) : mode :=
  match k with
  | image_mask_split_grad_sum_pow => Both
  | image_mask_split_grad_sum => SumOnly
  | image_mask_split_grad_pow => PowOnly
  end.

(** The branch the thunk takes: its [if]/[elif] chain on
    [self.connected]. *)
Definition thunk_branch (self : SplitMaskGrad) : option mode :=
  if contains "sum" (connected self) && contains "pow" (connected self)
  then Some Both
  else if contains "sum" (connected self) then Some SumOnly
  else if contains "pow" (connected self) then Some PowOnly
  else None.

(** The launch geometry a thunk computes on the host. *)
Record launch : Type := mk_launch {
  l_batch_size : Z;
  l_s : Z;
  l_out_shape : shape;
  l_grid : Z * Z * Z;
  l_block : Z * Z * Z
}.

(** Host part of [SplitMaskGrad.make_thunk]'s [thunk]: assertions and
    launch geometry, in the order of the source. *)
Definition SplitMaskGrad_thunk_host (mask_shape image_shape : shape)
  : result launch :=
  ok <- shape_ok mask_shape ;;
  assert ok ;;;
  s <- getitem mask_shape 3 ;;
  let block_dim := Z.min 32 s in
  grid_dim <- ceil_div s block_dim ;;
  ok' <- shape_ok image_shape ;;
  assert ok' ;;;
  n1 <- getitem mask_shape 0 ;;
  n2 <- getitem image_shape 0 ;;
  let batch_size := Z.min n1 n2 in
  let grad_shape := [batch_size; 1; s; s] in
  Ok (mk_launch batch_size s grad_shape
        (batch_size, grid_dim, grid_dim) (1, block_dim, block_dim)).

Section MaskLoss.

(** [MASK]: the ordered enumeration of segment classes, name to value. *)
Variable MASK : list (string * Q).

Definition len_MASK : nat := length MASK.

(** The enumeration value of the class with index [c]. *)
Definition enum_val (c : nat) : option Q :=
  option_map snd (nth_error MASK c).

(** No two classes share an enumeration value. *)
Definition distinct_values : Prop :=
  forall i j vi vj,
    enum_val i = Some vi -> enum_val j = Some vj -> vi == vj -> i = j.

(** Every label of the map is the value of some class. *)
Definition in_enumeration (label : Q) : Prop :=
  exists c v, enum_val c = Some v /\ label == v.

(** *** The device kernels *)

(** Modelled from the spec: the Label Classifier of [cuda/mask_split.cu],
    which is not part of the Python source. Given a pixel's label value it
    returns the index of the matching class of the enumeration (the first
    one in declaration order), or nothing for a value outside of it. *)
Fixpoint classify_in (items : list (string * Q)) (label : Q) : option nat :=
  match items with
  | [] => None
  | (_, v) :: rest =>
      if Qeq_bool label v then Some O
      else option_map S (classify_in rest label)
  end.

(** Modelled from the spec: the classifier on the enumeration [MASK]. *)
Definition classifier (label : Q) : option nat := classify_in MASK label.

(** Modelled from the spec: the test [classifier(label) == c] of the
    kernels of [cuda/mask_split.cu]. *)
Definition is_class (c : nat) (label : Q) : bool :=
  match classifier label with
  | Some c' => Nat.eqb c' c
  | None => false
  end.

(** A (batch, 1, s, s) volume given pixel by pixel. *)
Definition over_pixels (batch s : nat) (f : nat -> nat -> nat -> Q)
  : tensor4 :=
  map (fun b =>
         [map (fun y => map (fun x => f b y x) (seq 0 s)) (seq 0 s)])
      (seq 0 batch).

(** Modelled from the spec: the device function [image_mask_split] of
    [cuda/mask_split.cu]. For each image [b] below [batch_size] and each
    pixel (y, x) it classifies [mask[b,0,y,x]] and fills the zeroed buffer
    of shape (3*|classes|, batch_size, 1, s, s): three stacked blocks, the
    per-pixel masked image, the per-pixel squared image and the per-pixel
    class indicator. *)
Definition split_volume (mask image : tensor4) (batch_size s : nat)
  (f : Q -> Q) (c : nat) : tensor4 :=
  over_pixels batch_size s
    (fun b y x =>
       if is_class c (get4 mask b 0 y x)
       then f (get4 image b 0 y x) else 0%Q).

(** Modelled from the spec: the buffer [image_mask_split] of
    [cuda/mask_split.cu] leaves behind, the sum block first, then the
    square block, then the indicator block. *)
Definition image_mask_split (mask image : tensor4) (batch_size s : nat)
  : tensor5 :=
  map (split_volume mask image batch_size s (fun v => v)) (seq 0 len_MASK)
  ++ map (split_volume mask image batch_size s (fun v => v * v)%Q)
       (seq 0 len_MASK)
  ++ map (split_volume mask image batch_size s (fun _ => 1%Q))
       (seq 0 len_MASK).

(** Modelled from the spec: the device functions
    [image_mask_split_grad_sum_pow], [image_mask_split_grad_sum] and
    [image_mask_split_grad_pow] of [cuda/mask_split.cu]. For each pixel
    (b, y, x) of class [c] the zeroed gradient buffer receives
    [gradSum[c,b]] if the sum gradient is passed, plus
    [2 * image[b,0,y,x] * gradSumOfSquares[c,b]] if the pow gradient is
    passed. *)
Definition grad_pixel (gsum gpow : option tensor2) (label pixel : Q)
  (b : nat) : Q :=
  match classifier label with
  | Some c =>
      (match gsum with Some g => get2 g c b | None => 0 end
       + match gpow with Some g => 2 * pixel * get2 g c b | None => 0 end)%Q
  | None => 0%Q
  end.

(** Modelled from the spec: the gradient buffer the device functions
    [image_mask_split_grad_*] of [cuda/mask_split.cu] leave behind. *)
Definition image_mask_split_grad (gsum gpow : option tensor2)
  (mask image : tensor4) (batch_size s : nat) : tensor4 :=
  over_pixels batch_size s
    (fun b y x =>
       grad_pixel gsum gpow (get4 mask b 0 y x) (get4 image b 0 y x) b).

(** Modelled from the spec: calling a device function of
    [cuda/mask_split.cu] with the gradient arrays the thunk passes, in
    order; a wrong number of arguments is rejected by the driver. *)
Definition call_kernel (k : kernel) (args : list tensor2)
  (mask image : tensor4) (batch_size s : nat) : result tensor4 :=
  match k, args with
  | image_mask_split_grad_sum_pow, [og_sum; og_pow] =>
      Ok (image_mask_split_grad (Some og_sum) (Some og_pow)
            mask image batch_size s)
  | image_mask_split_grad_sum, [og_sum] =>
      Ok (image_mask_split_grad (Some og_sum) None mask image batch_size s)
  | image_mask_split_grad_pow, [og_pow] =>
      Ok (image_mask_split_grad None (Some og_pow) mask image batch_size s)
  | _, _ => Raise TypeError
  end.

(** *** The backward thunk *)

(** [SplitMaskGrad.make_thunk(self, node, ...)] followed by a call of the
    returned [thunk]. [node.inputs[2]] and [node.inputs[3]] are the first
    and second entry of [ag_grads]. [pycuda_zeros] hands out a zeroed
    buffer of the requested shape whether or not it reuses the previous
    one. *)
Definition SplitMaskGrad_make_thunk (node : apply_grad) : result ndarray4 :=
  let self := ag_op node in
  let mask_idx := v_array (ag_mask node) in
  let image := v_array (ag_image node) in
  let inputs := ag_grads node in
  image_mask_split_grad <- get_function (function_name self) ;;
  l <- SplitMaskGrad_thunk_host (nd_shape mask_idx) (nd_shape image) ;;
  let batch_size := Z.to_nat (l_batch_size l) in
  let s := Z.to_nat (l_s l) in
  grad <-
    (if contains "sum" (connected self) && contains "pow" (connected self)
     then
       og_sum <- getitem inputs 0 ;;
       og_pow <- getitem inputs 1 ;;
       call_kernel image_mask_split_grad [og_sum; og_pow]
         (nd_data mask_idx) (nd_data image) batch_size s
     else if contains "sum" (connected self) then
       og_sum <- getitem inputs 0 ;;
       call_kernel image_mask_split_grad [og_sum]
         (nd_data mask_idx) (nd_data image) batch_size s
     else if contains "pow" (connected self) then
       og_pow <- getitem inputs 0 ;;
       call_kernel image_mask_split_grad [og_pow]
         (nd_data mask_idx) (nd_data image) batch_size s
     else Ok (zeros4 batch_size 1 s s)) ;;
  Ok (mk_ndarray4 (l_out_shape l) grad).

(** *** The forward operator *)

(** [SplitMask.make_node(self, mask_idx, image)]: the node keeps the two
    converted inputs. *)
Definition SplitMask_make_node (mask_idx image : tvar)
  : result (tvar * tvar) :=
  let mask_idx := contiguouse mask_idx in
  let image := contiguouse image in
  assert (dtype_eqb (v_dtype mask_idx) float32) ;;;
  assert (dtype_eqb (v_dtype image) float32) ;;;
  Ok (mask_idx, image).

(** Host part of [SplitMask.make_thunk]'s [thunk]. *)
Definition SplitMask_thunk_host (mask_shape image_shape : shape)
  : result launch :=
  n1 <- getitem mask_shape 0 ;;
  n2 <- getitem image_shape 0 ;;
  let batch_size := Z.min n1 n2 in
  ok <- shape_ok mask_shape ;;
  assert ok ;;;
  ok' <- shape_ok image_shape ;;
  assert ok' ;;;
  s <- getitem mask_shape 3 ;;
  h <- getitem mask_shape 2 ;;
  w <- getitem mask_shape 3 ;;
  assert (h =? w) ;;;
  let sdata_shape := [3 * Z.of_nat len_MASK; batch_size; 1; s; s] in
  let blocks_max := 32 in
  let blocks_s := Z.min blocks_max s in
  grid_s <- ceil_div s blocks_max ;;
  Ok (mk_launch batch_size s sdata_shape
        (batch_size, grid_s, grid_s) (1, blocks_s, blocks_s)).

(** [SplitMask.make_thunk] followed by a call of [thunk]: the three
    outputs are the slices [[:m]], [[m:2*m]] and [[2*m:]] of the buffer. *)
Definition SplitMask_make_thunk (mask_idx image : ndarray4)
  : result (tensor5 * tensor5 * tensor5) :=
  l <- SplitMask_thunk_host (nd_shape mask_idx) (nd_shape image) ;;
  let sdata := image_mask_split (nd_data mask_idx) (nd_data image)
                 (Z.to_nat (l_batch_size l)) (Z.to_nat (l_s l)) in
  let m := len_MASK in
  Ok (firstn m sdata, firstn m (skipn m sdata), skipn (2 * m) sdata).

(** Applying the operator: the node is built, then its thunk runs. *)
Definition SplitMask_call (mask_idx image : tvar)
  : result (tensor5 * tensor5 * tensor5) :=
  node <- SplitMask_make_node mask_idx image ;;
  SplitMask_make_thunk (v_array (fst node)) (v_array (snd node)).

(** The two entries of the list [SplitMask.grad] returns. *)
Inductive gvar : Type :=
| ZerosLike (x : tvar)
| GradImage (node : apply_grad).

(** [SplitMask.grad(self, inputs, output_gradients)] *)
Definition SplitMask_grad (inputs : list tvar)
  (output_gradients : list upstream) : result (list gvar) :=
  let grad_ins := (inputs, firstn 2 output_gradients) in
  let connected := [] in
  og0 <- getitem output_gradients 0 ;;
  let connected := if negb (is_disconnected og0)
                   then connected ++ ["sum"%string] else connected in
  og1 <- getitem output_gradients 1 ;;
  let connected := if negb (is_disconnected og1)
                   then connected ++ ["pow"%string] else connected in
  x0 <- getitem inputs 0 ;;
  let g0 := ZerosLike x0 in
  op <- SplitMaskGrad_init (Some connected) ;;
  node <- match grad_ins with
          | ([mask_idx; image], [og_sum; og_pow]) =>
              SplitMaskGrad_make_node op mask_idx image og_sum og_pow
          | _ => Raise TypeError
          end ;;
  Ok [g0; GradImage node].

(** The value a returned gradient variable evaluates to. *)
Definition eval_gvar (g : gvar) : result ndarray4 :=
  match g with
  | ZerosLike x => Ok (zeros_like (v_array x))
  | GradImage node => SplitMaskGrad_make_thunk node
  end.

(** *** The reference implementation *)

(** [T.eq(mask_idx, enum_val)] *)
Definition T_eq (mask_idx : tensor4) (enum_val : Q) : mask4 :=
  map (map (map (map (fun label => Qeq_bool label enum_val)))) mask_idx.

Definition count1 (i : mask1) : nat := length (filter (fun b => b) i).
Definition count2 (i : mask2) : nat := list_sum (map count1 i).
Definition count3 (i : mask3) : nat := list_sum (map count2 i).

(** [idx.sum(axis=(1, 2, 3))] *)
Definition idx_sum_axes123 (idx : mask4) : tensor1 :=
  map (fun i => inject_Z (Z.of_nat (count3 i))) idx.

Fixpoint replace_nth {A : Type} (i : nat) (x : A) (l : list A) : list A :=
  match l, i with
  | [], _ => []
  | _ :: l', O => x :: l'
  | a :: l', S i' => a :: replace_nth i' x l'
  end.

(** [T.set_subtensor(count[i], v)]: the row is overwritten with [v]; a
    [v] of length one is broadcast along the row, any other length
    mismatch is an error. *)
Definition set_subtensor_row (count : tensor2) (i : nat) (v : tensor1)
  : result tensor2 :=
  match nth_error count i with
  | None => Raise IndexError
  | Some row =>
      if Nat.eqb (length v) (length row) then Ok (replace_nth i v count)
      else
        match v with
        | [q] => Ok (replace_nth i (repeat q (length row)) count)
        | _ => Raise (ValueError "shape mismatch")
        end
  end.

(** [tmp = T.zeros_like(image)] followed by
    [T.set_subtensor(tmp[idx.nonzero()], image[idx.nonzero()])]:
    the positions where [idx] holds receive the image value, the others
    stay zero; a position of [idx] that holds and lies outside of the
    image is an [IndexError]. One level of nesting: *)
Fixpoint set_nonzero {I T : Type} (inner : I -> T -> result T)
  (any : I -> bool) (zl : T -> T) (idx : list I) (image : list T)
  : result (list T) :=
  match idx, image with
  | [], _ => Ok (map zl image)
  | i :: idx', [] =>
      if any i || existsb any idx' then Raise IndexError else Ok []
  | i :: idx', t :: image' =>
      t' <- inner i t ;;
      r <- set_nonzero inner any zl idx' image' ;;
      Ok (t' :: r)
  end.

Definition any1 (i : mask1) : bool := existsb (fun b => b) i.
Definition any2 (i : mask2) : bool := existsb any1 i.
Definition any3 (i : mask3) : bool := existsb any2 i.

Definition set_nonzero1 : mask1 -> tensor1 -> result tensor1 :=
  set_nonzero (fun (b : bool) (v : Q) => Ok (if b then v else 0%Q))
    (fun b => b) (fun _ => 0%Q).
Definition set_nonzero2 : mask2 -> tensor2 -> result tensor2 :=
  set_nonzero set_nonzero1 any1 zeros_like1.
Definition set_nonzero3 : mask3 -> tensor3 -> result tensor3 :=
  set_nonzero set_nonzero2 any2 zeros_like2.
Definition set_nonzero4 : mask4 -> tensor4 -> result tensor4 :=
  set_nonzero set_nonzero3 any3 zeros_like3.

(** The body of the [for] loop over [MASK.items()], from entry [i] on. *)
Fixpoint split_loop (mask_idx image : tensor4) (items : list (string * Q))
  (i : nat) (count : tensor2) (splitted_list : list tensor4)
  : result (tensor2 * list tensor4) :=
  match items with
  | [] => Ok (count, splitted_list)
  | (name, enum_val) :: rest =>
      let idx := T_eq mask_idx enum_val in
      count' <- set_subtensor_row count i (idx_sum_axes123 idx) ;;
      tmp_image <- set_nonzero4 idx image ;;
      split_loop mask_idx image rest (S i) count'
        (splitted_list ++ [tmp_image])
  end.

(** [T.stack(tensors)] *)
Definition stack (tensors : list tensor4) : result tensor5 :=
  match tensors with
  | [] => Raise (Exception "stack needs at least one tensor")
  | _ => Ok tensors
  end.

Definition sqr (v : Q) : Q := (v * v)%Q.

(** [splitted**2] *)
Definition square5 (t : tensor5) : tensor5 :=
  map (map (map (map (map sqr)))) t.

(** [count.reshape((len(MASK), shp[0], 1, 1, 1), ndim=5)] *)
Definition reshape_count (count : tensor2) : tensor5 :=
  map (map (fun q => [[[q]]])) count.

(** [theano_split_mask(mask_idx, image)] *)
Definition theano_split_mask (mask_idx image : tensor4)
  : result (tensor5 * tensor5 * tensor5) :=
  let shp0 := length image in
  let count := zeros2 len_MASK shp0 in
  r <- split_loop mask_idx image MASK 0 count [] ;;
  let '(count, splitted_list) := r in
  splitted <- stack splitted_list ;;
  Ok (splitted, square5 splitted, reshape_count count).

(** *** Statistics *)

(** An elementwise operation on two arrays of equal length. *)
Fixpoint map2s {A B C : Type} (f : A -> B -> result C)
  (l1 : list A) (l2 : list B) : result (list C) :=
  match l1, l2 with
  | [], [] => Ok []
  | a :: l1', b :: l2' =>
      c <- f a b ;;
      r <- map2s f l1' l2' ;;
      Ok (c :: r)
  | _, _ => Raise (ValueError "Input dimension mis-match")
  end.

Definition elemwise2 (f : Q -> Q -> Q) (a b : tensor2) : result tensor2 :=
  map2s (map2s (fun x y => Ok (f x y))) a b.

(** [mean_by_count(x, count, axis)] at [axis = [2, 3, 4]], the only
    axis it is called with:
    [T.switch(T.eq(count, 0), T.zeros_like(count), x.sum(axis) / count)] *)
Definition mean_by_count (x : tensor5) (count : tensor2) : result tensor2 :=
  elemwise2 (fun xs c => if Qeq_bool c 0 then 0 else xs / c)%Q
    (sum_axes234 x) count.

(** [split_to_mean_var(sum, pow, count)] *)
Definition split_to_mean_var (sum pow count : tensor5)
  : result (tensor2 * tensor2 * tensor2) :=
  let count_sum := sum_axes234 count in
  mean <- mean_by_count sum count_sum ;;
  mean_pow <- mean_by_count pow count_sum ;;
  var <- elemwise2 (fun p m => p - m * m)%Q mean_pow mean ;;
  Ok (mean, var, count_sum).

End MaskLoss.

(** ** The statistics in float32 *)





Section Float32Statistics.

(** The precision of the accumulator of a sum, Theano's [acc_dtype]:
    float64 by default for a float32 input on the CPU, float32 on the
    GPU. *)
Variables acc_prec acc_emax : Z.




End Float32Statistics.

(** ** The result of the masked assignment, position by position *)

(** What [set_nonzero] returns when it returns: the image entry where the
    index holds, the zeroed entry elsewhere; the shape is the image's. *)
Fixpoint select {I T : Type} (inner : I -> T -> T) (zl : T -> T)
  (idx : list I) (image : list T) : list T :=
  match idx, image with
  | [], _ => map zl image
  | _ :: _, [] => []
  | i :: idx', t :: image' => inner i t :: select inner zl idx' image'
  end.

Definition select1 : list bool -> tensor1 -> tensor1 :=
  select (fun (b : bool) (v : Q) => if b then v else 0%Q) (fun _ => 0%Q).
Definition select2 : list (list bool) -> tensor2 -> tensor2 :=
  select select1 zeros_like1.
Definition select3 : list (list (list bool)) -> tensor3 -> tensor3 :=
  select select2 zeros_like2.
Definition select4 : list (list (list (list bool))) -> tensor4 -> tensor4 :=
  select select3 zeros_like3.

(** The index holds at a position (and the position exists). *)
Definition holds4 (idx : list (list (list (list bool)))) (b c y x : nat)
  : bool :=
  match lookup4 idx b c y x with
  | Some true => true
  | _ => false
  end.

(** The class volumes and the class counts of the reference
    implementation, written without the loop. *)
Definition ref_splitted (MASK : list (string * Q)) (mask_idx image : tensor4)
  : tensor5 :=
  map (fun item => select4 (T_eq mask_idx (snd item)) image) MASK.

Definition ref_count (MASK : list (string * Q)) (mask_idx : tensor4)
  : tensor2 :=
  map (fun item => idx_sum_axes123 (T_eq mask_idx (snd item))) MASK.

(** The pixel at a position of the label map exists and carries the
    enumeration value [v]. *)
Definition belongs (mask_idx : tensor4) (v : Q) (b c y x : nat) : bool :=
  match lookup4 mask_idx b c y x with
  | Some label => Qeq_bool label v
  | None => false
  end.

(** One for a pixel that is selected, zero otherwise. *)
Definition indicator (p : bool) : Q := if p then 1%Q else 0%Q.

(** Two matrices with rows of pairwise equal length. *)
Definition same_shape2 (a b : tensor2) : Prop :=
  Forall2 (fun ra rb : list Q => length ra = length rb) a b.

(** The result of an elementwise operation on matrices of one shape. *)
Definition zip2 (f : Q -> Q -> Q) (a b : tensor2) : tensor2 :=
  map (fun rr => map (fun xy => f (fst xy) (snd xy))
                   (combine (fst rr) (snd rr)))
      (combine a b).

(** The enumeration value of the class with index [ci] (for [ci] below
    [len(MASK)]). *)
Definition class_value (MASK : list (string * Q)) (ci : nat) : Q :=
  snd (nth ci MASK (EmptyString, 0%Q)).

(** Two engines agree on an input: both return, and their sums, sums of
    squares and counts per (class, image) slot are equal. *)
Definition same_triple
  (r1 r2 : result (tensor5 * tensor5 * tensor5)) : Prop :=
  match r1, r2 with
  | Ok (s1, p1, c1), Ok (s2, p2, c2) =>
      eq2 (sum_axes234 s1) (sum_axes234 s2) /\
      eq2 (sum_axes234 p1) (sum_axes234 p2) /\
      eq2 (sum_axes234 c1) (sum_axes234 c2)
  | _, _ => False
  end.

(** A valid (labelMap, image) pair of the data model: both of shape
    (N, 1, S, S) with the same even side S; the batch sizes may differ. *)
Definition valid_pair (mask_idx image : ndarray4) : Prop :=
  exists n1 n2 s,
    (0 < n1)%nat /\ (0 < n2)%nat /\ (0 < s)%nat /\
    Z.of_nat s mod 2 = 0 /\
    wf4 n1 1 s s mask_idx /\ wf4 n2 1 s s image.

(** ** Vocabulary of the gradient check *)

(** The upstream gradient of slot (class [ci], image [b]); a disconnected
    gradient contributes nothing. *)
Definition og_weight (g : upstream) (ci b : nat) : Q :=
  match g with
  | Connected t => get2 t ci b
  | DisconnectedType => 0%Q
  end.

Definition og_array (g : upstream) : option (list (list Q)) :=
  match g with
  | Connected t => Some t
  | DisconnectedType => None
  end.

(** Position (b', y', x') is the pixel (b, y, x). *)
Definition at_pixel (b y x b' y' x' : nat) : bool :=
  Nat.eqb b' b && Nat.eqb y' y && Nat.eqb x' x.

(** [image'] is [image] with [h] added to the pixel (b, 0, y, x). *)
Definition perturbed (n s : nat) (image image' : tensor4)
  (b y x : nat) (h : Q) : Prop :=
  rect4 n 1 s s image' /\
  forall b' y' x',
    (b' < n)%nat -> (y' < s)%nat -> (x' < s)%nat ->
    (get4 image' b' 0 y' x' ==
     get4 image b' 0 y' x' + (if at_pixel b y x b' y' x' then h else 0))%Q.

(** The partial derivative of the sum of slot (class [ci], image [b'])
    with respect to the pixel (b, 0, y, x): one if the pixel lies in image
    [b'] and carries the value of class [ci], zero otherwise. *)
Definition d_sum (MASK : list (string * Q)) (mask_idx : tensor4)
  (b y x ci b' : nat) : Q :=
  if Nat.eqb b' b &&
     Qeq_bool (get4 mask_idx b 0 y x) (class_value MASK ci)
  then 1%Q else 0%Q.

(** ** Preconditions and example data *)

(** What [shape_ok] asks of one rank-4 shape taken on its own. *)
Definition own_shape_ok (c h w : Z) : bool :=
  (h =? w) && (h mod 2 =? 0) && (c =? 1).

(** The input precondition of the forward reduction: float32, rank 4,
    single channel, square and even, and the same spatial shape for the
    label map and the image. *)
Definition forward_precondition (mask_idx image : tvar) : Prop :=
  v_dtype mask_idx = float32 /\ v_dtype image = float32 /\
  exists n1 n2 s,
    nd_shape (v_array mask_idx) = [n1; 1; s; s] /\
    nd_shape (v_array image) = [n2; 1; s; s] /\
    s mod 2 = 0.

(** A two-class enumeration: "A" with value 0 and "B" with value 1. *)
Definition MASK_AB : list (string * Q) :=
  [("A"%string, 0%Q); ("B"%string, 1%Q)].

(** A 4x4 label map whose top-left 2x2 block is class "A", and the image
    holding 1.0 on "A" and 3.0 on "B". *)
Definition labels_4x4 : tensor4 :=
  [[[ [0; 0; 1; 1]; [0; 0; 1; 1]; [1; 1; 1; 1]; [1; 1; 1; 1] ]]]%Q.
Definition image_4x4 : tensor4 :=
  [[[ [1; 1; 3; 3]; [1; 1; 3; 3]; [3; 3; 3; 3]; [3; 3; 3; 3] ]]]%Q.

(** 2x2 data for one and for two images. *)
Definition labels_2x2 : tensor3 := [[ [0; 0]; [1; 1] ]]%Q.
Definition pixels_2x2 : tensor3 := [[ [5; 7]; [2; 4] ]]%Q.

Definition f32 (shp : shape) (t : tensor4) : tvar :=
  mk_tvar float32 (mk_ndarray4 shp t).

(** ** Choosing the implementation *)

(** What [get_split_mask_fn] returns: the operator [SplitMask()] or the
    function [theano_split_mask]. *)
Inductive split_fn : Type :=
| CudaSplitMask
| TheanoSplitMask.

(** [s.startswith(prefix)] *)
Definition startswith (s prefix : string) : bool := String.prefix prefix s.

Definition slow_path_warning : string :=
  "Warning: Possible very slow. GPU is avialable but still computing mask_loss on the CPU".

(** [get_split_mask_fn(impl)], with [theano.config.device] as [device]:
    the implementation and the lines printed to [sys.stderr]. *)
Definition get_split_mask_fn (device impl : string)
  : split_fn * list string :=
  if (String.eqb impl "auto" && startswith device "gpu")
     || String.eqb impl "cuda"
  then (CudaSplitMask, [])
  else if startswith device "gpu"
       then (TheanoSplitMask, [slow_path_warning])
       else (TheanoSplitMask, []).

(** [split_fn(grid_idx, image)]: building the graph. The operator checks
    the dtypes in [make_node]; the graph of [theano_split_mask] is built
    without a check except for [T.stack], which rejects an empty list. *)
Definition build_split_fn (MASK : list (string * Q)) (fn : split_fn)
  (grid_idx image : tvar) : result unit :=
  match fn with
  | CudaSplitMask => SplitMask_make_node grid_idx image ;;; Ok tt
  | TheanoSplitMask => stack (map (fun _ => []) MASK) ;;; Ok tt
  end.

(** [split_fn(grid_idx, image)]: the value of the three outputs. *)
Definition call_split_fn (MASK : list (string * Q)) (fn : split_fn)
  (grid_idx image : tvar) : result (tensor5 * tensor5 * tensor5) :=
  match fn with
  | CudaSplitMask => SplitMask_call MASK grid_idx image
  | TheanoSplitMask =>
      theano_split_mask MASK (nd_data (v_array grid_idx))
        (nd_data (v_array image))
  end.

(** ** Means over groups of classes *)

(** [keys.index(key)] *)
Fixpoint list_index (key : string) (keys : list string) : result nat :=
  match keys with
  | [] => Raise (ValueError (String.append "'"
                   (String.append key "' is not in list")))
  | k :: rest =>
      if String.eqb k key then Ok O
      else i <- list_index key rest ;; Ok (S i)
  end.

(** [t[start:stop]] along the first axis, [stop] being [None] or a
    non-negative bound. *)
Definition slice {A : Type} (start : nat) (stop : option nat) (l : list A)
  : list A :=
  skipn start (match stop with Some e => firstn e l | None => l end).

(** A float value: a number, an infinity or NaN. *)
Inductive fval : Type :=
| Fin (q : Q)
| PInf
| NInf
| NaN.

(** Float division of two numbers. The quotient by zero is NaN for a
    zero numerator and an infinity with the sign of the numerator
    otherwise (a zero count is a sum of non-negative counts, [+0.0]). *)
Definition fdiv (x y : Q) : fval :=
  if Qeq_bool y 0
  then if Qeq_bool x 0 then NaN
       else if Qle_bool 0 x then PInf else NInf
  else Fin (x / y)%Q.

(** [t.sum(axis=0)] of a matrix with [n] columns. *)
Definition sum_axis0 (n : nat) (t : tensor2) : tensor1 :=
  map (fun b => sum1 (map (fun row => get1 row b) t)) (seq 0 n).

(** The number of columns of a matrix that has a row. *)
Definition n_columns (t : tensor2) : nat := length (hd [] t).

(** The closure [slice_mean(slice)] of [segment_means] and [mask_loss]:
    [(mean[slice]*count[slice]).sum(axis=0) / count[slice].sum(axis=0)] *)
Definition slice_mean (mean count : tensor2) (start : nat)
  (stop : option nat) : result (list fval) :=
  let n := n_columns mean in
  prod <- elemwise2 Qmult (slice start stop mean) (slice start stop count) ;;
  Ok (map (fun xy => fdiv (fst xy) (snd xy))
        (combine (sum_axis0 n prod)
           (sum_axis0 n (slice start stop count)))).

(** [segment_means(grid_idx, image, impl)]. The graph is built first
    (with the look-up of ["IGNORE"]), then evaluated. *)
Definition segment_means (MASK : list (string * Q)) (device impl : string)
  (grid_idx image : tvar)
  : result (list fval * list fval * list fval) :=
  let split_fn := fst (get_split_mask_fn device impl) in
  build_split_fn MASK split_fn grid_idx image ;;;
  let mask_keys := map fst MASK in
  ignore_idx <- list_index "IGNORE" mask_keys ;;
  triple <- call_split_fn MASK split_fn grid_idx image ;;
  let '(sum, pow, count) := triple in
  stats <- split_to_mean_var sum pow count ;;
  let '(mean, var, count) := stats in
  black_mean <- slice_mean mean count 0 (Some ignore_idx) ;;
  white_mean <- slice_mean mean count (ignore_idx + 1)%nat None ;;
  ignore_mean <-
    slice_mean mean count ignore_idx (Some (ignore_idx + 2)%nat) ;;
  Ok (black_mean, white_mean, ignore_mean).

(** The sum and the number of the pixels of image [b] whose label is the
    value of class [ci], for a label map of [c] channels, [h] rows and
    [w] columns. *)
Definition class_sum (MASK : list (string * Q)) (c h w : nat)
  (mask_idx image : tensor4) (ci b : nat) : Q :=
  sumseq3 c h w (fun ch y x =>
    if Qeq_bool (get4 mask_idx b ch y x) (class_value MASK ci)
    then get4 image b ch y x else 0%Q).

Definition class_count (MASK : list (string * Q)) (c h w : nat)
  (mask_idx : tensor4) (ci b : nat) : Q :=
  sumseq3 c h w (fun ch y x =>
    indicator (Qeq_bool (get4 mask_idx b ch y x) (class_value MASK ci))).

(** The classes a slice of the class axis selects. *)
Definition sliced_classes (MASK : list (string * Q)) (start : nat)
  (stop : option nat) : list nat :=
  slice start stop (seq 0 (len_MASK MASK)).

(** Two float values are the same: equal numbers, the same infinity, or
    both NaN. *)
Definition same_float (a b : fval) : Prop :=
  match a, b with
  | Fin x, Fin y => (x == y)%Q
  | PInf, PInf => True
  | NInf, NInf => True
  | NaN, NaN => True
  | _, _ => False
  end.

(** The mean of the pixels of image [b] that carry the value of one of
    the [classes]: the sum of these pixels by their number. *)
Definition pooled_mean (MASK : list (string * Q)) (c h w : nat)
  (mask_idx image : tensor4) (classes : list nat) (b : nat) : fval :=
  fdiv (sum1 (map (fun ci => class_sum MASK c h w mask_idx image ci b)
                classes))
       (sum1 (map (fun ci => class_count MASK c h w mask_idx ci b) classes)).

(** ** Arithmetic on float values *)

(** [T.maximum] and [T.minimum] on two numbers. *)
Definition Qmaximum (x y : Q) : Q := if Qle_bool x y then y else x.
Definition Qminimum (x y : Q) : Q := if Qle_bool x y then x else y.

(** Arithmetic on float values: NaN makes every result NaN, and so does
    the sum of the two opposite infinities. *)
Definition fadd (a b : fval) : fval :=
  match a, b with
  | NaN, _ | _, NaN => NaN
  | Fin x, Fin y => Fin (x + y)%Q
  | PInf, NInf | NInf, PInf => NaN
  | PInf, _ | _, PInf => PInf
  | NInf, _ | _, NInf => NInf
  end.

Definition fsub (a b : fval) : fval :=
  match a, b with
  | NaN, _ | _, NaN => NaN
  | Fin x, Fin y => Fin (x - y)%Q
  | PInf, PInf | NInf, NInf => NaN
  | PInf, _ | _, NInf => PInf
  | NInf, _ | _, PInf => NInf
  end.

(** [T.maximum] and [T.minimum] on float values. *)
Definition fmax (a b : fval) : fval :=
  match a, b with
  | NaN, _ | _, NaN => NaN
  | Fin x, Fin y => Fin (Qmaximum x y)
  | PInf, _ | _, PInf => PInf
  | NInf, v | v, NInf => v
  end.

Definition fmin (a b : fval) : fval :=
  match a, b with
  | NaN, _ | _, NaN => NaN
  | Fin x, Fin y => Fin (Qminimum x y)
  | NInf, _ | _, NInf => NInf
  | PInf, v | v, PInf => v
  end.

(** ** The median *)

(** [T.sort] along the last axis: ascending order. *)
Fixpoint insert_sorted (x : Q) (l : list Q) : list Q :=
  match l with
  | [] => [x]
  | y :: l' => if Qle_bool x y then x :: l else y :: insert_sorted x l'
  end.

Definition sort_last (l : list Q) : list Q :=
  fold_right insert_sorted [] l.

(** [t.reshape((shp[0], shp[1], shp[2], -1), ndim=4)] of a rank-5
    tensor: the last two axes become one. *)
Definition reshape_last2 (t : tensor5) : tensor4 :=
  map (map (map (fun rows : list (list Q) => concat rows))) t.

(** [t.flatten()] of a rank-4 tensor. *)
Definition flatten4 (t : tensor4) : list Q :=
  concat (map (fun t3 => concat (map (fun t2 => concat t2) t3)) t).

(** [flat[i]] for a signed index, as [take] reads it: a negative index
    counts from the end, an index outside of the array is an error. *)
Definition take_flat (flat : list Q) (i : Z) : result Q :=
  let len := Z.of_nat (length flat) in
  if (0 <=? i) && (i <? len) then Ok (nth (Z.to_nat i) flat 0%Q)
  else if (- len <=? i) && (i <? 0) then
         Ok (nth (Z.to_nat (len + i)) flat 0%Q)
       else Raise IndexError.

(** [img_sort.shape[-1]] of a tensor with at least one row. *)
Definition last_axis (t : tensor4) : nat :=
  length (hd [] (hd [] (hd [] t))).

(** [mapM] over a matrix. *)
Fixpoint mapM {A B : Type} (f : A -> result B) (l : list A)
  : result (list B) :=
  match l with
  | [] => Ok []
  | a :: l' => b <- f a ;; r <- mapM f l' ;; Ok (b :: r)
  end.

(** [median(grid_split_image, grid_counts)] *)
Definition median (grid_split_image : tensor5) (grid_counts : tensor2)
  : result tensor2 :=
  let reshape := reshape_last2 grid_split_image in
  let img_sort := map (map (map sort_last)) reshape in
  let pixels := last_axis img_sort in
  let indicies :=
    map (map (fun cnt : Q =>
                Qfloor ((inject_Z (Z.of_nat pixels) + cnt) / 2)%Q))
      grid_counts in
  mapM (mapM (take_flat (flatten4 img_sort))) indicies.

(** ** The loss on the statistics of the classes *)

(** A Python number: an [int] or a [float]. *)
Inductive py_num : Type :=
| PyInt (z : Z)
| PyFloat (q : Q).

(** The value of a Python number where it is multiplied with a tensor. *)
Definition num_value (x : py_num) : Q :=
  match x with
  | PyInt z => inject_Z z
  | PyFloat q => q
  end.

(** [x * l] for a number [x] and a Python list [l]: an [int] repeats the
    list (no time at all when it is not positive), a [float] is a
    [TypeError]. *)
Definition mul_list {A : Type} (x : py_num) (l : list A) : result (list A) :=
  match x with
  | PyInt z => Ok (concat (repeat l (Z.to_nat z)))
  | PyFloat _ => Raise TypeError
  end.

(** The product of two float values. *)
Definition fmul (a b : fval) : fval :=
  match a, b with
  | NaN, _ | _, NaN => NaN
  | Fin x, Fin y => Fin (x * y)%Q
  | Fin x, PInf | PInf, Fin x =>
      if Qeq_bool x 0 then NaN else if Qle_bool 0 x then PInf else NInf
  | Fin x, NInf | NInf, Fin x =>
      if Qeq_bool x 0 then NaN else if Qle_bool 0 x then NInf else PInf
  | PInf, PInf | NInf, NInf => PInf
  | PInf, NInf | NInf, PInf => NInf
  end.

(** [a**2] *)
Definition fsquare (a : fval) : fval := fmul a a.

(** [a / d] for a float value and a number. *)
Definition fdivq (a : fval) (d : Q) : fval :=
  match a with
  | Fin x => fdiv x d
  | PInf => if Qle_bool 0 d then PInf else NInf
  | NInf => if Qle_bool 0 d then NInf else PInf
  | NaN => NaN
  end.

(** [sum(l)] for a Python list of float values: it starts from [0]. *)
Definition fsum (l : list fval) : fval := fold_left fadd l (Fin 0%Q).

(** [T.mean(v)] of a vector. *)
Definition fmean (v : list fval) : fval :=
  fdivq (fold_right fadd (Fin 0%Q) v) (inject_Z (Z.of_nat (length v))).

(** [white_parts == ["OUTER_WHITE_RING"]]: [white_parts] is a key of
    [MASK], a string, and a string never equals a list. *)
Definition str_eq_list (s : string) (l : list string) : bool := false.

(** The closure [cell_loss_fn(mask_color, color_mean, mean_weight,
    var_weight)] of [mask_loss], once [mask_keys.index(mask_color)] has
    given [cell_idx]; the vector over the [n] images is written entry
    by entry. *)
Definition cell_loss_fn (mean var count : tensor2) (n : nat)
  (cell_idx : nat) (color_mean : list fval) (mean_weight var_weight : Q)
  : list fval :=
  let cell_weight := sum1 (nth cell_idx count []) in
  let mean_tolerance := ((10 # 100) * (10 # 100))%Q in
  map (fun b =>
         let mean_diff :=
           fsub (fmax (fsquare (fsub (nth b color_mean NaN)
                                  (Fin (get2 mean cell_idx b))))
                   (Fin mean_tolerance))
             (Fin mean_tolerance) in
         if Qeq_bool (get2 count cell_idx b) 0 then Fin 0%Q
         else fmul (Fin cell_weight)
                (fadd (fmul (Fin mean_weight) mean_diff)
                   (Fin (var_weight * get2 var cell_idx b)%Q)))
    (seq 0 n).

(** The dictionary [mask_loss] returns. *)
Record mask_loss_result : Type := mk_mask_loss_result {
  ml_loss : fval;
  ml_loss_per_sample : list fval;
  ml_black_white_loss : list fval;
  ml_ring_loss : list fval;
  ml_cell_losses : list (list fval)
}.

(** A cell of [mask_loss]: the index of its class, whether it is
    compared with the black or with the white mean, and its two weights. *)
Record cell : Type := mk_cell {
  cell_idx : nat;
  cell_black : bool;
  cell_mean_weight : Q;
  cell_var_weight : Q
}.

(** The values of the graph of [mask_loss], from the statistics
    [mean, var, count], the two group means and the indices and cells
    found when the graph was built; the vectors over the images are
    written entry by entry. [cell_losses] is the list before, and
    [scaled_cell_losses] the list after the product with [scale]. *)
Definition mask_loss_terms (mean var count : tensor2)
  (black_mean white_mean : list fval)
  (ignore_idx background_ring_idx outer_white_ring_idx : nat)
  (cell_losses scaled_cell_losses : list cell) (scale : py_num)
  : mask_loss_result :=
  let n := n_columns mean in
  let images := seq 0 n in
  let black_white_loss :=
    map (fun b =>
           let mean_distance :=
             fmin (fsub (nth b white_mean NaN) (nth b black_mean NaN))
               (Fin (25 # 100)%Q) in
           fsquare (fsub mean_distance (Fin (25 # 100)%Q))) images in
  let ring_loss :=
    map (fun b =>
           let ring_distance :=
             Qminimum (get2 mean outer_white_ring_idx b -
                       get2 mean background_ring_idx b) (1 # 10) in
           Fin ((ring_distance - (1 # 10)) * (ring_distance - (1 # 10)) +
                (25 # 100) * get2 var background_ring_idx b)%Q) images in
  let norm :=
    (sum2 (slice 0 (Some background_ring_idx) count) +
     sum2 (slice (ignore_idx + 1)%nat None count))%Q in
  let cell_loss_of :=
    fun k : cell =>
      map (fun l => fdivq l norm)
        (cell_loss_fn mean var count n (cell_idx k)
           (if cell_black k then black_mean else white_mean)
           (cell_mean_weight k) (cell_var_weight k)) in
  let cell_loss :=
    map (fun b =>
           fsum (map (fun k => nth b (cell_loss_of k) NaN) cell_losses))
      images in
  let loss :=
    map (fun b =>
           fadd (fadd (nth b black_white_loss NaN) (nth b ring_loss NaN))
             (nth b cell_loss NaN)) images in
  let times_scale := map (fmul (Fin (num_value scale))) in
  {| ml_loss := fmul (Fin (num_value scale)) (fmean loss);
     ml_loss_per_sample := times_scale loss;
     ml_black_white_loss := times_scale black_white_loss;
     ml_ring_loss := times_scale ring_loss;
     ml_cell_losses := map cell_loss_of scaled_cell_losses |}.

(** [mask_loss(mask_image, image, impl, scale, mean_weight, var_weight)],
    with the lists [MASK_BLACK] and [MASK_WHITE] of keys. The graph is
    built first, with the look-ups of the keys and the product of
    [scale] and the list [cell_losses]; then it is evaluated. *)
Definition mask_loss (MASK : list (string * Q))
  (MASK_BLACK MASK_WHITE : list string) (device impl : string)
  (mask_image image : tvar) (scale : py_num) (mean_weight var_weight : Q)
  : result mask_loss_result :=
  let split_fn := fst (get_split_mask_fn device impl) in
  build_split_fn MASK split_fn mask_image image ;;;
  let mask_keys := map fst MASK in
  ignore_idx <- list_index "IGNORE" mask_keys ;;
  background_ring_idx <- list_index "BACKGROUND_RING" mask_keys ;;
  outer_white_ring_idx <- list_index "OUTER_WHITE_RING" mask_keys ;;
  black_cells <-
    mapM (fun black_parts =>
            i <- list_index black_parts mask_keys ;;
            Ok (mk_cell i true mean_weight var_weight)) MASK_BLACK ;;
  white_cells <-
    mapM (fun white_parts =>
            if str_eq_list white_parts ["OUTER_WHITE_RING"%string]
            then i <- list_index white_parts mask_keys ;;
                 Ok (mk_cell i false
                       (mean_weight / 10)%Q (var_weight / 40)%Q)
            else i <- list_index white_parts mask_keys ;;
                 Ok (mk_cell i false mean_weight var_weight))
      MASK_WHITE ;;
  let cell_losses := black_cells ++ white_cells in
  scaled_cell_losses <- mul_list scale cell_losses ;;
  triple <- call_split_fn MASK split_fn mask_image image ;;
  let '(sum, pow, count) := triple in
  stats <- split_to_mean_var sum pow count ;;
  let '(mean, var, count) := stats in
  black_mean <- slice_mean mean count 0 (Some ignore_idx) ;;
  white_mean <- slice_mean mean count (ignore_idx + 1)%nat None ;;
  Ok (mask_loss_terms mean var count black_mean white_mean
        ignore_idx background_ring_idx outer_white_ring_idx
        cell_losses scaled_cell_losses scale).

(** ** Example data for the means *)

(** An enumeration with the class "IGNORE" between a dark and a bright
    class, and one that starts with it. *)
Definition MASK_RING : list (string * Q) :=
  [("INNER_BLACK"%string, 0%Q); ("IGNORE"%string, 1%Q);
   ("OUTER_WHITE"%string, 2%Q)].
Definition MASK_IGNORE_FIRST : list (string * Q) :=
  [("IGNORE"%string, 0%Q); ("OUTER_WHITE"%string, 1%Q)].

(** The volumes of two classes for one image with one 2x2 channel, and
    the counts of the two slots. *)
Definition volumes_two_classes : tensor5 :=
  [ [[ [ [3; 1]; [2; 0] ] ]]; [[ [ [13; 11]; [12; 10] ] ]] ]%Q.
Definition counts_two_classes : tensor2 := [[1]; [2]]%Q.

(** An enumeration with the classes [mask_loss] looks up, its black and
    white parts, and a 4x4 label map and image with four pixels of each
    class. *)
Definition MASK_GRID : list (string * Q) :=
  [("INNER_BLACK"%string, 0%Q); ("BACKGROUND_RING"%string, 1%Q);
   ("IGNORE"%string, 2%Q); ("OUTER_WHITE_RING"%string, 3%Q)].
Definition MASK_BLACK_GRID : list string := ["INNER_BLACK"%string].
Definition MASK_WHITE_GRID : list string := ["OUTER_WHITE_RING"%string].
Definition labels_grid : tensor4 :=
  [[[ [0; 0; 1; 1]; [0; 0; 1; 1]; [2; 2; 3; 3]; [2; 2; 3; 3] ]]]%Q.
Definition image_grid : tensor4 :=
  [[[ [0; 0; 0; 0]; [0; 0; 0; 0]; [0; 0; 1; 1]; [0; 0; 1; 1] ]]]%Q.
(** A label map without a pixel of a class before "IGNORE". *)
Definition labels_no_black : tensor4 :=
  [[[ [2; 2; 3; 3]; [2; 2; 3; 3]; [2; 2; 3; 3]; [2; 2; 3; 3] ]]]%Q.

(** * Properties *)

(** ** Shape guard and launch set-up *)

Lemma shape_ok_rank4 (n c h w : Z) :
  shape_ok [n; c; h; w] = Ok ((h =? w) && (h mod 2 =? 0) && (c =? 1)).
Proof.
  unfold shape_ok; cbn.
  destruct (h =? w); cbn; [|reflexivity].
  destruct (h mod 2 =? 0); reflexivity.
Qed.

Lemma shape_ok_valid (n s : Z) :
  s mod 2 = 0 -> shape_ok [n; 1; s; s] = Ok true.
Proof.
  intros Hs. rewrite shape_ok_rank4, Z.eqb_refl, Hs. reflexivity.
Qed.

Lemma ceil_div_pos (a b : Z) : b <> 0 -> ceil_div a b = Ok (- (- a / b)).
Proof.
  intros Hb. unfold ceil_div.
  destruct (Z.eqb_spec b 0); [contradiction | reflexivity].
Qed.

Lemma over_pixels_rect (batch s : nat) (f : nat -> nat -> nat -> Q) :
  rect4 batch 1 s s (over_pixels batch s f).
Proof.
  unfold over_pixels, rect4, rect3, rect2, rect1. split.
  - now rewrite length_map, length_seq.
  - apply Forall_forall. intros t Ht. apply in_map_iff in Ht as [b [<- _]].
    split; [reflexivity|]. constructor; [|constructor]. split.
    + now rewrite length_map, length_seq.
    + apply Forall_forall. intros r Hr. apply in_map_iff in Hr as [y [<- _]].
      now rewrite length_map, length_seq.
Qed.

Section HostProperties.

Variable MASK : list (string * Q).

Lemma SplitMask_thunk_host_valid (n1 n2 s : Z) :
  s mod 2 = 0 ->
  SplitMask_thunk_host MASK [n1; 1; s; s] [n2; 1; s; s] =
  Ok (mk_launch (Z.min n1 n2) s
        [3 * Z.of_nat (len_MASK MASK); Z.min n1 n2; 1; s; s]
        (Z.min n1 n2, - (- s / 32), - (- s / 32))
        (1, Z.min 32 s, Z.min 32 s)).
Proof.
  intros Hs. unfold SplitMask_thunk_host.
  rewrite !shape_ok_valid by assumption. cbn.
  rewrite Z.eqb_refl. reflexivity.
Qed.

Lemma SplitMaskGrad_thunk_host_valid (n1 n2 s : Z) :
  s mod 2 = 0 -> 0 < s ->
  SplitMaskGrad_thunk_host [n1; 1; s; s] [n2; 1; s; s] =
  Ok (mk_launch (Z.min n1 n2) s [Z.min n1 n2; 1; s; s]
        (Z.min n1 n2, - (- s / Z.min 32 s), - (- s / Z.min 32 s))
        (1, Z.min 32 s, Z.min 32 s)).
Proof.
  intros Hs Hpos. unfold SplitMaskGrad_thunk_host.
  rewrite !shape_ok_valid by assumption. cbn.
  rewrite ceil_div_pos by lia. reflexivity.
Qed.




End HostProperties.

(** ** The host side of the two operators *)

Section OperatorProperties.

Variable MASK : list (string * Q).

Lemma SplitMask_make_node_spec (mask_idx image : tvar) :
  SplitMask_make_node mask_idx image =
  if dtype_eqb (v_dtype mask_idx) float32 &&
     dtype_eqb (v_dtype image) float32
  then Ok (mask_idx, image) else Raise AssertionError.
Proof.
  unfold SplitMask_make_node, contiguouse.
  destruct (dtype_eqb (v_dtype mask_idx) float32); cbn; [|reflexivity].
  destruct (dtype_eqb (v_dtype image) float32); reflexivity.
Qed.

Lemma SplitMask_thunk_host_rank4 (n1 c1 h1 w1 n2 c2 h2 w2 : Z) :
  SplitMask_thunk_host MASK [n1; c1; h1; w1] [n2; c2; h2; w2] =
  if own_shape_ok c1 h1 w1 && own_shape_ok c2 h2 w2
  then Ok (mk_launch (Z.min n1 n2) w1
             [3 * Z.of_nat (len_MASK MASK); Z.min n1 n2; 1; w1; w1]
             (Z.min n1 n2, - (- w1 / 32), - (- w1 / 32))
             (1, Z.min 32 w1, Z.min 32 w1))
  else Raise AssertionError.
Proof.
  unfold SplitMask_thunk_host. rewrite !shape_ok_rank4. cbn.
  unfold own_shape_ok.
  destruct (Z.eqb_spec h1 w1) as [->|]; cbn; [|reflexivity].
  destruct (w1 mod 2 =? 0); cbn; [|reflexivity].
  destruct (c1 =? 1); cbn; [|reflexivity].
  destruct ((h2 =? w2) && (h2 mod 2 =? 0) && (c2 =? 1)); cbn; [|reflexivity].
  reflexivity.
Qed.

(** C7 (amended). For rank-4 inputs the forward call fails with an
    [AssertionError] as soon as one input is not float32 or one shape,
    taken on its own, is not single-channel, square and even; when both
    inputs pass these checks no assertion fires and the call returns.
    The spatial shapes of the label map and of the image are never
    compared with each other. *)
Theorem SplitMask_call_assertions (mask_idx image : tvar)
  (n1 c1 h1 w1 n2 c2 h2 w2 : Z) :
  nd_shape (v_array mask_idx) = [n1; c1; h1; w1] ->
  nd_shape (v_array image) = [n2; c2; h2; w2] ->
  let checks :=
    dtype_eqb (v_dtype mask_idx) float32 &&
    dtype_eqb (v_dtype image) float32 &&
    own_shape_ok c1 h1 w1 && own_shape_ok c2 h2 w2 in
  (checks = false -> SplitMask_call MASK mask_idx image = Raise AssertionError)
  /\ (checks = true -> exists r, SplitMask_call MASK mask_idx image = Ok r).
Proof.
  intros Hm Hi checks. subst checks.
  unfold SplitMask_call. rewrite SplitMask_make_node_spec.
  destruct (dtype_eqb (v_dtype mask_idx) float32); cbn;
    [|split; [reflexivity | discriminate]].
  destruct (dtype_eqb (v_dtype image) float32); cbn;
    [|split; [reflexivity | discriminate]].
  unfold SplitMask_make_thunk. rewrite Hm, Hi, SplitMask_thunk_host_rank4.
  destruct (own_shape_ok c1 h1 w1 && own_shape_ok c2 h2 w2); cbn.
  - split; [discriminate | intros _; eexists; reflexivity].
  - split; [reflexivity | discriminate].
Qed.

Lemma forward_precondition_shapes (mask_idx image : tvar) (n1 n2 s1 s2 : Z) :
  nd_shape (v_array mask_idx) = [n1; 1; s1; s1] ->
  nd_shape (v_array image) = [n2; 1; s2; s2] ->
  forward_precondition mask_idx image -> s1 = s2.
Proof.
  intros Hm Hi (_ & _ & a & b & s & Hm' & Hi' & _).
  rewrite Hm in Hm'. rewrite Hi in Hi'. congruence.
Qed.

End OperatorProperties.

(** C7 (as stated) fails: a 4x4 label map with a 2x2 image violates the
    precondition (unequal spatial shapes), and the call returns without
    any assertion firing. *)
Lemma SplitMask_call_unequal_spatial :
  let mask_idx := f32 [1; 1; 4; 4] labels_4x4 in
  let image := f32 [1; 1; 2; 2] [pixels_2x2] in
  ~ forward_precondition mask_idx image /\
  exists r, SplitMask_call MASK_AB mask_idx image = Ok r.
Proof.
  cbn zeta. split.
  - intros H.
    pose proof (forward_precondition_shapes
                  (f32 [1; 1; 4; 4] labels_4x4) (f32 [1; 1; 2; 2] [pixels_2x2])
                  1 1 4 2 eq_refl eq_refl H).
    discriminate.
  - eexists. vm_compute. reflexivity.
Qed.

Lemma SplitMask_call_assertions_witness :
  exists r, SplitMask_call MASK_AB (f32 [1; 1; 4; 4] labels_4x4)
              (f32 [1; 1; 4; 4] image_4x4) = Ok r.
Proof.
  exact (proj2 (SplitMask_call_assertions MASK_AB
                  (f32 [1; 1; 4; 4] labels_4x4) (f32 [1; 1; 4; 4] image_4x4)
                  1 1 4 4 1 1 4 4 eq_refl eq_refl) eq_refl).
Defined.

(** ** Connection modes *)

Lemma SplitMaskGrad_init_spec (conn : list string) :
  SplitMaskGrad_init (Some conn) =
  match thunk_branch (mk_SplitMaskGrad conn EmptyString) with
  | Some Both => Ok (mk_SplitMaskGrad conn "image_mask_split_grad_sum_pow")
  | Some SumOnly => Ok (mk_SplitMaskGrad conn "image_mask_split_grad_sum")
  | Some PowOnly => Ok (mk_SplitMaskGrad conn "image_mask_split_grad_pow")
  | None => Raise (ValueError no_gradient_msg)
  end.
Proof.
  unfold SplitMaskGrad_init, thunk_branch; cbn [connected].
  destruct (contains "sum" conn), (contains "pow" conn); reflexivity.
Qed.

(** C6. Building the backward operator with neither "sum" nor "pow"
    connected, or building its node with both upstream gradients
    disconnected, raises [ValueError] with the message "At least sum or
    pow gradient must be provided". With at least one of them the operator
    and the node are built, and the device function chosen at construction
    is the one for the branch (both, sum only, pow only) that the thunk
    takes on every later call. *)
Theorem SplitMaskGrad_connection_mode :
  (forall conn,
      contains "sum" conn = false -> contains "pow" conn = false ->
      SplitMaskGrad_init (Some conn) = Raise (ValueError no_gradient_msg))
  /\ (forall self mask_idx image,
         SplitMaskGrad_make_node self mask_idx image
           DisconnectedType DisconnectedType
         = Raise (ValueError no_gradient_msg))
  /\ (forall conn,
         contains "sum" conn || contains "pow" conn = true ->
         exists op k,
           SplitMaskGrad_init (Some conn) = Ok op /\
           connected op = conn /\
           get_function (function_name op) = Ok k /\
           thunk_branch op = Some (kernel_mode k) /\
           kernel_mode k =
             (if contains "sum" conn
              then if contains "pow" conn then Both else SumOnly
              else PowOnly))
  /\ (forall self mask_idx image og_sum og_pow,
         is_disconnected og_sum && is_disconnected og_pow = false ->
         exists node,
           SplitMaskGrad_make_node self mask_idx image og_sum og_pow
           = Ok node /\
           ag_op node = self /\
           length (ag_grads node) =
             ((if is_disconnected og_sum then 0 else 1) +
              (if is_disconnected og_pow then 0 else 1))%nat).
Proof.
  repeat split.
  - intros conn Hs Hp. unfold SplitMaskGrad_init. now rewrite Hs, Hp.
  - intros conn H. rewrite SplitMaskGrad_init_spec.
    unfold thunk_branch; cbn [connected].
    destruct (contains "sum" conn) eqn:Hs, (contains "pow" conn) eqn:Hp;
      try discriminate; cbn [andb];
      eexists; eexists; (split; [reflexivity|]);
      unfold thunk_branch; cbn [connected function_name];
      rewrite Hs, Hp; repeat split; reflexivity.
  - intros self mask_idx image og_sum og_pow H.
    unfold SplitMaskGrad_make_node.
    destruct og_sum, og_pow; try discriminate;
      eexists; repeat split; reflexivity.
Qed.

Lemma SplitMaskGrad_connection_mode_witness :
  (exists op k,
      SplitMaskGrad_init (Some ["pow"%string]) = Ok op /\
      connected op = ["pow"%string] /\
      get_function (function_name op) = Ok k /\
      thunk_branch op = Some (kernel_mode k) /\
      kernel_mode k = PowOnly)
  /\ SplitMaskGrad_init (Some []) = Raise (ValueError no_gradient_msg)
  /\ exists node,
      SplitMaskGrad_make_node
        (mk_SplitMaskGrad ["sum"%string] "image_mask_split_grad_sum")
        (f32 [1; 1; 4; 4] labels_4x4) (f32 [1; 1; 4; 4] image_4x4)
        (Connected [[1]; [1]]%Q) DisconnectedType = Ok node /\
      ag_op node =
        mk_SplitMaskGrad ["sum"%string] "image_mask_split_grad_sum" /\
      length (ag_grads node) = 1%nat.
Proof.
  destruct SplitMaskGrad_connection_mode as (H1 & _ & H3 & H4).
  split; [exact (H3 ["pow"%string] eq_refl)|].
  split; [exact (H1 [] eq_refl eq_refl)|].
  exact (H4 (mk_SplitMaskGrad ["sum"%string] "image_mask_split_grad_sum")
           (f32 [1; 1; 4; 4] labels_4x4) (f32 [1; 1; 4; 4] image_4x4)
           (Connected [[1]; [1]]%Q) DisconnectedType eq_refl).
Defined.

(** ** The gradient rule *)

Lemma lookup4_zeros_like (t : tensor4) (b c y x : nat) :
  lookup4 (zeros_like4 t) b c y x =
  option_map (fun _ => 0%Q) (lookup4 t b c y x).
Proof.
  unfold lookup4, zeros_like4, zeros_like3, zeros_like2, zeros_like1.
  rewrite nth_error_map. destruct (nth_error t b) as [t3|]; cbn; [|reflexivity].
  rewrite nth_error_map. destruct (nth_error t3 c) as [t2|]; cbn; [|reflexivity].
  rewrite nth_error_map. destruct (nth_error t2 y) as [t1|]; cbn; [|reflexivity].
  apply nth_error_map.
Qed.

Lemma SplitMask_grad_connected (mask_idx image : tvar)
  (og_sum og_pow og_count : upstream) :
  is_disconnected og_sum && is_disconnected og_pow = false ->
  exists op node,
    SplitMask_grad [mask_idx; image] [og_sum; og_pow; og_count]
    = Ok [ZerosLike mask_idx; GradImage node] /\
    SplitMaskGrad_make_node op mask_idx image og_sum og_pow = Ok node /\
    SplitMaskGrad_init
      (Some ((if is_disconnected og_sum then [] else ["sum"%string]) ++
             (if is_disconnected og_pow then [] else ["pow"%string])))
    = Ok op.
Proof.
  intros H. destruct og_sum, og_pow; try discriminate;
    eexists; eexists; repeat split; reflexivity.
Qed.

Section GradientProperties.

Variable MASK : list (string * Q).

(** C8. In each connection mode (at least one of the sum and pow
    gradients connected) the gradient rule returns, for the label map,
    [zeros_like] of the label map: an array of the same shape with the
    same positions, all of them exactly zero. *)
Theorem SplitMask_grad_label_map_zero (mask_idx image : tvar)
  (og_sum og_pow og_count : upstream) :
  is_disconnected og_sum && is_disconnected og_pow = false ->
  exists g_image z,
    SplitMask_grad [mask_idx; image] [og_sum; og_pow; og_count]
    = Ok [ZerosLike mask_idx; g_image] /\
    eval_gvar MASK (ZerosLike mask_idx) = Ok z /\
    nd_shape z = nd_shape (v_array mask_idx) /\
    forall b c y x,
      lookup4 (nd_data z) b c y x =
      option_map (fun _ => 0%Q) (lookup4 (nd_data (v_array mask_idx)) b c y x).
Proof.
  intros H.
  destruct (SplitMask_grad_connected mask_idx image og_sum og_pow og_count H)
    as (op & node & Hg & _).
  exists (GradImage node), (zeros_like (v_array mask_idx)).
  split; [exact Hg|]. split; [reflexivity|]. split; [reflexivity|].
  intros b c y x. apply lookup4_zeros_like.
Qed.

Lemma SplitMaskGrad_make_thunk_valid (op : SplitMaskGrad)
  (mask_idx image : tvar) (og_sum og_pow : upstream) (node : apply_grad)
  (n1 n2 s : nat) :
  SplitMaskGrad_init
    (Some ((if is_disconnected og_sum then [] else ["sum"%string]) ++
           (if is_disconnected og_pow then [] else ["pow"%string])))
  = Ok op ->
  SplitMaskGrad_make_node op mask_idx image og_sum og_pow = Ok node ->
  nd_shape (v_array mask_idx) =
    [Z.of_nat n1; 1; Z.of_nat s; Z.of_nat s] ->
  nd_shape (v_array image) = [Z.of_nat n2; 1; Z.of_nat s; Z.of_nat s] ->
  Z.of_nat s mod 2 = 0 -> (0 < s)%nat ->
  exists g,
    SplitMaskGrad_make_thunk MASK node = Ok g /\
    nd_shape g =
      [Z.of_nat (Nat.min n1 n2); 1; Z.of_nat s; Z.of_nat s] /\
    rect4 (Nat.min n1 n2) 1 s s (nd_data g) /\
    nd_data g =
      image_mask_split_grad MASK
        (match og_sum with Connected g => Some g | _ => None end)
        (match og_pow with Connected g => Some g | _ => None end)
        (nd_data (v_array mask_idx)) (nd_data (v_array image))
        (Nat.min n1 n2) s.
Proof.
  intros Hop Hnode Hm Hi Heven Hpos.
  assert (Hhost :
    SplitMaskGrad_thunk_host (nd_shape (v_array mask_idx))
      (nd_shape (v_array image)) =
    Ok (mk_launch (Z.of_nat (Nat.min n1 n2)) (Z.of_nat s)
          [Z.of_nat (Nat.min n1 n2); 1; Z.of_nat s; Z.of_nat s]
          (Z.of_nat (Nat.min n1 n2),
           - (- Z.of_nat s / Z.min 32 (Z.of_nat s)),
           - (- Z.of_nat s / Z.min 32 (Z.of_nat s)))
          (1, Z.min 32 (Z.of_nat s), Z.min 32 (Z.of_nat s)))).
  { rewrite Hm, Hi, SplitMaskGrad_thunk_host_valid by lia.
    now rewrite Nat2Z.inj_min. }
  destruct og_sum as [gs|], og_pow as [gp|];
    cbn in Hop; inversion Hop; subst op; clear Hop;
    cbn in Hnode; inversion Hnode; subst node; clear Hnode;
    unfold SplitMaskGrad_make_thunk, contiguouse;
    cbn [ag_op ag_mask ag_image ag_grads function_name connected];
    rewrite Hhost;
    cbn [bind get_function String.eqb Ascii.eqb Bool.eqb
         l_batch_size l_s l_out_shape];
    rewrite !Nat2Z.id;
    eexists; (split; [reflexivity|]);
    (split; [reflexivity|]); (split; [|reflexivity]);
    apply over_pixels_rect.
Qed.


End GradientProperties.

(** ** Sums over index ranges *)

Local Open Scope Q_scope.

Lemma sum1_app (a b : tensor1) : sum1 (a ++ b) == sum1 a + sum1 b.
Proof.
  unfold sum1. induction a as [|q a IH]; cbn [app fold_right].
  - ring.
  - rewrite IH. ring.
Qed.

Lemma sumseq_S (n : nat) (f : nat -> Q) :
  sumseq (S n) f == sumseq n f + f n.
Proof.
  unfold sumseq. rewrite seq_S, map_app, sum1_app.
  unfold sum1; cbn [map fold_right Nat.add]. ring.
Qed.

Lemma sumseq_ext (n : nat) (f g : nat -> Q) :
  (forall i, (i < n)%nat -> f i == g i) -> sumseq n f == sumseq n g.
Proof.
  induction n as [|n IH]; intros H.
  - reflexivity.
  - rewrite !sumseq_S, IH, (H n) by auto with arith. reflexivity.
Qed.

Lemma sumseq_plus (n : nat) (f g : nat -> Q) :
  sumseq n (fun i => f i + g i) == sumseq n f + sumseq n g.
Proof.
  induction n as [|n IH].
  - reflexivity.
  - rewrite !sumseq_S, IH. ring.
Qed.

Lemma sumseq_scal (n : nat) (a : Q) (f : nat -> Q) :
  sumseq n (fun i => a * f i) == a * sumseq n f.
Proof.
  induction n as [|n IH].
  - unfold sumseq, sum1; cbn [seq map fold_right]. ring.
  - rewrite !sumseq_S, IH. ring.
Qed.

Lemma sumseq_zero (n : nat) (f : nat -> Q) :
  (forall i, (i < n)%nat -> f i == 0) -> sumseq n f == 0.
Proof.
  induction n as [|n IH]; intros H.
  - reflexivity.
  - rewrite sumseq_S, IH, (H n) by auto with arith. ring.
Qed.

Lemma sumseq_delta (n k : nat) (d : Q) :
  (k < n)%nat -> sumseq n (fun i => if Nat.eqb i k then d else 0) == d.
Proof.
  induction n as [|n IH]; intros Hk; [lia|].
  rewrite sumseq_S. destruct (Nat.eqb_spec n k) as [->|Hne].
  - rewrite sumseq_zero; [ring|].
    intros i Hi. destruct (Nat.eqb_spec i k); [lia | reflexivity].
  - rewrite IH by lia. ring.
Qed.

Lemma sumseq_swap (n m : nat) (f : nat -> nat -> Q) :
  sumseq n (fun i => sumseq m (f i)) ==
  sumseq m (fun j => sumseq n (fun i => f i j)).
Proof.
  induction n as [|n IH].
  - symmetry. apply sumseq_zero. reflexivity.
  - rewrite sumseq_S, IH, <- sumseq_plus.
    apply sumseq_ext. intros j _. now rewrite sumseq_S.
Qed.

Lemma map_nth_seq {A : Type} (l : list A) (d : A) :
  map (fun i => nth i l d) (seq 0 (length l)) = l.
Proof.
  induction l as [|a l IH]; [reflexivity|].
  cbn [length seq map nth]. f_equal.
  rewrite <- seq_shift, map_map. exact IH.
Qed.

Lemma nth_map_seq {A : Type} (f : nat -> A) (n i : nat) (d : A) :
  (i < n)%nat -> nth i (map f (seq 0 n)) d = f i.
Proof.
  intros Hi. rewrite (nth_indep _ d (f 0%nat)) by now rewrite length_map, length_seq.
  rewrite (map_nth f (seq 0 n) 0%nat i), seq_nth by assumption. reflexivity.
Qed.

Lemma nth_map_in {A B : Type} (f : A -> B) (l : list A) (d : A) (d' : B)
  (i : nat) :
  (i < length l)%nat -> nth i (map f l) d' = f (nth i l d).
Proof.
  intros H. rewrite (nth_indep _ d' (f d)) by now rewrite length_map.
  apply map_nth.
Qed.

Lemma sum1_index (t : tensor1) : sum1 t = sumseq (length t) (get1 t).
Proof.
  unfold sumseq, get1. now rewrite map_nth_seq.
Qed.

Lemma sum2_index (h w : nat) (t : tensor2) :
  rect2 h w t ->
  sum2 t == sumseq h (fun y => sumseq w (fun x => get2 t y x)).
Proof.
  intros [Hh Hw]. unfold sum2. rewrite sum1_index, length_map, Hh.
  apply sumseq_ext. intros y Hy. unfold get1, get2.
  rewrite (nth_indep _ 0 (sum1 [])) by (rewrite length_map; lia).
  rewrite (map_nth sum1 t [] y), sum1_index.
  rewrite Forall_forall in Hw. rewrite (Hw (nth y t [])).
  - reflexivity.
  - apply nth_In. lia.
Qed.

Lemma sum3_index (c h w : nat) (t : tensor3) :
  rect3 c h w t ->
  sum3 t ==
  sumseq c (fun ch => sumseq h (fun y => sumseq w (fun x => get3 t ch y x))).
Proof.
  intros [Hc Hr]. unfold sum3. rewrite sum1_index, length_map, Hc.
  apply sumseq_ext. intros ch Hch. unfold get1, get3.
  rewrite (nth_indep _ 0 (sum2 [])) by (rewrite length_map; lia).
  rewrite (map_nth sum2 t [] ch).
  apply sum2_index. rewrite Forall_forall in Hr. apply Hr, nth_In. lia.
Qed.

(** ** The masked assignment *)

Lemma set_nonzero_inv {I T : Type} (inner_r : I -> T -> result T)
  (inner_p : I -> T -> T) (any : I -> bool) (zl : T -> T) :
  (forall i t t', inner_r i t = Ok t' -> t' = inner_p i t) ->
  forall idx image r,
    set_nonzero inner_r any zl idx image = Ok r ->
    r = select inner_p zl idx image.
Proof.
  intros Hin idx. induction idx as [|i idx IH]; intros image r H.
  - cbn in H. now inversion H.
  - destruct image as [|t image]; cbn in H.
    + destruct (any i || existsb any idx)%bool; now inversion H.
    + destruct (inner_r i t) as [t'|] eqn:Ht; cbn in H; [|discriminate].
      destruct (set_nonzero inner_r any zl idx image) as [r'|] eqn:Hr;
        cbn in H; [|discriminate].
      inversion H; subst r. cbn. f_equal; auto.
Qed.

Lemma set_nonzero_ok {I T : Type} (inner_r : I -> T -> result T)
  (inner_p : I -> T -> T) (any : I -> bool) (zl : T -> T)
  (R : I -> T -> Prop) :
  (forall i t, R i t -> inner_r i t = Ok (inner_p i t)) ->
  forall idx image,
    Forall2 R idx image ->
    set_nonzero inner_r any zl idx image = Ok (select inner_p zl idx image).
Proof.
  intros Hin idx image H. induction H as [|i t idx image Hit _ IH].
  - reflexivity.
  - cbn. rewrite (Hin i t Hit). cbn. rewrite IH. reflexivity.
Qed.

Lemma set_nonzero1_inv (idx : mask1) (image r : tensor1) :
  set_nonzero1 idx image = Ok r -> r = select1 idx image.
Proof.
  apply set_nonzero_inv. intros i t t' H. now inversion H.
Qed.

Lemma set_nonzero2_inv (idx : mask2) (image r : tensor2) :
  set_nonzero2 idx image = Ok r -> r = select2 idx image.
Proof. apply set_nonzero_inv. exact set_nonzero1_inv. Qed.

Lemma set_nonzero3_inv (idx : mask3) (image r : tensor3) :
  set_nonzero3 idx image = Ok r -> r = select3 idx image.
Proof. apply set_nonzero_inv. exact set_nonzero2_inv. Qed.

Lemma set_nonzero4_inv (idx : mask4) (image r : tensor4) :
  set_nonzero4 idx image = Ok r -> r = select4 idx image.
Proof. apply set_nonzero_inv. exact set_nonzero3_inv. Qed.

Lemma Forall2_same_length {A B : Type} (P : A -> Prop) (Q : B -> Prop)
  (R : A -> B -> Prop) (l1 : list A) (l2 : list B) :
  (forall a b, P a -> Q b -> R a b) ->
  length l1 = length l2 -> Forall P l1 -> Forall Q l2 -> Forall2 R l1 l2.
Proof.
  intros HR. revert l2. induction l1 as [|a l1 IH]; intros [|b l2] Hlen H1 H2;
    try discriminate; constructor.
  - inversion H1; inversion H2; auto.
  - inversion H1; inversion H2; apply IH; auto.
Qed.

Lemma set_nonzero1_same (w : nat) (idx : mask1) (image : tensor1) :
  rect1 w idx -> rect1 w image ->
  set_nonzero1 idx image = Ok (select1 idx image).
Proof.
  intros Hi Ht. apply set_nonzero_ok with (R := fun _ _ => True).
  - reflexivity.
  - apply Forall2_same_length with (P := fun _ => True) (Q := fun _ => True);
      auto using Forall_forall.
    + unfold rect1 in *. congruence.
    + now apply Forall_forall.
    + now apply Forall_forall.
Qed.

Lemma set_nonzero2_same (h w : nat) (idx : mask2) (image : tensor2) :
  rect2 h w idx -> rect2 h w image ->
  set_nonzero2 idx image = Ok (select2 idx image).
Proof.
  intros [Hi Hi'] [Ht Ht'].
  apply set_nonzero_ok with (R := fun i t => rect1 w i /\ rect1 w t).
  - intros i t [H1 H2]. now apply set_nonzero1_same with (w := w).
  - apply Forall2_same_length with (P := rect1 w) (Q := rect1 w); auto.
    congruence.
Qed.

Lemma set_nonzero3_same (c h w : nat) (idx : mask3) (image : tensor3) :
  rect3 c h w idx -> rect3 c h w image ->
  set_nonzero3 idx image = Ok (select3 idx image).
Proof.
  intros [Hi Hi'] [Ht Ht'].
  apply set_nonzero_ok with (R := fun i t => rect2 h w i /\ rect2 h w t).
  - intros i t [H1 H2]. now apply set_nonzero2_same with (h := h) (w := w).
  - apply Forall2_same_length with (P := rect2 h w) (Q := rect2 h w); auto.
    congruence.
Qed.

Lemma set_nonzero4_same (n c h w : nat) (idx : mask4) (image : tensor4) :
  rect4 n c h w idx -> rect4 n c h w image ->
  set_nonzero4 idx image = Ok (select4 idx image).
Proof.
  intros [Hi Hi'] [Ht Ht'].
  apply set_nonzero_ok with (R := fun i t => rect3 c h w i /\ rect3 c h w t).
  - intros i t [H1 H2].
    now apply set_nonzero3_same with (c := c) (h := h) (w := w).
  - apply Forall2_same_length with (P := rect3 c h w) (Q := rect3 c h w);
      auto.
    congruence.
Qed.

Lemma map4_rect {A B : Type} (f : A -> B) (n c h w : nat)
  (t : list (list (list (list A)))) :
  rect4 n c h w t -> rect4 n c h w (map (map (map (map f))) t).
Proof.
  intros [Hn H]. split; [now rewrite length_map|].
  apply Forall_map. eapply Forall_impl; [|exact H].
  intros t3 [Hc H3]. split; [now rewrite length_map|].
  apply Forall_map. eapply Forall_impl; [|exact H3].
  intros t2 [Hh H2]. split; [now rewrite length_map|].
  apply Forall_map. eapply Forall_impl; [|exact H2].
  intros t1 Hw. unfold rect1 in *. now rewrite length_map.
Qed.

Lemma nth_error_select {I T : Type} (inner : I -> T -> T) (zl : T -> T)
  (idx : list I) (image : list T) (k : nat) :
  nth_error (select inner zl idx image) k =
  match nth_error image k with
  | None => None
  | Some t =>
      Some (match nth_error idx k with
            | Some i => inner i t
            | None => zl t
            end)
  end.
Proof.
  revert image k. induction idx as [|i idx IH]; intros image k.
  - cbn [select]. rewrite nth_error_map.
    destruct (nth_error image k); destruct k; reflexivity.
  - destruct image as [|t image]; [now destruct k|].
    destruct k as [|k]; [reflexivity|]. cbn. apply IH.
Qed.

Lemma length_select {I T : Type} (inner : I -> T -> T) (zl : T -> T)
  (idx : list I) (image : list T) :
  length (select inner zl idx image) = length image.
Proof.
  revert image. induction idx as [|i idx IH]; intros image.
  - apply length_map.
  - destruct image as [|t image]; [reflexivity|]. cbn. now rewrite IH.
Qed.

Lemma Forall_select {I T : Type} (inner : I -> T -> T) (zl : T -> T)
  (P : T -> Prop) (idx : list I) (image : list T) :
  (forall i t, P t -> P (inner i t)) -> (forall t, P t -> P (zl t)) ->
  Forall P image -> Forall P (select inner zl idx image).
Proof.
  intros Hin Hzl. revert image.
  induction idx as [|i idx IH]; intros image H.
  - cbn. apply Forall_map. eapply Forall_impl; [|exact H]. auto.
  - destruct image as [|t image]; [constructor|].
    inversion H; subst. cbn. constructor; auto.
Qed.

Lemma select1_rect (w : nat) (idx : mask1) (t : tensor1) :
  rect1 w t -> rect1 w (select1 idx t).
Proof. unfold rect1, select1. now rewrite length_select. Qed.

Lemma zeros_like1_rect (w : nat) (t : tensor1) :
  rect1 w t -> rect1 w (zeros_like1 t).
Proof. unfold rect1, zeros_like1. now rewrite length_map. Qed.

Lemma select2_rect (h w : nat) (idx : mask2) (t : tensor2) :
  rect2 h w t -> rect2 h w (select2 idx t).
Proof.
  intros [Hh H]. split; [unfold select2; now rewrite length_select|].
  apply Forall_select; auto using select1_rect, zeros_like1_rect.
Qed.

Lemma zeros_like2_rect (h w : nat) (t : tensor2) :
  rect2 h w t -> rect2 h w (zeros_like2 t).
Proof.
  intros [Hh H]. split; [unfold zeros_like2; now rewrite length_map|].
  apply Forall_map. eapply Forall_impl; [|exact H].
  apply zeros_like1_rect.
Qed.

Lemma select3_rect (c h w : nat) (idx : mask3) (t : tensor3) :
  rect3 c h w t -> rect3 c h w (select3 idx t).
Proof.
  intros [Hc H]. split; [unfold select3; now rewrite length_select|].
  apply Forall_select; auto using select2_rect, zeros_like2_rect.
Qed.

Lemma zeros_like3_rect (c h w : nat) (t : tensor3) :
  rect3 c h w t -> rect3 c h w (zeros_like3 t).
Proof.
  intros [Hc H]. split; [unfold zeros_like3; now rewrite length_map|].
  apply Forall_map. eapply Forall_impl; [|exact H].
  apply zeros_like2_rect.
Qed.

Lemma select4_rect (n c h w : nat) (idx : mask4) (t : tensor4) :
  rect4 n c h w t -> rect4 n c h w (select4 idx t).
Proof.
  intros [Hn H]. split; [unfold select4; now rewrite length_select|].
  apply Forall_select; auto using select3_rect, zeros_like3_rect.
Qed.

Lemma lookup4_select4 (idx : mask4) (image : tensor4) (b c y x : nat) :
  lookup4 (select4 idx image) b c y x =
  option_map (fun v => if holds4 idx b c y x then v else 0)
    (lookup4 image b c y x).
Proof.
  unfold holds4, lookup4, select4, select3, select2, select1.
  unfold zeros_like3, zeros_like2, zeros_like1.
  rewrite nth_error_select.
  destruct (nth_error image b) as [t3|]; [|reflexivity].
  destruct (nth_error idx b) as [i3|].
  - rewrite nth_error_select.
    destruct (nth_error t3 c) as [t2|]; [|reflexivity].
    destruct (nth_error i3 c) as [i2|].
    + rewrite nth_error_select.
      destruct (nth_error t2 y) as [t1|]; [|reflexivity].
      destruct (nth_error i2 y) as [i1|].
      * rewrite nth_error_select.
        destruct (nth_error t1 x) as [v|]; [|reflexivity].
        destruct (nth_error i1 x) as [[|]|]; reflexivity.
      * rewrite nth_error_map. now destruct (nth_error t1 x).
    + rewrite nth_error_map.
      destruct (nth_error t2 y) as [t1|]; [|reflexivity]. cbn.
      rewrite nth_error_map. now destruct (nth_error t1 x).
  - rewrite nth_error_map.
    destruct (nth_error t3 c) as [t2|]; [|reflexivity]. cbn.
    rewrite nth_error_map.
    destruct (nth_error t2 y) as [t1|]; [|reflexivity]. cbn.
    rewrite nth_error_map. now destruct (nth_error t1 x).
Qed.

Lemma lookup4_map {A B : Type} (f : A -> B)
  (t : list (list (list (list A)))) (b c y x : nat) :
  lookup4 (map (map (map (map f))) t) b c y x =
  option_map f (lookup4 t b c y x).
Proof.
  unfold lookup4. rewrite nth_error_map.
  destruct (nth_error t b) as [t3|]; [|reflexivity]. cbn.
  rewrite nth_error_map.
  destruct (nth_error t3 c) as [t2|]; [|reflexivity]. cbn.
  rewrite nth_error_map.
  destruct (nth_error t2 y) as [t1|]; [|reflexivity]. cbn.
  apply nth_error_map.
Qed.

Lemma lookup4_rect {A : Type} (n c h w : nat)
  (t : list (list (list (list A)))) (b ch y x : nat) :
  rect4 n c h w t ->
  (b < n)%nat -> (ch < c)%nat -> (y < h)%nat -> (x < w)%nat ->
  exists v, lookup4 t b ch y x = Some v.
Proof.
  intros [Hn H] Hb Hch Hy Hx. unfold lookup4.
  destruct (nth_error t b) as [t3|] eqn:E3;
    [|apply nth_error_None in E3; lia].
  rewrite Forall_forall in H.
  destruct (H t3 (nth_error_In _ _ E3)) as [Hc H3].
  destruct (nth_error t3 ch) as [t2|] eqn:E2;
    [|apply nth_error_None in E2; lia].
  rewrite Forall_forall in H3.
  destruct (H3 t2 (nth_error_In _ _ E2)) as [Hh H2].
  destruct (nth_error t2 y) as [t1|] eqn:E1;
    [|apply nth_error_None in E1; lia].
  rewrite Forall_forall in H2.
  pose proof (H2 t1 (nth_error_In _ _ E1)) as Hw. unfold rect1 in Hw.
  destruct (nth_error t1 x) as [v|] eqn:E0;
    [eauto | apply nth_error_None in E0; lia].
Qed.

Lemma lookup4_get4 (t : tensor4) (b c y x : nat) (v : Q) :
  lookup4 t b c y x = Some v -> get4 t b c y x = v.
Proof.
  unfold lookup4, get4, get3, get2, get1. intros H.
  destruct (nth_error t b) as [t3|] eqn:E3; [|discriminate].
  rewrite (nth_error_nth _ _ _ E3).
  destruct (nth_error t3 c) as [t2|] eqn:E2; [|discriminate].
  rewrite (nth_error_nth _ _ _ E2).
  destruct (nth_error t2 y) as [t1|] eqn:E1; [|discriminate].
  rewrite (nth_error_nth _ _ _ E1).
  now apply nth_error_nth.
Qed.

(** ** Extensionality of rectangular tensors *)

Lemma rect1_ext (w : nat) (t t' : tensor1) :
  rect1 w t -> rect1 w t' ->
  (forall x, (x < w)%nat -> get1 t x = get1 t' x) -> t = t'.
Proof.
  unfold rect1, get1. intros H H' E.
  apply nth_ext with (d := 0) (d' := 0); [congruence|].
  intros x Hx. apply E. lia.
Qed.

Lemma rect2_ext (h w : nat) (t t' : tensor2) :
  rect2 h w t -> rect2 h w t' ->
  (forall y x, (y < h)%nat -> (x < w)%nat -> get2 t y x = get2 t' y x) ->
  t = t'.
Proof.
  intros [H Hr] [H' Hr'] E. rewrite Forall_forall in Hr, Hr'.
  apply nth_ext with (d := []) (d' := []); [congruence|].
  intros y Hy. apply rect1_ext with (w := w).
  - apply Hr, nth_In. lia.
  - apply Hr', nth_In. lia.
  - intros x Hx. apply (E y x); lia.
Qed.

Lemma rect3_ext (c h w : nat) (t t' : tensor3) :
  rect3 c h w t -> rect3 c h w t' ->
  (forall ch y x, (ch < c)%nat -> (y < h)%nat -> (x < w)%nat ->
                  get3 t ch y x = get3 t' ch y x) ->
  t = t'.
Proof.
  intros [H Hr] [H' Hr'] E. rewrite Forall_forall in Hr, Hr'.
  apply nth_ext with (d := []) (d' := []); [congruence|].
  intros ch Hch. apply rect2_ext with (h := h) (w := w).
  - apply Hr, nth_In. lia.
  - apply Hr', nth_In. lia.
  - intros y x Hy Hx. apply (E ch y x); lia.
Qed.

Lemma rect4_ext (n c h w : nat) (t t' : tensor4) :
  rect4 n c h w t -> rect4 n c h w t' ->
  (forall b ch y x, (b < n)%nat -> (ch < c)%nat -> (y < h)%nat ->
                    (x < w)%nat -> get4 t b ch y x = get4 t' b ch y x) ->
  t = t'.
Proof.
  intros [H Hr] [H' Hr'] E. rewrite Forall_forall in Hr, Hr'.
  apply nth_ext with (d := []) (d' := []); [congruence|].
  intros b Hb. apply rect3_ext with (c := c) (h := h) (w := w).
  - apply Hr, nth_In. lia.
  - apply Hr', nth_In. lia.
  - intros ch y x Hch Hy Hx. apply (E b ch y x); lia.
Qed.

Lemma rect4_nth (n c h w : nat) (t : tensor4) (b : nat) :
  rect4 n c h w t -> (b < n)%nat -> rect3 c h w (nth b t []).
Proof.
  intros [H Hr] Hb. rewrite Forall_forall in Hr. apply Hr, nth_In. lia.
Qed.

Lemma get4_over_pixels (n s : nat) (f : nat -> nat -> nat -> Q)
  (b y x : nat) :
  (b < n)%nat -> (y < s)%nat -> (x < s)%nat ->
  get4 (over_pixels n s f) b 0 y x = f b y x.
Proof.
  intros Hb Hy Hx. unfold get4, get3, get2, get1, over_pixels.
  rewrite nth_map_seq by assumption. cbn [nth].
  rewrite nth_map_seq by assumption. now rewrite nth_map_seq.
Qed.

Lemma get4_select4_T_eq (n c h w : nat) (mask_idx image : tensor4) (v : Q)
  (b ch y x : nat) :
  rect4 n c h w mask_idx -> rect4 n c h w image ->
  (b < n)%nat -> (ch < c)%nat -> (y < h)%nat -> (x < w)%nat ->
  get4 (select4 (T_eq mask_idx v) image) b ch y x =
  if Qeq_bool (get4 mask_idx b ch y x) v then get4 image b ch y x else 0.
Proof.
  intros Hm Hi Hb Hch Hy Hx.
  destruct (lookup4_rect n c h w mask_idx b ch y x Hm Hb Hch Hy Hx) as [l Hl].
  destruct (lookup4_rect n c h w image b ch y x Hi Hb Hch Hy Hx) as [q Hq].
  rewrite (lookup4_get4 _ _ _ _ _ _ Hl), (lookup4_get4 _ _ _ _ _ _ Hq).
  apply lookup4_get4. rewrite lookup4_select4, Hq.
  unfold holds4, T_eq. rewrite lookup4_map, Hl. cbn.
  now destruct (Qeq_bool l v).
Qed.

(** ** The loop of the reference implementation *)

Lemma replace_nth_length {A : Type} (i : nat) (x : A) (l : list A) :
  length (replace_nth i x l) = length l.
Proof.
  revert i. induction l as [|a l IH]; intros [|i]; cbn; auto.
Qed.

Lemma replace_nth_firstn {A : Type} (i : nat) (x : A) (l : list A) :
  (i < length l)%nat ->
  firstn (S i) (replace_nth i x l) = firstn i l ++ [x].
Proof.
  revert i. induction l as [|a l IH]; intros [|i] H; cbn in *; try lia.
  - reflexivity.
  - f_equal. apply IH. lia.
Qed.

Lemma replace_nth_Forall {A : Type} (P : A -> Prop) (i : nat) (x : A)
  (l : list A) :
  P x -> Forall P l -> Forall P (replace_nth i x l).
Proof.
  intros Hx. revert i. induction l as [|a l IH]; intros [|i] H; cbn; auto;
    inversion H; subst; constructor; auto.
Qed.

Section ReferenceLoop.

Variable MASK : list (string * Q).
Variables mask_idx image : tensor4.

Lemma split_loop_inv (items : list (string * Q)) :
  forall i count acc count' acc',
    split_loop mask_idx image items i count acc = Ok (count', acc') ->
    acc' = acc ++ ref_splitted items mask_idx image.
Proof.
  induction items as [|[name v] items IH]; intros i count acc count' acc' H.
  - cbn in H. inversion H. now rewrite app_nil_r.
  - cbn in H.
    destruct (set_subtensor_row count i _) as [c1|]; cbn in H; [|discriminate].
    destruct (set_nonzero4 _ image) as [tmp|] eqn:Htmp; cbn in H;
      [|discriminate].
    apply set_nonzero4_inv in Htmp. subst tmp.
    apply IH in H. rewrite H, <- app_assoc. reflexivity.
Qed.

Lemma split_loop_same (n c h w : nat) (items : list (string * Q)) :
  rect4 n c h w mask_idx -> rect4 n c h w image ->
  forall i count acc,
    length count = (i + length items)%nat ->
    Forall (rect1 n) count ->
    split_loop mask_idx image items i count acc =
    Ok (firstn i count ++ ref_count items mask_idx,
        acc ++ ref_splitted items mask_idx image).
Proof.
  intros Hm Hi.
  induction items as [|[name v] items IH]; intros i count acc Hlen Hrows.
  - cbn in *. rewrite !app_nil_r, firstn_all2 by lia. reflexivity.
  - cbn [split_loop].
    assert (Hi' : (i < length count)%nat) by (cbn in Hlen; lia).
    destruct (nth_error count i) as [row|] eqn:Hrow;
      [|apply nth_error_None in Hrow; lia].
    assert (Hrowlen : length row = n).
    { rewrite Forall_forall in Hrows. apply Hrows.
      eapply nth_error_In; eauto. }
    assert (Hv : length (idx_sum_axes123 (T_eq mask_idx v)) = n).
    { unfold idx_sum_axes123, T_eq. rewrite !length_map. apply Hm. }
    unfold set_subtensor_row. rewrite Hrow, Hv, Hrowlen, Nat.eqb_refl.
    cbn [bind].
    rewrite (set_nonzero4_same n c h w (T_eq mask_idx v) image
               (map4_rect _ n c h w mask_idx Hm) Hi).
    cbn [bind]. rewrite IH.
    + rewrite replace_nth_firstn by assumption.
      cbn [ref_count ref_splitted map snd].
      rewrite <- !app_assoc. reflexivity.
    + rewrite replace_nth_length. cbn in Hlen. lia.
    + apply replace_nth_Forall; auto.
Qed.

End ReferenceLoop.

Lemma theano_split_mask_inv (MASK : list (string * Q))
  (mask_idx image : tensor4) (sum pow count : tensor5) :
  theano_split_mask MASK mask_idx image = Ok (sum, pow, count) ->
  sum = ref_splitted MASK mask_idx image /\ pow = square5 sum.
Proof.
  unfold theano_split_mask. intros H.
  destruct (split_loop _ _ _ _ _ _) as [[cnt lst]|] eqn:Hloop; cbn in H;
    [|discriminate].
  apply split_loop_inv in Hloop. cbn in Hloop. subst lst.
  destruct (ref_splitted MASK mask_idx image); cbn in H; [discriminate|].
  inversion H; subst. auto.
Qed.

Lemma theano_split_mask_same (MASK : list (string * Q)) (n c h w : nat)
  (mask_idx image : tensor4) :
  MASK <> [] ->
  rect4 n c h w mask_idx -> rect4 n c h w image ->
  theano_split_mask MASK mask_idx image =
  Ok (ref_splitted MASK mask_idx image,
      square5 (ref_splitted MASK mask_idx image),
      reshape_count (ref_count MASK mask_idx)).
Proof.
  intros Hne Hm Hi. unfold theano_split_mask.
  rewrite (split_loop_same mask_idx image n c h w MASK Hm Hi).
  - cbn [bind firstn app].
    destruct MASK as [|item rest]; [contradiction|]. reflexivity.
  - unfold zeros2, len_MASK. now rewrite repeat_length.
  - unfold zeros2. apply Forall_forall. intros r ->%repeat_spec.
    unfold rect1, zeros1. rewrite repeat_length. apply Hi.
Qed.

(** ** The reference implementation: masked volumes *)

Lemma holds4_T_eq (mask_idx : tensor4) (v : Q) (b c y x : nat) :
  holds4 (T_eq mask_idx v) b c y x = belongs mask_idx v b c y x.
Proof.
  unfold holds4, belongs, T_eq. rewrite lookup4_map.
  destruct (lookup4 mask_idx b c y x) as [l|]; [|reflexivity].
  cbn. now destruct (Qeq_bool l v).
Qed.

(** C10. Whenever the reference implementation returns, its second
    volume is the elementwise square of the first, and in both volumes
    every position that does not belong to the class holds exactly zero;
    on a label map and an image of one and the same shape it does
    return. *)
Theorem theano_split_mask_masked (MASK : list (string * Q))
  (mask_idx image : tensor4) :
  (forall sum pow count,
      theano_split_mask MASK mask_idx image = Ok (sum, pow, count) ->
      pow = square5 sum /\
      forall ci name v s_c p_c,
        nth_error MASK ci = Some (name, v) ->
        nth_error sum ci = Some s_c -> nth_error pow ci = Some p_c ->
        forall b c y x,
          belongs mask_idx v b c y x = false ->
          (forall q, lookup4 s_c b c y x = Some q -> q = 0) /\
          (forall q, lookup4 p_c b c y x = Some q -> q = 0))
  /\ (forall n c h w,
         MASK <> [] -> rect4 n c h w mask_idx -> rect4 n c h w image ->
         exists sum pow count,
           theano_split_mask MASK mask_idx image = Ok (sum, pow, count)).
Proof.
  split.
  - intros sum pow count H.
    apply theano_split_mask_inv in H as [Hs Hp]. split; [exact Hp|].
    intros ci name v s_c p_c Hci Hsc Hpc b c y x Hb.
    assert (Es : s_c = select4 (T_eq mask_idx v) image).
    { rewrite Hs in Hsc. unfold ref_splitted in Hsc.
      rewrite nth_error_map, Hci in Hsc. cbn in Hsc. now inversion Hsc. }
    assert (Ep : p_c = map (map (map (map sqr))) s_c).
    { rewrite Hp in Hpc. unfold square5 in Hpc.
      rewrite nth_error_map, Hsc in Hpc. cbn in Hpc. now inversion Hpc. }
    assert (Hzero : forall q, lookup4 s_c b c y x = Some q -> q = 0).
    { intros q Hq. rewrite Es, lookup4_select4, holds4_T_eq, Hb in Hq.
      destruct (lookup4 image b c y x); cbn in Hq; now inversion Hq. }
    split; [exact Hzero|].
    intros q Hq. rewrite Ep, lookup4_map in Hq.
    destruct (lookup4 s_c b c y x) as [q0|] eqn:Hq0; cbn in Hq;
      [|discriminate].
    rewrite (Hzero q0 eq_refl) in Hq. now inversion Hq.
  - intros n c h w Hne Hm Hi. eexists; eexists; eexists.
    now apply theano_split_mask_same with (n := n) (c := c) (h := h) (w := w).
Qed.

Lemma rect4_labels_4x4 : rect4 1 1 4 4 labels_4x4.
Proof. repeat (split || constructor). Qed.

Lemma rect4_image_4x4 : rect4 1 1 4 4 image_4x4.
Proof. repeat (split || constructor). Qed.

Lemma MASK_AB_nonempty : MASK_AB <> [].
Proof. discriminate. Qed.

Lemma theano_split_mask_masked_witness :
  (exists sum pow count,
      theano_split_mask MASK_AB labels_4x4 image_4x4 = Ok (sum, pow, count))
  /\ (forall q,
         lookup4 (select4 (T_eq labels_4x4 0) image_4x4) 0 0 3 3 = Some q ->
         q = 0).
Proof.
  destruct (theano_split_mask_masked MASK_AB labels_4x4 image_4x4)
    as [H1 H2].
  split.
  - exact (H2 1%nat 1%nat 4%nat 4%nat MASK_AB_nonempty
             rect4_labels_4x4 rect4_image_4x4).
  - exact (proj1 (proj2 (H1 _ _ _ eq_refl) 0%nat "A"%string 0
                    (select4 (T_eq labels_4x4 0) image_4x4)
                    (map (map (map (map sqr)))
                       (select4 (T_eq labels_4x4 0) image_4x4))
                    eq_refl eq_refl eq_refl 0%nat 0%nat 3%nat 3%nat eq_refl)).
Defined.

(** ** The concrete scenario *)

(** C9. On the 4x4 label map whose top-left 2x2 block is class "A"
    (value 0) and the rest class "B" (value 1), with the image 1.0 on "A"
    and 3.0 on "B", the reference reduction followed by
    [split_to_mean_var] gives counts 4 and 12, sums 4 and 36, sums of
    squares 4 and 108, means 1 and 3 and variances 0 and 0. *)
Theorem scenario_4x4 :
  exists sum pow count mean var count_sum,
    theano_split_mask MASK_AB labels_4x4 image_4x4 = Ok (sum, pow, count) /\
    split_to_mean_var sum pow count = Ok (mean, var, count_sum) /\
    eq2 count_sum [[4]; [12]] /\
    eq2 (sum_axes234 sum) [[4]; [36]] /\
    eq2 (sum_axes234 pow) [[4]; [108]] /\
    eq2 mean [[1]; [3]] /\
    eq2 var [[0]; [0]].
Proof.
  do 6 eexists.
  split; [vm_compute; reflexivity|].
  split; [vm_compute; reflexivity|].
  unfold eq2. repeat split; repeat constructor.
Qed.

(** ** Counting pixels *)

Lemma sumseq_const (n : nat) (a : Q) :
  sumseq n (fun _ => a) == inject_Z (Z.of_nat n) * a.
Proof.
  induction n as [|n IH].
  - unfold sumseq, sum1; cbn. ring.
  - rewrite sumseq_S, IH, Nat2Z.inj_succ. unfold Z.succ.
    rewrite inject_Z_plus. ring.
Qed.

Lemma sum1_map_index {A : Type} (G : A -> Q) (l : list A) (d : A) :
  sum1 (map G l) = sumseq (length l) (fun i => G (nth i l d)).
Proof.
  unfold sumseq. rewrite <- (map_nth_seq l d) at 1. now rewrite map_map.
Qed.

Lemma inject_list_sum (l : list nat) :
  inject_Z (Z.of_nat (list_sum l)) ==
  sum1 (map (fun k => inject_Z (Z.of_nat k)) l).
Proof.
  induction l as [|k l IH]; [reflexivity|].
  change (list_sum (k :: l)) with (k + list_sum l)%nat.
  rewrite Nat2Z.inj_add, inject_Z_plus, IH.
  unfold sum1. cbn [map fold_right]. reflexivity.
Qed.

Lemma count1_indicator (i : list bool) :
  inject_Z (Z.of_nat (count1 i)) == sum1 (map indicator i).
Proof.
  unfold count1, sum1. induction i as [|p i IH]; [reflexivity|].
  cbn [filter map fold_right]. rewrite <- IH. destruct p; cbn [length indicator].
  - rewrite Nat2Z.inj_succ. unfold Z.succ. rewrite inject_Z_plus. ring.
  - ring.
Qed.

Lemma sum1_ext_map {A : Type} (F G : A -> Q) (l : list A) :
  (forall a, In a l -> F a == G a) -> sum1 (map F l) == sum1 (map G l).
Proof.
  unfold sum1. induction l as [|a l IH]; intros H; [reflexivity|].
  cbn [map fold_right].
  assert (E1 : F a == G a) by (apply H; now left).
  assert (E2 : fold_right Qplus 0 (map F l) == fold_right Qplus 0 (map G l))
    by (apply IH; intros; apply H; now right).
  rewrite E1, E2. reflexivity.
Qed.

Lemma count3_index (c h w : nat) (p : Q -> bool) (t : tensor3) :
  rect3 c h w t ->
  inject_Z (Z.of_nat (count3 (map (map (map p)) t))) ==
  sumseq c (fun ch => sumseq h (fun y => sumseq w (fun x =>
    indicator (p (get3 t ch y x))))).
Proof.
  intros [Hc Hr]. rewrite Forall_forall in Hr.
  unfold count3. rewrite inject_list_sum, !map_map.
  rewrite (sum1_map_index _ t []), Hc.
  apply sumseq_ext. intros ch Hch.
  destruct (Hr (nth ch t [])) as [Hh Hr2]; [apply nth_In; lia|].
  rewrite Forall_forall in Hr2.
  unfold count2. rewrite inject_list_sum, !map_map.
  rewrite (sum1_map_index _ (nth ch t []) []), Hh.
  apply sumseq_ext. intros y Hy.
  pose proof (Hr2 (nth y (nth ch t []) [])) as Hw. unfold rect1 in Hw.
  rewrite count1_indicator, map_map.
  rewrite (sum1_map_index _ (nth y (nth ch t []) []) 0), Hw
    by (apply nth_In; lia).
  reflexivity.
Qed.

Section Counting.

Variable MASK : list (string * Q).

(** The enumeration value of class [ci], for [ci] below [len(MASK)]. *)
Let value_of (ci : nat) : Q := snd (nth ci MASK (EmptyString, 0)).

Lemma enum_val_value_of (ci : nat) :
  (ci < len_MASK MASK)%nat -> enum_val MASK ci = Some (value_of ci).
Proof.
  intros H. unfold enum_val, value_of.
  now rewrite (nth_error_nth' MASK (EmptyString, 0) H).
Qed.

Lemma nth_ref_splitted (mask_idx image : tensor4) (ci : nat) :
  (ci < len_MASK MASK)%nat ->
  nth ci (ref_splitted MASK mask_idx image) [] =
  select4 (T_eq mask_idx (value_of ci)) image.
Proof.
  intros H. unfold ref_splitted, value_of. apply nth_error_nth.
  now rewrite nth_error_map, (nth_error_nth' MASK (EmptyString, 0) H).
Qed.

Lemma get2_ref_count (n c h w : nat) (mask_idx : tensor4) (ci b : nat) :
  rect4 n c h w mask_idx ->
  (ci < len_MASK MASK)%nat -> (b < n)%nat ->
  get2 (ref_count MASK mask_idx) ci b ==
  sumseq c (fun ch => sumseq h (fun y => sumseq w (fun x =>
    indicator (Qeq_bool (get4 mask_idx b ch y x) (value_of ci))))).
Proof.
  intros Hm Hci Hb. unfold get2, get1, ref_count.
  rewrite (nth_error_nth _ _ []
             (eq_trans (nth_error_map _ _ _)
                (f_equal (option_map _)
                   (nth_error_nth' MASK (EmptyString, 0) Hci)))).
  unfold idx_sum_axes123, T_eq. rewrite map_map.
  rewrite (nth_map_in _ _ []) by (destruct Hm; lia).
  apply count3_index. now apply rect4_nth with (n := n).
Qed.

Lemma get2_sum_axes_reshape_count (rc : tensor2) (ci b : nat) :
  (b < length (nth ci rc []))%nat ->
  get2 (sum_axes234 (reshape_count rc)) ci b == get2 rc ci b.
Proof.
  intros Hb. unfold get2, get1, sum_axes234, reshape_count.
  rewrite !map_map.
  destruct (Nat.lt_ge_cases ci (length rc)) as [Hci|Hci].
  - rewrite (nth_map_in _ _ []) by assumption. rewrite map_map.
    rewrite (nth_map_in _ _ 0) by assumption.
    unfold sum3, sum2, sum1. cbn [map fold_right]. ring.
  - rewrite (nth_overflow rc) in Hb by assumption. cbn in Hb. lia.
Qed.

Lemma class_indicator_sum (label : Q) :
  distinct_values MASK -> in_enumeration MASK label ->
  sumseq (len_MASK MASK)
    (fun ci => indicator (Qeq_bool label (value_of ci))) == 1.
Proof.
  intros Hd (c0 & v0 & Hc0 & Hl).
  assert (Hlt : (c0 < len_MASK MASK)%nat).
  { unfold enum_val in Hc0. apply nth_error_Some.
    destruct (nth_error MASK c0); [discriminate | discriminate]. }
  rewrite <- (sumseq_delta (len_MASK MASK) c0 1 Hlt).
  apply sumseq_ext. intros ci Hci.
  pose proof (enum_val_value_of ci Hci) as Hv.
  destruct (Nat.eqb_spec ci c0) as [->|Hne].
  - rewrite Hv in Hc0. injection Hc0 as E. rewrite <- E in Hl.
    rewrite (proj2 (Qeq_bool_iff _ _) Hl). reflexivity.
  - destruct (Qeq_bool label (value_of ci)) eqn:E; [|reflexivity].
    apply Qeq_bool_iff in E. exfalso. apply Hne.
    apply (Hd ci c0 (value_of ci) v0 Hv Hc0).
    now rewrite <- E, Hl.
Qed.

(** C3. For a label map and an image of one shape whose labels all
    belong to the enumeration (of pairwise distinct values), the counts of
    the reference implementation, summed over the classes, give the
    number of pixels of each image. *)
Theorem counts_sum_to_pixels (n c h w : nat) (mask_idx image : tensor4) :
  MASK <> [] -> distinct_values MASK ->
  rect4 n c h w mask_idx -> rect4 n c h w image ->
  (forall b ch y x,
      (b < n)%nat -> (ch < c)%nat -> (y < h)%nat -> (x < w)%nat ->
      in_enumeration MASK (get4 mask_idx b ch y x)) ->
  exists sum pow count,
    theano_split_mask MASK mask_idx image = Ok (sum, pow, count) /\
    forall b, (b < n)%nat ->
      sumseq (len_MASK MASK) (fun ci => get2 (sum_axes234 count) ci b)
      == inject_Z (Z.of_nat (c * h * w)).
Proof.
  intros Hne Hd Hm Hi Hin. do 3 eexists.
  split; [now apply theano_split_mask_same with (n := n) (c := c) (h := h) (w := w)|].
  intros b Hb.
  transitivity
    (sumseq (len_MASK MASK) (fun ci =>
       sumseq c (fun ch => sumseq h (fun y => sumseq w (fun x =>
         indicator (Qeq_bool (get4 mask_idx b ch y x) (value_of ci))))))).
  { apply sumseq_ext. intros ci Hci.
    rewrite get2_sum_axes_reshape_count.
    - now apply get2_ref_count with (n := n).
    - unfold ref_count.
      rewrite (nth_error_nth _ _ []
                 (eq_trans (nth_error_map _ _ _)
                    (f_equal (option_map _)
                       (nth_error_nth' MASK (EmptyString, 0) Hci)))).
      unfold idx_sum_axes123, T_eq. rewrite !length_map.
      destruct Hm; lia. }
  rewrite sumseq_swap.
  transitivity (sumseq c (fun _ => sumseq h (fun _ => sumseq w (fun _ => 1)))).
  { apply sumseq_ext. intros ch Hch. rewrite sumseq_swap.
    apply sumseq_ext. intros y Hy. rewrite sumseq_swap.
    apply sumseq_ext. intros x Hx.
    apply class_indicator_sum; auto. }
  rewrite !sumseq_const, !Nat2Z.inj_mul, !inject_Z_mult. ring.
Qed.

End Counting.

(** ** Elementwise operations *)

Lemma map2s_row_ok (f : Q -> Q -> Q) (ra rb : list Q) :
  length ra = length rb ->
  map2s (fun x y => Ok (f x y)) ra rb =
  Ok (map (fun xy => f (fst xy) (snd xy)) (combine ra rb)).
Proof.
  revert rb. induction ra as [|x ra IH]; intros [|y rb] H; try discriminate.
  - reflexivity.
  - cbn. rewrite IH by (cbn in H; lia). reflexivity.
Qed.

Lemma map2s_row_inv (f : Q -> Q -> Q) (ra rb r : list Q) :
  map2s (fun x y => Ok (f x y)) ra rb = Ok r -> length ra = length rb.
Proof.
  revert rb r. induction ra as [|x ra IH]; intros [|y rb] r H;
    try discriminate; [reflexivity|].
  cbn in H.
  destruct (map2s _ ra rb) as [r'|] eqn:E; [|discriminate].
  cbn. f_equal. eapply IH; eauto.
Qed.

Lemma elemwise2_ok (f : Q -> Q -> Q) (a b : tensor2) :
  same_shape2 a b -> elemwise2 f a b = Ok (zip2 f a b).
Proof.
  unfold elemwise2, zip2. induction 1 as [|ra rb a b Hr _ IH].
  - reflexivity.
  - cbn [map2s]. rewrite (map2s_row_ok f ra rb Hr). cbn [bind].
    rewrite IH. reflexivity.
Qed.

Lemma elemwise2_inv (f : Q -> Q -> Q) (a b r : tensor2) :
  elemwise2 f a b = Ok r -> same_shape2 a b /\ r = zip2 f a b.
Proof.
  unfold elemwise2. revert b r.
  induction a as [|ra a IH]; intros [|rb b] r H; try discriminate.
  - inversion H. split; [constructor | reflexivity].
  - cbn [map2s] in H.
    destruct (map2s _ ra rb) as [r0|] eqn:E0; [|discriminate].
    cbn [bind] in H.
    destruct (map2s _ a b) as [r1|] eqn:E1; [|discriminate].
    inversion H; subst r. destruct (IH b r1 E1) as [Hs ->].
    pose proof (map2s_row_inv f ra rb r0 E0) as Hlen.
    rewrite (map2s_row_ok f ra rb Hlen) in E0. inversion E0.
    split; [now constructor | reflexivity].
Qed.

Lemma same_shape2_length (a b : tensor2) :
  same_shape2 a b -> length a = length b.
Proof. induction 1; cbn; auto. Qed.

Lemma same_shape2_nth (a b : tensor2) (i : nat) :
  same_shape2 a b -> length (nth i a []) = length (nth i b []).
Proof.
  intros H. revert i. induction H as [|ra rb a b Hr _ IH]; intros [|i]; auto.
  apply IH.
Qed.

Lemma get2_zip2 (f : Q -> Q -> Q) (a b : tensor2) (i j : nat) :
  same_shape2 a b ->
  (i < length b)%nat -> (j < length (nth i b []))%nat ->
  get2 (zip2 f a b) i j = f (get2 a i j) (get2 b i j).
Proof.
  intros Hs Hi Hj. unfold get2, get1, zip2.
  pose proof (same_shape2_length a b Hs) as Hlen.
  pose proof (same_shape2_nth a b i Hs) as Hrow.
  rewrite (nth_map_in _ _ ([], [])) by (rewrite length_combine; lia).
  rewrite combine_nth by assumption. cbn [fst snd].
  rewrite (nth_map_in _ _ (0, 0)) by (rewrite length_combine; lia).
  rewrite combine_nth by assumption. reflexivity.
Qed.

Lemma zip2_same_shape (f : Q -> Q -> Q) (a b : tensor2) :
  same_shape2 a b -> same_shape2 (zip2 f a b) b.
Proof.
  unfold zip2. induction 1 as [|ra rb a b Hr _ IH]; cbn; constructor; auto.
  cbn. rewrite length_map, length_combine. lia.
Qed.

Lemma same_shape2_join (a b c : tensor2) :
  same_shape2 a c -> same_shape2 b c -> same_shape2 a b.
Proof.
  intros Ha. revert b. induction Ha as [|ra rc a c Hr _ IH]; intros b Hb.
  - inversion Hb. constructor.
  - inversion Hb; subst. constructor.
    + congruence.
    + now apply IH.
Qed.

Lemma split_to_mean_var_spec (sum pow count : tensor5) :
  same_shape2 (sum_axes234 sum) (sum_axes234 count) ->
  same_shape2 (sum_axes234 pow) (sum_axes234 count) ->
  let n := sum_axes234 count in
  let mean := zip2 (fun xs c => if Qeq_bool c 0 then 0 else xs / c)
                (sum_axes234 sum) n in
  let mean_pow := zip2 (fun xs c => if Qeq_bool c 0 then 0 else xs / c)
                    (sum_axes234 pow) n in
  split_to_mean_var sum pow count =
  Ok (mean, zip2 (fun p m => p - m * m) mean_pow mean, n).
Proof.
  intros Hs Hp n mean mean_pow. unfold split_to_mean_var, mean_by_count.
  rewrite (elemwise2_ok _ _ _ Hs). cbn [bind].
  rewrite (elemwise2_ok _ _ _ Hp). cbn [bind].
  rewrite elemwise2_ok; [reflexivity|].
  apply same_shape2_join with (c := n); now apply zip2_same_shape.
Qed.

(** ** Sums over the pixels of one image *)

Lemma sumseq3_ext (c h w : nat) (f g : nat -> nat -> nat -> Q) :
  (forall ch y x, (ch < c)%nat -> (y < h)%nat -> (x < w)%nat ->
                  f ch y x == g ch y x) ->
  sumseq3 c h w f == sumseq3 c h w g.
Proof.
  intros H. unfold sumseq3.
  apply sumseq_ext; intros ch Hch.
  apply sumseq_ext; intros y Hy.
  apply sumseq_ext; intros x Hx. now apply H.
Qed.


Lemma sumseq3_plus (c h w : nat) (f g : nat -> nat -> nat -> Q) :
  sumseq3 c h w (fun ch y x => f ch y x + g ch y x) ==
  sumseq3 c h w f + sumseq3 c h w g.
Proof.
  unfold sumseq3. rewrite <- sumseq_plus.
  apply sumseq_ext; intros ch _. rewrite <- sumseq_plus.
  apply sumseq_ext; intros y _. apply sumseq_plus.
Qed.

Lemma sumseq_nonneg (n : nat) (f : nat -> Q) :
  (forall i, (i < n)%nat -> 0 <= f i) -> 0 <= sumseq n f.
Proof.
  induction n as [|n IH]; intros H.
  - unfold sumseq, sum1; cbn. apply Qle_refl.
  - rewrite sumseq_S. apply Qle_trans with (0 + 0).
    + rewrite Qplus_0_l. apply Qle_refl.
    + apply Qplus_le_compat; auto.
Qed.

Lemma sumseq_ge_term (n k : nat) (f : nat -> Q) :
  (forall i, (i < n)%nat -> 0 <= f i) -> (k < n)%nat -> f k <= sumseq n f.
Proof.
  induction n as [|n IH]; intros H Hk; [lia|].
  rewrite sumseq_S. destruct (Nat.eq_dec k n) as [->|Hne].
  - apply Qle_trans with (0 + f n).
    + rewrite Qplus_0_l. apply Qle_refl.
    + apply Qplus_le_compat; [|apply Qle_refl].
      apply sumseq_nonneg. auto.
  - apply Qle_trans with (sumseq n f + 0).
    + rewrite Qplus_0_r. apply IH; [auto | lia].
    + apply Qplus_le_compat; [apply Qle_refl | auto].
Qed.

Lemma sumseq3_ge_term (c h w : nat) (f : nat -> nat -> nat -> Q)
  (ch y x : nat) :
  (forall ch y x, 0 <= f ch y x) ->
  (ch < c)%nat -> (y < h)%nat -> (x < w)%nat ->
  f ch y x <= sumseq3 c h w f.
Proof.
  intros H Hch Hy Hx. unfold sumseq3.
  apply Qle_trans with (sumseq w (fun x => f ch y x)).
  { apply (sumseq_ge_term w x (fun x => f ch y x)); auto. }
  apply Qle_trans with (sumseq h (fun y => sumseq w (fun x => f ch y x))).
  { apply (sumseq_ge_term h y (fun y => sumseq w (fun x => f ch y x))); auto.
    intros; apply sumseq_nonneg; auto. }
  apply (sumseq_ge_term c ch
           (fun ch => sumseq h (fun y => sumseq w (fun x => f ch y x)))); auto.
  intros; apply sumseq_nonneg; intros; apply sumseq_nonneg; auto.
Qed.

Lemma get2_sum_axes234 (n c h w : nat) (t : tensor5) (ci b : nat) :
  (ci < length t)%nat -> rect4 n c h w (nth ci t []) -> (b < n)%nat ->
  get2 (sum_axes234 t) ci b ==
  sumseq3 c h w (fun ch y x => get4 (nth ci t []) b ch y x).
Proof.
  intros Hci Hr Hb. unfold get2, get1, sum_axes234.
  rewrite (nth_map_in _ _ []) by assumption.
  rewrite (nth_map_in _ _ []) by (destruct Hr; lia).
  apply sum3_index. now apply rect4_nth with (n := n).
Qed.

Lemma get4_map4 (g : Q -> Q) (n c h w : nat) (t : tensor4) (b ch y x : nat) :
  rect4 n c h w t ->
  (b < n)%nat -> (ch < c)%nat -> (y < h)%nat -> (x < w)%nat ->
  get4 (map (map (map (map g))) t) b ch y x = g (get4 t b ch y x).
Proof.
  intros Hr Hb Hch Hy Hx.
  destruct (lookup4_rect n c h w t b ch y x Hr Hb Hch Hy Hx) as [v Hv].
  rewrite (lookup4_get4 _ _ _ _ _ _ Hv).
  apply lookup4_get4. now rewrite lookup4_map, Hv.
Qed.

Lemma same_shape2_map {A : Type} (F G : A -> list Q) (l : list A) :
  (forall a, In a l -> length (F a) = length (G a)) ->
  same_shape2 (map F l) (map G l).
Proof.
  induction l as [|a l IH]; intros H; cbn; constructor.
  - apply H. now left.
  - apply IH. intros; apply H. now right.
Qed.

(** ** The reduced outputs of the reference implementation *)

Section ReferenceStatistics.

Variable MASK : list (string * Q).
Variables n c h w : nat.
Variables mask_idx image : tensor4.
Hypothesis Hmask : rect4 n c h w mask_idx.
Hypothesis Himage : rect4 n c h w image.

Lemma length_ref_splitted :
  length (ref_splitted MASK mask_idx image) = len_MASK MASK.
Proof. apply length_map. Qed.

Lemma ref_sum_entry (ci b : nat) :
  (ci < len_MASK MASK)%nat -> (b < n)%nat ->
  get2 (sum_axes234 (ref_splitted MASK mask_idx image)) ci b ==
  sumseq3 c h w (fun ch y x =>
    if Qeq_bool (get4 mask_idx b ch y x) (class_value MASK ci)
    then get4 image b ch y x else 0).
Proof.
  intros Hci Hb.
  rewrite (get2_sum_axes234 n c h w); try assumption.
  - rewrite nth_ref_splitted by assumption.
    apply sumseq3_ext. intros ch y x Hch Hy Hx.
    now rewrite (get4_select4_T_eq n c h w).
  - now rewrite length_ref_splitted.
  - rewrite nth_ref_splitted by assumption. now apply select4_rect.
Qed.

Lemma ref_pow_entry (ci b : nat) :
  (ci < len_MASK MASK)%nat -> (b < n)%nat ->
  get2 (sum_axes234 (square5 (ref_splitted MASK mask_idx image))) ci b ==
  sumseq3 c h w (fun ch y x =>
    sqr (if Qeq_bool (get4 mask_idx b ch y x) (class_value MASK ci)
         then get4 image b ch y x else 0)).
Proof.
  intros Hci Hb.
  assert (Hnth : nth ci (square5 (ref_splitted MASK mask_idx image)) [] =
                 map (map (map (map sqr)))
                   (select4 (T_eq mask_idx (class_value MASK ci)) image)).
  { unfold square5. rewrite (nth_map_in _ _ [])
      by now rewrite length_ref_splitted.
    now rewrite nth_ref_splitted. }
  rewrite (get2_sum_axes234 n c h w); try assumption.
  - rewrite Hnth. apply sumseq3_ext. intros ch y x Hch Hy Hx.
    rewrite (get4_map4 sqr n c h w) by (auto using select4_rect).
    now rewrite (get4_select4_T_eq n c h w).
  - unfold square5. now rewrite length_map, length_ref_splitted.
  - rewrite Hnth. now apply map4_rect, select4_rect.
Qed.

Lemma length_nth_ref_count (ci : nat) :
  (ci < len_MASK MASK)%nat ->
  length (nth ci (ref_count MASK mask_idx) []) = n.
Proof.
  intros Hci. unfold ref_count.
  rewrite (nth_map_in _ _ (EmptyString, 0)) by assumption.
  unfold idx_sum_axes123, T_eq. rewrite !length_map. apply Hmask.
Qed.

Lemma ref_count_entry (ci b : nat) :
  (ci < len_MASK MASK)%nat -> (b < n)%nat ->
  get2 (sum_axes234 (reshape_count (ref_count MASK mask_idx))) ci b ==
  sumseq3 c h w (fun ch y x =>
    indicator (Qeq_bool (get4 mask_idx b ch y x) (class_value MASK ci))).
Proof.
  intros Hci Hb.
  rewrite get2_sum_axes_reshape_count
    by now rewrite length_nth_ref_count.
  now apply (get2_ref_count MASK n c h w).
Qed.

Lemma ref_shapes :
  same_shape2 (sum_axes234 (ref_splitted MASK mask_idx image))
    (sum_axes234 (reshape_count (ref_count MASK mask_idx))) /\
  same_shape2 (sum_axes234 (square5 (ref_splitted MASK mask_idx image)))
    (sum_axes234 (reshape_count (ref_count MASK mask_idx))).
Proof.
  unfold sum_axes234, reshape_count, square5, ref_splitted, ref_count.
  rewrite !map_map. split; apply same_shape2_map; intros item _;
    unfold select4, idx_sum_axes123, T_eq;
    rewrite !length_map, ?length_select, ?length_map;
    destruct Hmask, Himage; congruence.
Qed.

Lemma length_ref_count_reduced :
  length (sum_axes234 (reshape_count (ref_count MASK mask_idx))) =
  len_MASK MASK.
Proof.
  unfold sum_axes234, reshape_count, ref_count. now rewrite !length_map.
Qed.

Lemma length_nth_ref_count_reduced (ci : nat) :
  (ci < len_MASK MASK)%nat ->
  length (nth ci (sum_axes234 (reshape_count (ref_count MASK mask_idx))) [])
  = n.
Proof.
  intros Hci. unfold sum_axes234, reshape_count. rewrite map_map.
  rewrite (nth_map_in _ _ []) by (unfold ref_count; now rewrite length_map).
  rewrite !length_map. now apply length_nth_ref_count.
Qed.

End ReferenceStatistics.

(** ** Mean and variance *)








(** ** The classifier *)

Lemma classify_in_Some (items : list (string * Q)) (label : Q) (k : nat) :
  classify_in items label = Some k ->
  (k < length items)%nat /\
  Qeq_bool label (snd (nth k items (EmptyString, 0))) = true.
Proof.
  revert k. induction items as [|[name v] items IH]; intros k H;
    [discriminate|].
  cbn [classify_in] in H. destruct (Qeq_bool label v) eqn:E.
  - inversion H; subst. cbn. split; [lia | exact E].
  - destruct (classify_in items label) as [k'|]; [|discriminate].
    inversion H; subst. destruct (IH k' eq_refl) as [Hlt Hk].
    cbn. split; [lia | exact Hk].
Qed.

Lemma classify_in_None (items : list (string * Q)) (label : Q) (k : nat) :
  classify_in items label = None -> (k < length items)%nat ->
  Qeq_bool label (snd (nth k items (EmptyString, 0))) = false.
Proof.
  revert k. induction items as [|[name v] items IH]; intros k H Hk;
    [cbn in Hk; lia|].
  cbn [classify_in] in H. destruct (Qeq_bool label v) eqn:E; [discriminate|].
  destruct (classify_in items label) as [k'|] eqn:E'; [discriminate|].
  destruct k as [|k]; [exact E|]. cbn. apply IH; [reflexivity|].
  cbn in Hk. lia.
Qed.

Lemma is_class_spec (MASK : list (string * Q)) (ci : nat) (label : Q) :
  distinct_values MASK -> (ci < len_MASK MASK)%nat ->
  is_class MASK ci label = Qeq_bool label (class_value MASK ci).
Proof.
  intros Hd Hci. unfold is_class, classifier.
  destruct (classify_in MASK label) as [k|] eqn:E.
  - destruct (classify_in_Some MASK label k E) as [Hk Hq].
    destruct (Nat.eqb_spec k ci) as [->|Hne]; [now rewrite <- Hq|].
    destruct (Qeq_bool label (class_value MASK ci)) eqn:E'; [|reflexivity].
    exfalso. apply Hne.
    apply Qeq_bool_iff in Hq, E'.
    apply (Hd k ci (class_value MASK k) (class_value MASK ci)).
    + unfold enum_val, class_value.
      now rewrite (nth_error_nth' MASK (EmptyString, 0) Hk).
    + unfold enum_val, class_value.
      now rewrite (nth_error_nth' MASK (EmptyString, 0) Hci).
    + unfold class_value. now rewrite <- Hq, E'.
  - symmetry. now apply classify_in_None.
Qed.

(** ** The accelerated engine against the reference *)

Lemma app_firstn_skipn {A : Type} (a r : list A) :
  firstn (length a) (a ++ r) = a /\ skipn (length a) (a ++ r) = r.
Proof.
  split.
  - rewrite firstn_app, firstn_all, Nat.sub_diag, firstn_O. apply app_nil_r.
  - rewrite skipn_app, skipn_all, Nat.sub_diag. reflexivity.
Qed.

Lemma three_blocks {A : Type} (m : nat) (a b c : list A) :
  length a = m -> length b = m ->
  firstn m (a ++ b ++ c) = a /\
  firstn m (skipn m (a ++ b ++ c)) = b /\
  skipn (2 * m) (a ++ b ++ c) = c.
Proof.
  intros Ha Hb. subst m.
  destruct (app_firstn_skipn a (b ++ c)) as [E1 E2].
  destruct (app_firstn_skipn b c) as [E3 E4].
  replace (2 * length a)%nat with (length a + length a)%nat by lia.
  rewrite <- skipn_skipn, E1, E2. rewrite <- Hb, E3, E4. auto.
Qed.

Lemma map_as_seq {A B : Type} (F : A -> B) (l : list A) (d : A) :
  map F l = map (fun i => F (nth i l d)) (seq 0 (length l)).
Proof.
  rewrite <- (map_nth_seq l d) at 1. now rewrite map_map.
Qed.

Lemma Forall2_from_nth {A B : Type} (R : A -> B -> Prop)
  (l1 : list A) (l2 : list B) (d1 : A) (d2 : B) :
  length l1 = length l2 ->
  (forall i, (i < length l1)%nat -> R (nth i l1 d1) (nth i l2 d2)) ->
  Forall2 R l1 l2.
Proof.
  revert l2. induction l1 as [|a l1 IH]; intros [|b l2] Hlen H;
    try discriminate; constructor.
  - apply (H 0%nat). cbn. lia.
  - apply IH; [cbn in Hlen; lia|].
    intros i Hi. apply (H (S i)). cbn. lia.
Qed.

Lemma eq2_intro (a b : tensor2) :
  length a = length b ->
  (forall i, (i < length a)%nat ->
             length (nth i a []) = length (nth i b [])) ->
  (forall i j, (i < length a)%nat -> (j < length (nth i a []))%nat ->
               get2 a i j == get2 b i j) ->
  eq2 a b.
Proof.
  intros Hlen Hrows He. unfold eq2.
  apply Forall2_from_nth with (d1 := []) (d2 := []); [assumption|].
  intros i Hi.
  apply Forall2_from_nth with (d1 := 0) (d2 := 0); [auto|].
  intros j Hj. now apply He.
Qed.

Lemma eq2_refl (a : tensor2) : eq2 a a.
Proof.
  unfold eq2. induction a as [|r a IH]; constructor; [|exact IH].
  induction r; constructor; [reflexivity | assumption].
Qed.

Section Engines.

Variable MASK : list (string * Q).
Variables n s : nat.
Variables mask image : tensor4.
Hypothesis Hdistinct : distinct_values MASK.
Hypothesis Hmask : rect4 n 1 s s mask.
Hypothesis Himage : rect4 n 1 s s image.

Lemma split_volume_sum (ci : nat) :
  (ci < len_MASK MASK)%nat ->
  split_volume MASK mask image n s (fun v => v) ci =
  select4 (T_eq mask (class_value MASK ci)) image.
Proof.
  intros Hci. apply rect4_ext with (n := n) (c := 1%nat) (h := s) (w := s).
  - apply over_pixels_rect.
  - now apply select4_rect.
  - intros b ch y x Hb Hch Hy Hx.
    assert (ch = 0%nat) as -> by lia.
    unfold split_volume. rewrite get4_over_pixels by assumption.
    rewrite (get4_select4_T_eq n 1 s s) by (assumption || lia).
    now rewrite is_class_spec.
Qed.

Lemma split_volume_pow (ci : nat) :
  (ci < len_MASK MASK)%nat ->
  split_volume MASK mask image n s (fun v => v * v) ci =
  map (map (map (map sqr)))
    (select4 (T_eq mask (class_value MASK ci)) image).
Proof.
  intros Hci. apply rect4_ext with (n := n) (c := 1%nat) (h := s) (w := s).
  - apply over_pixels_rect.
  - now apply map4_rect, select4_rect.
  - intros b ch y x Hb Hch Hy Hx.
    assert (ch = 0%nat) as -> by lia.
    unfold split_volume. rewrite get4_over_pixels by assumption.
    rewrite (get4_map4 sqr n 1 s s) by (auto using select4_rect; lia).
    rewrite (get4_select4_T_eq n 1 s s) by (assumption || lia).
    rewrite is_class_spec by assumption.
    now destruct (Qeq_bool (get4 mask b 0 y x) (class_value MASK ci)).
Qed.

Lemma kernel_sum_block :
  map (split_volume MASK mask image n s (fun v => v)) (seq 0 (len_MASK MASK))
  = ref_splitted MASK mask image.
Proof.
  unfold ref_splitted. rewrite (map_as_seq _ MASK (EmptyString, 0)).
  apply map_ext_in. intros ci Hci. apply in_seq in Hci.
  apply split_volume_sum. unfold len_MASK. lia.
Qed.

Lemma kernel_pow_block :
  map (split_volume MASK mask image n s (fun v => v * v))
    (seq 0 (len_MASK MASK))
  = square5 (ref_splitted MASK mask image).
Proof.
  unfold square5, ref_splitted. rewrite map_map.
  rewrite (map_as_seq _ MASK (EmptyString, 0)).
  apply map_ext_in. intros ci Hci. apply in_seq in Hci.
  apply split_volume_pow. unfold len_MASK. lia.
Qed.

Lemma kernel_count_block :
  eq2 (sum_axes234 (reshape_count (ref_count MASK mask)))
    (sum_axes234
       (map (split_volume MASK mask image n s (fun _ => 1))
          (seq 0 (len_MASK MASK)))).
Proof.
  set (K := map (split_volume MASK mask image n s (fun _ => 1))
              (seq 0 (len_MASK MASK))).
  assert (HK : length K = len_MASK MASK)
    by (unfold K; now rewrite length_map, length_seq).
  assert (HKnth : forall ci, (ci < len_MASK MASK)%nat ->
            nth ci K [] = split_volume MASK mask image n s (fun _ => 1) ci).
  { intros ci Hci. unfold K. now rewrite nth_map_seq. }
  apply eq2_intro.
  - rewrite length_ref_count_reduced. unfold sum_axes234.
    now rewrite length_map.
  - intros ci Hci. rewrite length_ref_count_reduced in Hci.
    rewrite (length_nth_ref_count_reduced MASK n 1 s s) by assumption.
    unfold sum_axes234. rewrite (nth_map_in _ _ []) by lia.
    rewrite length_map, HKnth by assumption.
    unfold split_volume, over_pixels. now rewrite length_map, length_seq.
  - intros ci b Hci Hb. rewrite length_ref_count_reduced in Hci.
    rewrite (length_nth_ref_count_reduced MASK n 1 s s) in Hb by assumption.
    rewrite (ref_count_entry MASK n 1 s s) by assumption.
    rewrite (get2_sum_axes234 n 1 s s); try assumption; try lia.
    + apply sumseq3_ext. intros ch y x Hch Hy Hx.
      assert (ch = 0%nat) as -> by lia.
      rewrite HKnth by assumption. unfold split_volume.
      rewrite get4_over_pixels by assumption.
      rewrite is_class_spec by assumption. reflexivity.
    + rewrite HKnth by assumption. apply over_pixels_rect.
Qed.

Lemma image_mask_split_slices :
  let m := len_MASK MASK in
  let sdata := image_mask_split MASK mask image n s in
  firstn m sdata = ref_splitted MASK mask image /\
  firstn m (skipn m sdata) = square5 (ref_splitted MASK mask image) /\
  skipn (2 * m) sdata =
    map (split_volume MASK mask image n s (fun _ => 1)) (seq 0 m).
Proof.
  intros m sdata. unfold sdata, image_mask_split.
  rewrite kernel_sum_block, kernel_pow_block.
  apply three_blocks.
  - apply length_ref_splitted.
  - unfold square5. rewrite length_map. apply length_ref_splitted.
Qed.

End Engines.

(** C1 (amended). On a label map and an image of one and the same shape
    (N, 1, S, S), S even, and an enumeration of pairwise distinct values,
    the reference implementation and the accelerated engine both return;
    their sum volumes and their square volumes are identical, and their
    counts per (class, image) slot are equal. *)
Theorem engines_agree_same_shape (MASK : list (string * Q))
  (mask_idx image : ndarray4) (n s : nat) :
  MASK <> [] -> distinct_values MASK ->
  wf4 n 1 s s mask_idx -> wf4 n 1 s s image ->
  (Z.of_nat s mod 2 = 0)%Z ->
  same_triple
    (theano_split_mask MASK (nd_data mask_idx) (nd_data image))
    (SplitMask_make_thunk MASK mask_idx image)
  /\ exists sum pow count count',
      theano_split_mask MASK (nd_data mask_idx) (nd_data image)
      = Ok (sum, pow, count) /\
      SplitMask_make_thunk MASK mask_idx image = Ok (sum, pow, count').
Proof.
  intros Hne Hd [Hms Hm] [His Hi] Heven.
  assert (Href := theano_split_mask_same MASK n 1 s s _ _ Hne Hm Hi).
  assert (Hacc :
    SplitMask_make_thunk MASK mask_idx image =
    Ok (ref_splitted MASK (nd_data mask_idx) (nd_data image),
        square5 (ref_splitted MASK (nd_data mask_idx) (nd_data image)),
        map (split_volume MASK (nd_data mask_idx) (nd_data image) n s
               (fun _ => 1))
          (seq 0 (len_MASK MASK)))).
  { unfold SplitMask_make_thunk.
    rewrite Hms, His, SplitMask_thunk_host_valid by assumption.
    cbn [bind l_batch_size l_s]. rewrite Z.min_id, !Nat2Z.id.
    destruct (image_mask_split_slices MASK n s _ _ Hd Hm Hi)
      as (E1 & E2 & E3).
    now rewrite E1, E2, E3. }
  rewrite Href, Hacc. split.
  - cbn [same_triple]. repeat split; try apply eq2_refl.
    now apply kernel_count_block.
  - do 4 eexists. split; reflexivity.
Qed.

(** C1 (as stated) fails: a label map of two images with an image batch
    of one image is a valid pair, on which the accelerated engine returns
    (for the one common image) while the reference implementation raises
    an error. *)
Lemma engines_disagree_on_batch_mismatch :
  let mask_idx := mk_ndarray4 [2; 1; 2; 2]%Z [labels_2x2; labels_2x2] in
  let image := mk_ndarray4 [1; 1; 2; 2]%Z [pixels_2x2] in
  valid_pair mask_idx image /\
  theano_split_mask MASK_AB (nd_data mask_idx) (nd_data image)
  = Raise (ValueError "shape mismatch") /\
  (exists r, SplitMask_make_thunk MASK_AB mask_idx image = Ok r) /\
  ~ same_triple
      (theano_split_mask MASK_AB (nd_data mask_idx) (nd_data image))
      (SplitMask_make_thunk MASK_AB mask_idx image).
Proof.
  cbn zeta. split; [|split; [|split]].
  - exists 2%nat, 1%nat, 2%nat.
    repeat split; try lia; repeat constructor.
  - reflexivity.
  - eexists. vm_compute. reflexivity.
  - intros H. vm_compute in H. exact H.
Qed.

(** C3 (as stated) fails: a label map of two images with an image batch
    of one image is a valid pair whose labels all belong to the
    enumeration, and the reference implementation returns no counts for
    it: the assignment of the counts of the first class raises
    [ValueError]. *)
Lemma counts_missing_on_batch_mismatch :
  let mask_idx := mk_ndarray4 [2; 1; 2; 2]%Z [labels_2x2; labels_2x2] in
  let image := mk_ndarray4 [1; 1; 2; 2]%Z [pixels_2x2] in
  valid_pair mask_idx image /\
  (forall b ch y x,
      (b < 2)%nat -> (ch < 1)%nat -> (y < 2)%nat -> (x < 2)%nat ->
      in_enumeration MASK_AB (get4 (nd_data mask_idx) b ch y x)) /\
  theano_split_mask MASK_AB (nd_data mask_idx) (nd_data image)
  = Raise (ValueError "shape mismatch") /\
  ~ (exists sum pow count,
        theano_split_mask MASK_AB (nd_data mask_idx) (nd_data image)
        = Ok (sum, pow, count) /\
        forall b, (b < 1)%nat ->
          sumseq (len_MASK MASK_AB)
            (fun ci => get2 (sum_axes234 count) ci b)
          == inject_Z (Z.of_nat (1 * 2 * 2))).
Proof.
  cbn zeta. split; [|split; [|split]].
  - exists 2%nat, 1%nat, 2%nat.
    repeat split; try lia; repeat constructor.
  - intros b ch y x Hb Hch Hy Hx.
    assert (ch = 0%nat) as -> by lia.
    destruct b as [|[|b]]; try lia;
      destruct y as [|[|y]]; try lia;
      destruct x as [|[|x]]; try lia;
      first [ exists 0%nat, 0; split; reflexivity
            | exists 1%nat, 1; split; reflexivity ].
  - reflexivity.
  - intros (sum & pow & count & H & _). discriminate H.
Qed.


Lemma enum_val_MASK_AB (k : nat) (v : Q) :
  enum_val MASK_AB k = Some v ->
  (k = 0%nat /\ v = 0) \/ (k = 1%nat /\ v = 1).
Proof.
  destruct k as [|[|[|k]]]; cbn; intros H; inversion H; auto.
Qed.

Lemma distinct_values_MASK_AB : distinct_values MASK_AB.
Proof.
  intros i j vi vj Hi Hj E.
  apply enum_val_MASK_AB in Hi as [[-> ->]|[-> ->]];
    apply enum_val_MASK_AB in Hj as [[-> ->]|[-> ->]];
    try reflexivity; vm_compute in E; discriminate.
Qed.

Lemma wf4_labels_4x4 : wf4 1 1 4 4 (mk_ndarray4 [1; 1; 4; 4]%Z labels_4x4).
Proof. split; [reflexivity | apply rect4_labels_4x4]. Qed.

Lemma wf4_image_4x4 : wf4 1 1 4 4 (mk_ndarray4 [1; 1; 4; 4]%Z image_4x4).
Proof. split; [reflexivity | apply rect4_image_4x4]. Qed.

Lemma engines_agree_same_shape_witness :
  same_triple
    (theano_split_mask MASK_AB labels_4x4 image_4x4)
    (SplitMask_make_thunk MASK_AB (mk_ndarray4 [1; 1; 4; 4]%Z labels_4x4)
       (mk_ndarray4 [1; 1; 4; 4]%Z image_4x4)).
Proof.
  exact (proj1 (engines_agree_same_shape MASK_AB
                  (mk_ndarray4 [1; 1; 4; 4]%Z labels_4x4)
                  (mk_ndarray4 [1; 1; 4; 4]%Z image_4x4) 1 4
                  MASK_AB_nonempty distinct_values_MASK_AB
                  wf4_labels_4x4 wf4_image_4x4 eq_refl)).
Defined.

(** ** The backward pass *)

Lemma sumseq_pick (n k : nat) (F : nat -> Q) :
  (k < n)%nat -> sumseq n (fun i => if Nat.eqb i k then F i else 0) == F k.
Proof.
  intros Hk. rewrite <- (sumseq_delta n k (F k) Hk).
  apply sumseq_ext. intros i _.
  destruct (Nat.eqb_spec i k) as [->|]; reflexivity.
Qed.

Lemma sumseq_one (f : nat -> Q) : sumseq 1 f == f 0%nat.
Proof. unfold sumseq, sum1. cbn. ring. Qed.

Lemma sumseq3_pick (s y x : nat) (F : nat -> nat -> Q) :
  (y < s)%nat -> (x < s)%nat ->
  sumseq3 1 s s (fun _ y' x' =>
    if Nat.eqb y' y && Nat.eqb x' x then F y' x' else 0) == F y x.
Proof.
  intros Hy Hx. unfold sumseq3. rewrite sumseq_one.
  rewrite <- (sumseq_pick s y (fun y' => F y' x) Hy).
  apply sumseq_ext. intros y' Hy'.
  destruct (Nat.eqb_spec y' y) as [->|Hne]; cbn [andb].
  - now apply sumseq_pick.
  - apply sumseq_zero. reflexivity.
Qed.

Section Backward.

Variable MASK : list (string * Q).
Variables n s : nat.
Variables mask image : tensor4.
Hypothesis Hdistinct : distinct_values MASK.
Hypothesis Hmask : rect4 n 1 s s mask.
Hypothesis Himage : rect4 n 1 s s image.
Variables b y x : nat.
Hypothesis Hb : (b < n)%nat.
Hypothesis Hy : (y < s)%nat.
Hypothesis Hx : (x < s)%nat.

Let label : Q := get4 mask b 0 y x.
Let pixel : Q := get4 image b 0 y x.

Lemma class_pick (F : nat -> Q) :
  sumseq (len_MASK MASK) (fun ci =>
    F ci * indicator (Qeq_bool label (class_value MASK ci)))
  == match classifier MASK label with
     | Some c0 => F c0
     | None => 0
     end.
Proof.
  destruct (classifier MASK label) as [c0|] eqn:E.
  - destruct (classify_in_Some MASK label c0 E) as [Hc0 _].
    rewrite <- (sumseq_pick (len_MASK MASK) c0 F Hc0).
    apply sumseq_ext. intros ci Hci.
    rewrite <- (is_class_spec MASK ci label Hdistinct Hci).
    unfold is_class. rewrite E. rewrite Nat.eqb_sym.
    destruct (Nat.eqb ci c0); unfold indicator; ring.
  - apply sumseq_zero. intros ci Hci.
    rewrite <- (is_class_spec MASK ci label Hdistinct Hci).
    unfold is_class. rewrite E. unfold indicator. ring.
Qed.

Lemma d_sum_indicator (ci b' : nat) :
  d_sum MASK mask b y x ci b' ==
  (if Nat.eqb b' b then 1 else 0) *
  indicator (Qeq_bool label (class_value MASK ci)).
Proof.
  unfold d_sum, indicator. fold label.
  destruct (Nat.eqb b' b), (Qeq_bool label (class_value MASK ci));
    cbn [andb]; ring.
Qed.

Lemma chain_rule_sum (og_sum og_pow : upstream) :
  sumseq (len_MASK MASK) (fun ci => sumseq n (fun b' =>
    og_weight og_sum ci b' * d_sum MASK mask b y x ci b' +
    og_weight og_pow ci b' * (2 * pixel * d_sum MASK mask b y x ci b')))
  == match classifier MASK label with
     | Some c0 =>
         og_weight og_sum c0 b + 2 * pixel * og_weight og_pow c0 b
     | None => 0
     end.
Proof.
  rewrite <- (class_pick (fun c0 =>
    og_weight og_sum c0 b + 2 * pixel * og_weight og_pow c0 b)).
  apply sumseq_ext. intros ci Hci.
  rewrite <- (sumseq_pick n b (fun b' =>
    (og_weight og_sum ci b' + 2 * pixel * og_weight og_pow ci b') *
    indicator (Qeq_bool label (class_value MASK ci))) Hb).
  apply sumseq_ext. intros b' Hb'.
  rewrite d_sum_indicator.
  destruct (Nat.eqb b' b); ring.
Qed.

Lemma grad_pixel_value (og_sum og_pow : upstream) :
  get4 (image_mask_split_grad MASK (og_array og_sum) (og_array og_pow)
          mask image n s) b 0 y x
  == match classifier MASK label with
     | Some c0 =>
         og_weight og_sum c0 b + 2 * pixel * og_weight og_pow c0 b
     | None => 0
     end.
Proof.
  unfold image_mask_split_grad. rewrite get4_over_pixels by assumption.
  unfold grad_pixel. fold label pixel.
  destruct (classifier MASK label) as [c0|]; [|reflexivity].
  destruct og_sum, og_pow; cbn [og_array og_weight]; ring.
Qed.

Section Perturbation.

Variable image' : tensor4.
Variable h : Q.
Hypothesis Hpert : perturbed n s image image' b y x h.

Lemma perturbed_sum (ci b' : nat) :
  (ci < len_MASK MASK)%nat -> (b' < n)%nat ->
  get2 (sum_axes234 (ref_splitted MASK mask image')) ci b' ==
  get2 (sum_axes234 (ref_splitted MASK mask image)) ci b'
  + h * d_sum MASK mask b y x ci b'.
Proof.
  intros Hci Hb'. destruct Hpert as [Hrect Hval].
  rewrite (ref_sum_entry MASK n 1 s s mask image' Hmask Hrect ci b' Hci Hb').
  rewrite (ref_sum_entry MASK n 1 s s mask image Hmask Himage ci b' Hci Hb').
  set (v := class_value MASK ci).
  transitivity
    (sumseq3 1 s s (fun ch y' x' =>
       (if Qeq_bool (get4 mask b' ch y' x') v
        then get4 image b' ch y' x' else 0) +
       (if Nat.eqb y' y && Nat.eqb x' x
        then (if Nat.eqb b' b && Qeq_bool (get4 mask b' 0 y' x') v
              then h else 0)
        else 0))).
  { apply sumseq3_ext. intros ch y' x' Hch Hy' Hx'.
    assert (ch = 0%nat) as -> by lia.
    generalize (Hval b' y' x' Hb' Hy' Hx'). unfold at_pixel.
    destruct (Qeq_bool (get4 mask b' 0 y' x') v), (Nat.eqb b' b),
      (Nat.eqb y' y), (Nat.eqb x' x); cbn [andb]; intros E;
      try rewrite E; ring. }
  rewrite sumseq3_plus. apply Qplus_comp; [reflexivity|].
  rewrite (sumseq3_pick s y x
             (fun y' x' => if Nat.eqb b' b &&
                              Qeq_bool (get4 mask b' 0 y' x') v
                           then h else 0) Hy Hx).
  unfold d_sum. fold v.
  destruct (Nat.eqb_spec b' b) as [->|]; cbn [andb]; [|ring].
  destruct (Qeq_bool (get4 mask b 0 y x) v); ring.
Qed.

Lemma perturbed_pow (ci b' : nat) :
  (ci < len_MASK MASK)%nat -> (b' < n)%nat ->
  get2 (sum_axes234 (square5 (ref_splitted MASK mask image'))) ci b' ==
  get2 (sum_axes234 (square5 (ref_splitted MASK mask image))) ci b'
  + h * (2 * pixel * d_sum MASK mask b y x ci b')
  + h * h * d_sum MASK mask b y x ci b'.
Proof.
  intros Hci Hb'. destruct Hpert as [Hrect Hval].
  rewrite (ref_pow_entry MASK n 1 s s mask image' Hmask Hrect ci b' Hci Hb').
  rewrite (ref_pow_entry MASK n 1 s s mask image Hmask Himage ci b' Hci Hb').
  set (v := class_value MASK ci).
  transitivity
    (sumseq3 1 s s (fun ch y' x' =>
       sqr (if Qeq_bool (get4 mask b' ch y' x') v
            then get4 image b' ch y' x' else 0) +
       (if Nat.eqb y' y && Nat.eqb x' x
        then (if Nat.eqb b' b && Qeq_bool (get4 mask b' 0 y' x') v
              then h * (2 * get4 image b' 0 y' x') + h * h else 0)
        else 0))).
  { apply sumseq3_ext. intros ch y' x' Hch Hy' Hx'.
    assert (ch = 0%nat) as -> by lia. unfold sqr.
    generalize (Hval b' y' x' Hb' Hy' Hx'). unfold at_pixel.
    destruct (Qeq_bool (get4 mask b' 0 y' x') v), (Nat.eqb b' b),
      (Nat.eqb y' y), (Nat.eqb x' x); cbn [andb]; intros E;
      try rewrite E; ring. }
  rewrite sumseq3_plus, <- Qplus_assoc. apply Qplus_comp; [reflexivity|].
  rewrite (sumseq3_pick s y x
             (fun y' x' => if Nat.eqb b' b &&
                              Qeq_bool (get4 mask b' 0 y' x') v
                           then h * (2 * get4 image b' 0 y' x') + h * h
                           else 0) Hy Hx).
  unfold d_sum, pixel. fold v.
  destruct (Nat.eqb_spec b' b) as [->|]; cbn [andb]; [|ring].
  destruct (Qeq_bool (get4 mask b 0 y x) v); ring.
Qed.

End Perturbation.

End Backward.

(** C2. On a label map and an image of shape (N, 1, S, S), for each
    pixel (b, y, x) of class [c] the backward thunk writes
    [gradSum[c,b]] (when the sum gradient is connected) plus
    [2 * image[b,0,y,x] * gradSumOfSquares[c,b]] (when the pow gradient is
    connected) into [gradImage[b,0,y,x]]. This is the analytic gradient:
    it is the upstream-weighted sum of the partial derivatives [d_sum] and
    [2 * pixel * d_sum] of the forward sums and sums of squares, and these
    are their partial derivatives, since adding [h] to the pixel changes
    each sum by [h * d_sum] and each sum of squares by
    [h * (2 * pixel * d_sum) + h * h * d_sum]. *)
Theorem backward_is_analytic_gradient (MASK : list (string * Q))
  (mask_idx image : tvar) (og_sum og_pow og_count : upstream) (n s : nat) :
  MASK <> [] -> distinct_values MASK ->
  wf4 n 1 s s (v_array mask_idx) -> wf4 n 1 s s (v_array image) ->
  (Z.of_nat s mod 2 = 0)%Z -> (0 < s)%nat ->
  is_disconnected og_sum && is_disconnected og_pow = false ->
  exists g_mask node g,
    SplitMask_grad [mask_idx; image] [og_sum; og_pow; og_count]
    = Ok [g_mask; GradImage node] /\
    SplitMaskGrad_make_thunk MASK node = Ok g /\
    forall b y x, (b < n)%nat -> (y < s)%nat -> (x < s)%nat ->
      let mask := nd_data (v_array mask_idx) in
      let img := nd_data (v_array image) in
      let pixel := get4 img b 0 y x in
      (forall c,
          classifier MASK (get4 mask b 0 y x) = Some c ->
          get4 (nd_data g) b 0 y x ==
          og_weight og_sum c b + 2 * pixel * og_weight og_pow c b) /\
      get4 (nd_data g) b 0 y x ==
        sumseq (len_MASK MASK) (fun ci => sumseq n (fun b' =>
          og_weight og_sum ci b' * d_sum MASK mask b y x ci b' +
          og_weight og_pow ci b' *
            (2 * pixel * d_sum MASK mask b y x ci b'))) /\
      forall image' h,
        perturbed n s img image' b y x h ->
        exists sum pow count sum' pow' count',
          theano_split_mask MASK mask img = Ok (sum, pow, count) /\
          theano_split_mask MASK mask image' = Ok (sum', pow', count') /\
          forall ci b', (ci < len_MASK MASK)%nat -> (b' < n)%nat ->
            get2 (sum_axes234 sum') ci b' ==
              get2 (sum_axes234 sum) ci b'
              + h * d_sum MASK mask b y x ci b' /\
            get2 (sum_axes234 pow') ci b' ==
              get2 (sum_axes234 pow) ci b'
              + h * (2 * pixel * d_sum MASK mask b y x ci b')
              + h * h * d_sum MASK mask b y x ci b'.
Proof.
  intros Hne Hd [Hms Hm] [His Hi] Heven Hpos Hconn.
  destruct (SplitMask_grad_connected mask_idx image og_sum og_pow og_count
              Hconn) as (op & node & Hg & Hnode & Hop).
  destruct (SplitMaskGrad_make_thunk_valid MASK op mask_idx image og_sum
              og_pow node n n s Hop Hnode Hms His Heven Hpos)
    as (g & Hth & _ & _ & Hdata).
  rewrite Nat.min_id in Hdata.
  exists (ZerosLike mask_idx), node, g.
  split; [exact Hg|]. split; [exact Hth|].
  intros b y x Hb Hy Hx mask img pixel.
  assert (Hval := grad_pixel_value MASK n s mask img b y x Hb Hy Hx
                    og_sum og_pow).
  assert (Hdata' : nd_data g =
            image_mask_split_grad MASK (og_array og_sum) (og_array og_pow)
              mask img n s).
  { rewrite Hdata. now destruct og_sum, og_pow. }
  rewrite <- Hdata' in Hval. fold pixel in Hval.
  split; [|split].
  - intros c Hc. rewrite Hval. subst mask. now rewrite Hc.
  - rewrite Hval. symmetry.
    apply (chain_rule_sum MASK n mask img Hd b y x Hb).
  - intros image' h Hpert.
    exists (ref_splitted MASK mask img), (square5 (ref_splitted MASK mask img)),
      (reshape_count (ref_count MASK mask)),
      (ref_splitted MASK mask image'),
      (square5 (ref_splitted MASK mask image')),
      (reshape_count (ref_count MASK mask)).
    split; [now apply theano_split_mask_same
              with (n := n) (c := 1%nat) (h := s) (w := s)|].
    split; [apply theano_split_mask_same
              with (n := n) (c := 1%nat) (h := s) (w := s);
            auto; apply Hpert|].
    intros ci b' Hci Hb'. split.
    + now apply (perturbed_sum MASK n s mask img Hm Hi b y x Hb Hy Hx
                   image' h).
    + now apply (perturbed_pow MASK n s mask img Hm Hi b y x Hb Hy Hx
                   image' h).
Qed.

(** ** The theorems at concrete inputs *)

Lemma labels_4x4_in_enumeration (b ch y x : nat) :
  (b < 1)%nat -> (ch < 1)%nat -> (y < 4)%nat -> (x < 4)%nat ->
  in_enumeration MASK_AB (get4 labels_4x4 b ch y x).
Proof.
  intros Hb Hch Hy Hx.
  assert (b = 0%nat) as -> by lia. assert (ch = 0%nat) as -> by lia.
  destruct y as [|[|[|[|y]]]]; try lia;
    destruct x as [|[|[|[|x]]]]; try lia;
    first [ exists 0%nat, 0; split; reflexivity
          | exists 1%nat, 1; split; reflexivity ].
Qed.




Lemma counts_sum_to_pixels_witness :
  exists sum pow count,
    theano_split_mask MASK_AB labels_4x4 image_4x4 = Ok (sum, pow, count) /\
    forall b, (b < 1)%nat ->
      sumseq (len_MASK MASK_AB) (fun ci => get2 (sum_axes234 count) ci b)
      == inject_Z (Z.of_nat (1 * 4 * 4)).
Proof.
  exact (counts_sum_to_pixels MASK_AB 1 1 4 4 labels_4x4 image_4x4
           MASK_AB_nonempty distinct_values_MASK_AB
           rect4_labels_4x4 rect4_image_4x4 labels_4x4_in_enumeration).
Defined.




Lemma SplitMask_grad_label_map_zero_witness :
  exists g_image z,
    SplitMask_grad
      [f32 [1; 1; 4; 4]%Z labels_4x4; f32 [1; 1; 4; 4]%Z image_4x4]
      [DisconnectedType; Connected [[1]; [1]]; DisconnectedType]
    = Ok [ZerosLike (f32 [1; 1; 4; 4]%Z labels_4x4); g_image] /\
    eval_gvar MASK_AB (ZerosLike (f32 [1; 1; 4; 4]%Z labels_4x4)) = Ok z /\
    nd_shape z = [1; 1; 4; 4]%Z /\
    forall b c y x,
      lookup4 (nd_data z) b c y x =
      option_map (fun _ => 0) (lookup4 labels_4x4 b c y x).
Proof.
  exact (SplitMask_grad_label_map_zero MASK_AB
           (f32 [1; 1; 4; 4]%Z labels_4x4) (f32 [1; 1; 4; 4]%Z image_4x4)
           DisconnectedType (Connected [[1]; [1]]) DisconnectedType eq_refl).
Defined.

Lemma backward_is_analytic_gradient_witness :
  exists g_mask node g,
    SplitMask_grad
      [f32 [1; 1; 4; 4]%Z labels_4x4; f32 [1; 1; 4; 4]%Z image_4x4]
      [Connected [[1]; [2]]; Connected [[3]; [4]]; DisconnectedType]
    = Ok [g_mask; GradImage node] /\
    SplitMaskGrad_make_thunk MASK_AB node = Ok g /\
    get4 (nd_data g) 0 0 2 2 == 26.
Proof.
  destruct (backward_is_analytic_gradient MASK_AB
              (f32 [1; 1; 4; 4]%Z labels_4x4) (f32 [1; 1; 4; 4]%Z image_4x4)
              (Connected [[1]; [2]]) (Connected [[3]; [4]]) DisconnectedType
              1 4 MASK_AB_nonempty distinct_values_MASK_AB
              wf4_labels_4x4 wf4_image_4x4 eq_refl)
    as (g_mask & node & g & Hg & Hth & Hpix); [lia | reflexivity |].
  exists g_mask, node, g. split; [exact Hg|]. split; [exact Hth|].
  destruct (Hpix 0%nat 2%nat 2%nat) as [Hval _]; [lia | lia | lia |].
  rewrite (Hval 1%nat eq_refl). reflexivity.
Defined.

(** * Further properties of the host code *)

(** ** The shape guard *)

(** [shape_ok] reads the entries 1, 2 and 3 of the shape and nothing
    else: a shape of rank below 4 is an [IndexError], and on a shape of
    rank 4 or more the answer depends neither on the batch size nor on the
    dimensions after the fourth. *)
Theorem shape_ok_reads_three_entries :
  (forall shp : shape,
      (length shp < 4)%nat -> shape_ok shp = Raise IndexError)
  /\ (forall (n c h w : Z) (rest : shape),
         shape_ok (n :: c :: h :: w :: rest) = Ok (own_shape_ok c h w)).
Proof.
  split.
  - intros shp H.
    destruct shp as [|n [|c [|h [|w rest]]]]; cbn in H; try lia; reflexivity.
  - intros n c h w rest. unfold shape_ok, own_shape_ok. cbn.
    destruct (h =? w)%Z; cbn; [|reflexivity].
    destruct (h mod 2 =? 0)%Z; reflexivity.
Qed.

Lemma shape_ok_reads_three_entries_witness :
  shape_ok [4; 4]%Z = Raise IndexError /\
  shape_ok [7; 1; 4; 4; 9]%Z = Ok true.
Proof.
  split.
  - apply (proj1 shape_ok_reads_three_entries). cbn. lia.
  - exact (proj2 shape_ok_reads_three_entries 7 1 4 4 [9])%Z.
Defined.

(** ** Launch geometry *)

Lemma ceil_div_bounds (a b : Z) :
  (0 < b)%Z ->
  (a <= - (- a / b) * b)%Z /\ ((- (- a / b) - 1) * b < a)%Z.
Proof.
  intros Hb.
  pose proof (Z.div_mod (- a) b ltac:(lia)) as Hdm.
  pose proof (Z.mod_pos_bound (- a) b Hb) as Hmod.
  nia.
Qed.

Lemma ceil_div_small (a : Z) : (0 < a)%Z -> (- (- a / a) = 1)%Z.
Proof.
  intros Ha. rewrite Z.div_opp_l_z by (try lia; apply Z.mod_same; lia).
  rewrite Z.div_same by lia. reflexivity.
Qed.

Lemma ceil_div_le_32 (s : Z) :
  (0 < s <= 32)%Z -> (- (- s / 32) = 1)%Z.
Proof.
  intros Hs. destruct (ceil_div_bounds s 32 ltac:(lia)) as [H1 H2]. lia.
Qed.

(** On shapes (N1, 1, S, S) and (N2, 1, S, S) with S even and positive
    the forward and the backward thunk compute the same grid and the same
    block: blocks of side [min 32 S], and as many of them per axis as it
    takes to cover the S pixels of a row, none of them empty. *)
Theorem launch_geometry_covers_image (MASK : list (string * Q))
  (n1 n2 s : Z) :
  (s mod 2 = 0)%Z -> (0 < s)%Z ->
  exists lf lb g bl,
    SplitMask_thunk_host MASK [n1; 1; s; s]%Z [n2; 1; s; s]%Z = Ok lf /\
    SplitMaskGrad_thunk_host [n1; 1; s; s]%Z [n2; 1; s; s]%Z = Ok lb /\
    l_grid lf = (Z.min n1 n2, g, g) /\ l_grid lb = (Z.min n1 n2, g, g) /\
    l_block lf = (1%Z, bl, bl) /\ l_block lb = (1%Z, bl, bl) /\
    bl = Z.min 32 s /\
    (s <= g * bl)%Z /\ ((g - 1) * bl < s)%Z.
Proof.
  intros Heven Hpos.
  rewrite SplitMask_thunk_host_valid, SplitMaskGrad_thunk_host_valid
    by assumption.
  assert (Hg : (- (- s / 32) = - (- s / Z.min 32 s))%Z).
  { destruct (Z.le_gt_cases s 32) as [Hle|Hgt].
    - rewrite Z.min_r by assumption.
      rewrite ceil_div_small, ceil_div_le_32 by lia. reflexivity.
    - rewrite Z.min_l by lia. reflexivity. }
  do 2 eexists. exists (- (- s / Z.min 32 s))%Z, (Z.min 32 s).
  cbn [l_grid l_block]. rewrite Hg.
  repeat (split; [reflexivity|]).
  apply ceil_div_bounds. lia.
Qed.

Lemma launch_geometry_covers_image_witness :
  exists lf lb g bl,
    SplitMask_thunk_host MASK_AB [3; 1; 64; 64]%Z [2; 1; 64; 64]%Z = Ok lf /\
    SplitMaskGrad_thunk_host [3; 1; 64; 64]%Z [2; 1; 64; 64]%Z = Ok lb /\
    l_grid lf = (Z.min 3 2, g, g) /\ l_grid lb = (Z.min 3 2, g, g) /\
    l_block lf = (1%Z, bl, bl) /\ l_block lb = (1%Z, bl, bl) /\
    bl = Z.min 32 64 /\
    (64 <= g * bl)%Z /\ ((g - 1) * bl < 64)%Z.
Proof.
  apply (launch_geometry_covers_image MASK_AB 3 2 64); [reflexivity | lia].
Defined.

(** For an empty spatial extent (S = 0) both shapes pass [shape_ok]; the
    forward thunk goes on with an empty grid, while the backward thunk
    divides by its block size 0 and raises [ZeroDivisionError]. *)
Theorem empty_image_launch (MASK : list (string * Q)) (n1 n2 : Z) :
  (exists lf,
      SplitMask_thunk_host MASK [n1; 1; 0; 0]%Z [n2; 1; 0; 0]%Z = Ok lf /\
      l_grid lf = (Z.min n1 n2, 0, 0)%Z /\ l_block lf = (1, 0, 0)%Z)
  /\ SplitMaskGrad_thunk_host [n1; 1; 0; 0]%Z [n2; 1; 0; 0]%Z
     = Raise ZeroDivisionError.
Proof.
  split.
  - rewrite SplitMask_thunk_host_valid by reflexivity.
    eexists. repeat split.
  - reflexivity.
Qed.

(** ** Operator and node out of step *)

(** An operator built with the default connection list (both gradients)
    accepts a node with a single connected gradient: [make_node] does not
    compare the node with the operator. The thunk then takes the
    both-connected branch and fails with [IndexError] on the missing
    fourth input. *)
Theorem default_operator_on_single_gradient (MASK : list (string * Q))
  (mask_idx image : tvar) (g : list (list Q)) (n1 n2 s : Z) :
  nd_shape (v_array mask_idx) = [n1; 1; s; s]%Z ->
  nd_shape (v_array image) = [n2; 1; s; s]%Z ->
  (s mod 2 = 0)%Z -> (0 < s)%Z ->
  exists op node_sum node_pow,
    SplitMaskGrad_init None = Ok op /\
    SplitMaskGrad_make_node op mask_idx image (Connected g) DisconnectedType
    = Ok node_sum /\
    SplitMaskGrad_make_node op mask_idx image DisconnectedType (Connected g)
    = Ok node_pow /\
    SplitMaskGrad_make_thunk MASK node_sum = Raise IndexError /\
    SplitMaskGrad_make_thunk MASK node_pow = Raise IndexError.
Proof.
  intros Hm Hi Heven Hpos.
  do 3 eexists. repeat (split; [reflexivity|]).
  unfold SplitMaskGrad_make_thunk, contiguouse.
  cbn [ag_op ag_mask ag_image ag_grads function_name connected].
  rewrite Hm, Hi, SplitMaskGrad_thunk_host_valid by assumption.
  split; reflexivity.
Qed.

Lemma default_operator_on_single_gradient_witness :
  exists op node_sum node_pow,
    SplitMaskGrad_init None = Ok op /\
    SplitMaskGrad_make_node op (f32 [1; 1; 4; 4]%Z labels_4x4)
      (f32 [1; 1; 4; 4]%Z image_4x4) (Connected [[1]; [1]]) DisconnectedType
    = Ok node_sum /\
    SplitMaskGrad_make_node op (f32 [1; 1; 4; 4]%Z labels_4x4)
      (f32 [1; 1; 4; 4]%Z image_4x4) DisconnectedType (Connected [[1]; [1]])
    = Ok node_pow /\
    SplitMaskGrad_make_thunk MASK_AB node_sum = Raise IndexError /\
    SplitMaskGrad_make_thunk MASK_AB node_pow = Raise IndexError.
Proof.
  apply (default_operator_on_single_gradient MASK_AB
           (f32 [1; 1; 4; 4]%Z labels_4x4) (f32 [1; 1; 4; 4]%Z image_4x4)
           [[1]; [1]] 1 1 4 eq_refl eq_refl eq_refl).
  lia.
Defined.

(** ** The gradient rule: errors and consistency *)

(** [SplitMask.grad] fails with [IndexError] when it is handed fewer than
    two output gradients, and with the [ValueError] of the backward
    operator when the first two are both disconnected. *)
Theorem SplitMask_grad_errors :
  (forall inputs output_gradients,
      (length output_gradients < 2)%nat ->
      SplitMask_grad inputs output_gradients = Raise IndexError)
  /\ (forall x inputs rest,
         SplitMask_grad (x :: inputs)
           (DisconnectedType :: DisconnectedType :: rest)
         = Raise (ValueError no_gradient_msg)).
Proof.
  split.
  - intros inputs ogs H. unfold SplitMask_grad.
    destruct ogs as [|og0 [|og1 rest]]; cbn in H; try lia; reflexivity.
  - intros x inputs rest. reflexivity.
Qed.

Lemma SplitMask_grad_errors_witness :
  SplitMask_grad [f32 [1; 1; 4; 4]%Z labels_4x4; f32 [1; 1; 4; 4]%Z image_4x4]
    [Connected [[1]; [1]]] = Raise IndexError.
Proof.
  apply (proj1 SplitMask_grad_errors). cbn. lia.
Defined.

(** The gradients that are connected, the sum gradient first. *)
Lemma connected_inputs_spec (og_sum og_pow : upstream) :
  forall op mask_idx image node,
    SplitMaskGrad_make_node op mask_idx image og_sum og_pow = Ok node ->
    ag_grads node =
      match og_array og_sum with Some g => [g] | None => [] end ++
      match og_array og_pow with Some g => [g] | None => [] end.
Proof.
  intros op mask_idx image node H. unfold SplitMaskGrad_make_node in H.
  destruct og_sum, og_pow; cbn in H; inversion H; reflexivity.
Qed.

(** The node [SplitMask.grad] builds is in step with its operator: the
    device function named at construction is the one for the gradients
    that are connected, the thunk takes the matching branch, and the
    node's gradient inputs are exactly the connected ones, sum first, so
    that every input the branch reads is there. *)
Theorem SplitMask_grad_node_in_step (mask_idx image : tvar)
  (og_sum og_pow og_count : upstream) :
  is_disconnected og_sum && is_disconnected og_pow = false ->
  exists node k,
    SplitMask_grad [mask_idx; image] [og_sum; og_pow; og_count]
    = Ok [ZerosLike mask_idx; GradImage node] /\
    ag_mask node = mask_idx /\ ag_image node = image /\
    get_function (function_name (ag_op node)) = Ok k /\
    thunk_branch (ag_op node) = Some (kernel_mode k) /\
    kernel_mode k =
      (if is_disconnected og_sum then PowOnly
       else if is_disconnected og_pow then SumOnly else Both) /\
    ag_grads node =
      match og_array og_sum with Some g => [g] | None => [] end ++
      match og_array og_pow with Some g => [g] | None => [] end /\
    length (ag_grads node) =
      match kernel_mode k with Both => 2%nat | _ => 1%nat end.
Proof.
  intros H.
  destruct og_sum as [gs|], og_pow as [gp|]; try discriminate;
    do 2 eexists; repeat split; reflexivity.
Qed.

Lemma SplitMask_grad_node_in_step_witness :
  exists node k,
    SplitMask_grad
      [f32 [1; 1; 4; 4]%Z labels_4x4; f32 [1; 1; 4; 4]%Z image_4x4]
      [DisconnectedType; Connected [[3]; [4]]; DisconnectedType]
    = Ok [ZerosLike (f32 [1; 1; 4; 4]%Z labels_4x4); GradImage node] /\
    get_function (function_name (ag_op node)) = Ok k /\
    kernel_mode k = PowOnly /\
    ag_grads node = [[[3]; [4]]].
Proof.
  destruct (SplitMask_grad_node_in_step
              (f32 [1; 1; 4; 4]%Z labels_4x4) (f32 [1; 1; 4; 4]%Z image_4x4)
              DisconnectedType (Connected [[3]; [4]]) DisconnectedType
              eq_refl)
    as (node & k & Hg & _ & _ & Hk & _ & Hmode & Hgrads & _).
  exists node, k. auto.
Defined.

(** * Choosing the implementation *)

(** [get_split_mask_fn] never rejects its argument. It returns the
    accelerated operator exactly when [impl] is "cuda", or "auto" on a
    device whose name starts with "gpu"; for every other string it
    returns the reference implementation, and it prints the warning
    exactly when it does so on such a device. *)
Theorem get_split_mask_fn_choice (device impl : string) :
  (fst (get_split_mask_fn device impl) = CudaSplitMask <->
   impl = "cuda"%string \/
   (impl = "auto"%string /\ startswith device "gpu" = true))
  /\ (snd (get_split_mask_fn device impl) = [slow_path_warning] <->
      fst (get_split_mask_fn device impl) = TheanoSplitMask /\
      startswith device "gpu" = true)
  /\ (snd (get_split_mask_fn device impl) = [] \/
      snd (get_split_mask_fn device impl) = [slow_path_warning]).
Proof.
  unfold get_split_mask_fn.
  destruct (String.eqb_spec impl "auto") as [Ha|Ha];
    destruct (String.eqb_spec impl "cuda") as [Hc|Hc];
    destruct (startswith device "gpu") eqn:Hg; cbn;
    repeat split; intros; auto; try discriminate;
    try (subst; discriminate);
    try match goal with
        | H : _ \/ _ |- _ => destruct H as [H|[H H']]; congruence
        | H : _ /\ _ |- _ => destruct H; congruence
        end.
Qed.

(** * Means over groups of classes *)

Lemma list_index_Some (key : string) (keys : list string) (i : nat) :
  list_index key keys = Ok i ->
  nth_error keys i = Some key /\ (i < length keys)%nat.
Proof.
  revert i. induction keys as [|k keys IH]; intros i H; [discriminate|].
  cbn in H. destruct (String.eqb_spec k key) as [->|Hne].
  - inversion H. cbn. split; [reflexivity | lia].
  - destruct (list_index key keys) as [j|] eqn:E; [|discriminate].
    inversion H. destruct (IH j eq_refl) as [Hn Hl]. cbn. split; [auto | lia].
Qed.

Lemma list_index_missing (key : string) (keys : list string) :
  ~ In key keys ->
  list_index key keys =
  Raise (ValueError (String.append "'" (String.append key "' is not in list"))).
Proof.
  induction keys as [|k keys IH]; intros H; [reflexivity|].
  cbn. destruct (String.eqb_spec k key) as [->|Hne].
  - exfalso. apply H. now left.
  - rewrite IH; [reflexivity|]. intros Hin. apply H. now right.
Qed.

Lemma list_index_present (key : string) (keys : list string) :
  In key keys -> exists i, list_index key keys = Ok i.
Proof.
  induction keys as [|k keys IH]; intros H; [contradiction|].
  cbn. destruct (String.eqb_spec k key) as [->|Hne]; [eauto|].
  destruct H as [H|H]; [contradiction|].
  destruct (IH H) as [i Hi]. rewrite Hi. cbn. eauto.
Qed.

Lemma slice_map {A B : Type} (F : A -> B) (start : nat) (stop : option nat)
  (l : list A) :
  slice start stop (map F l) = map F (slice start stop l).
Proof.
  unfold slice. destruct stop; now rewrite ?firstn_map, skipn_map.
Qed.

Lemma combine_skipn {A B : Type} (k : nat) (a : list A) (b : list B) :
  skipn k (combine a b) = combine (skipn k a) (skipn k b).
Proof.
  revert a b. induction k as [|k IH]; intros a b; [reflexivity|].
  destruct a as [|x a]; [reflexivity|].
  destruct b as [|y b]; [cbn; now destruct (skipn k a)|]. apply IH.
Qed.

Lemma slice_combine {A B : Type} (start : nat) (stop : option nat)
  (a : list A) (b : list B) :
  slice start stop (combine a b) =
  combine (slice start stop a) (slice start stop b).
Proof.
  unfold slice. destruct stop; now rewrite ?combine_firstn, combine_skipn.
Qed.

Lemma slice_zip2 (f : Q -> Q -> Q) (start : nat) (stop : option nat)
  (a b : list (list Q)) :
  slice start stop (zip2 f a b) =
  zip2 f (slice start stop a) (slice start stop b).
Proof.
  unfold zip2. now rewrite slice_map, slice_combine.
Qed.

Lemma Forall2_firstn {A B : Type} (R : A -> B -> Prop) (k : nat)
  (a : list A) (b : list B) :
  Forall2 R a b -> Forall2 R (firstn k a) (firstn k b).
Proof.
  intros H. revert k. induction H; intros [|k]; cbn; constructor; auto.
Qed.

Lemma Forall2_skipn {A B : Type} (R : A -> B -> Prop) (k : nat)
  (a : list A) (b : list B) :
  Forall2 R a b -> Forall2 R (skipn k a) (skipn k b).
Proof.
  intros H. revert k. induction H; intros [|k]; cbn; auto.
Qed.

Lemma same_shape2_slice (start : nat) (stop : option nat)
  (a b : list (list Q)) :
  same_shape2 a b ->
  same_shape2 (slice start stop a) (slice start stop b).
Proof.
  intros H. unfold slice, same_shape2.
  destruct stop; apply Forall2_skipn; [apply Forall2_firstn|]; exact H.
Qed.

Lemma slice_incl {A : Type} (start : nat) (stop : option nat) (l : list A)
  (a : A) :
  In a (slice start stop l) -> In a l.
Proof.
  unfold slice. intros H.
  assert (Hskip : forall (k : nat) (l0 : list A),
             In a (skipn k l0) -> In a l0).
  { intros k l0 H0. rewrite <- (firstn_skipn k l0).
    apply in_or_app. now right. }
  apply Hskip in H. destruct stop as [e|]; [|exact H].
  rewrite <- (firstn_skipn e l). apply in_or_app. now left.
Qed.

Lemma slice_as_indices {A : Type} (start : nat) (stop : option nat)
  (l : list A) (d : A) :
  slice start stop l =
  map (fun i => nth i l d) (slice start stop (seq 0 (length l))).
Proof.
  rewrite <- slice_map. now rewrite map_nth_seq.
Qed.

Lemma sum_axis0_slice (n : nat) (start : nat) (stop : option nat)
  (t : list (list Q)) (b : nat) :
  (b < n)%nat ->
  get1 (sum_axis0 n (slice start stop t)) b =
  sum1 (map (fun ci => get2 t ci b)
          (slice start stop (seq 0 (length t)))).
Proof.
  intros Hb. unfold sum_axis0, get1 at 1.
  rewrite nth_map_seq by assumption.
  rewrite (slice_as_indices start stop t []), map_map. reflexivity.
Qed.


Lemma fdiv_compat (x x' y y' : Q) :
  x == x' -> y == y' -> same_float (fdiv x y) (fdiv x' y').
Proof.
  intros Hx Hy. unfold fdiv.
  assert (Ey : Qeq_bool y 0 = Qeq_bool y' 0).
  { destruct (Qeq_bool y 0) eqn:E, (Qeq_bool y' 0) eqn:E'; auto.
    - apply Qeq_bool_iff in E. rewrite Hy in E.
      apply Qeq_bool_iff in E. congruence.
    - apply Qeq_bool_iff in E'. rewrite <- Hy in E'.
      apply Qeq_bool_iff in E'. congruence. }
  assert (Ex : Qeq_bool x 0 = Qeq_bool x' 0).
  { destruct (Qeq_bool x 0) eqn:E, (Qeq_bool x' 0) eqn:E'; auto.
    - apply Qeq_bool_iff in E. rewrite Hx in E.
      apply Qeq_bool_iff in E. congruence.
    - apply Qeq_bool_iff in E'. rewrite <- Hx in E'.
      apply Qeq_bool_iff in E'. congruence. }
  assert (Es : Qle_bool 0 x = Qle_bool 0 x').
  { destruct (Qle_bool 0 x) eqn:E, (Qle_bool 0 x') eqn:E'; auto.
    - apply Qle_bool_iff in E. rewrite Hx in E.
      apply Qle_bool_iff in E. congruence.
    - apply Qle_bool_iff in E'. rewrite <- Hx in E'.
      apply Qle_bool_iff in E'. congruence. }
  rewrite <- Ey, <- Ex, <- Es.
  destruct (Qeq_bool y 0); [|cbn; now rewrite Hx, Hy].
  destruct (Qeq_bool x 0); [exact I|].
  destruct (Qle_bool 0 x); exact I.
Qed.

Lemma sumseq3_zero_terms (c h w : nat) (f : nat -> nat -> nat -> Q)
  (ch y x : nat) :
  (forall ch y x, 0 <= f ch y x) ->
  sumseq3 c h w f == 0 ->
  (ch < c)%nat -> (y < h)%nat -> (x < w)%nat -> f ch y x == 0.
Proof.
  intros Hpos Hsum Hch Hy Hx. apply Qle_antisym; [|apply Hpos].
  rewrite <- Hsum. now apply sumseq3_ge_term.
Qed.

Section PooledMeans.

Variable MASK : list (string * Q).
Variables n c h w : nat.
Variables mask image : list (list (list (list Q))).
Hypothesis Hmask : rect4 n c h w mask.
Hypothesis Himage : rect4 n c h w image.

Let S := sum_axes234 (ref_splitted MASK mask image).
Let P := sum_axes234 (square5 (ref_splitted MASK mask image)).
Let N := sum_axes234 (reshape_count (ref_count MASK mask)).
Let ratio := fun xs c0 : Q => if Qeq_bool c0 0 then 0 else xs / c0.
Let mean := zip2 ratio S N.
Let var := zip2 (fun p m : Q => p - m * m) (zip2 ratio P N) mean.

Lemma ref_stats :
  split_to_mean_var (ref_splitted MASK mask image)
    (square5 (ref_splitted MASK mask image))
    (reshape_count (ref_count MASK mask))
  = Ok (mean, var, N).
Proof.
  destruct (ref_shapes MASK n c h w mask image Hmask Himage) as [Hs Hp].
  now apply split_to_mean_var_spec.
Qed.

Lemma S_entry (ci b : nat) :
  (ci < len_MASK MASK)%nat -> (b < n)%nat ->
  get2 S ci b == class_sum MASK c h w mask image ci b.
Proof. intros; now apply ref_sum_entry with (n := n). Qed.

Lemma N_entry (ci b : nat) :
  (ci < len_MASK MASK)%nat -> (b < n)%nat ->
  get2 N ci b == class_count MASK c h w mask ci b.
Proof. intros; now apply ref_count_entry with (n := n). Qed.

Lemma class_count_zero_sum (ci b : nat) :
  class_count MASK c h w mask ci b == 0 ->
  class_sum MASK c h w mask image ci b == 0.
Proof.
  intros Hz. unfold class_sum, sumseq3.
  apply sumseq_zero; intros ch Hch.
  apply sumseq_zero; intros y Hy.
  apply sumseq_zero; intros x Hx.
  assert (Hind :
    indicator (Qeq_bool (get4 mask b ch y x) (class_value MASK ci)) == 0).
  { apply (sumseq3_zero_terms c h w
             (fun ch y x => indicator (Qeq_bool (get4 mask b ch y x)
                                         (class_value MASK ci))));
      try assumption.
    intros ch' y' x'. unfold indicator.
    destruct (Qeq_bool (get4 mask b ch' y' x') (class_value MASK ci));
      unfold Qle; cbn; lia. }
  unfold indicator in Hind.
  destruct (Qeq_bool (get4 mask b ch y x) (class_value MASK ci));
    [|reflexivity].
  exfalso. revert Hind. unfold Qeq. cbn. lia.
Qed.

Lemma same_shape_S_N : same_shape2 S N.
Proof. apply (ref_shapes MASK n c h w mask image Hmask Himage). Qed.

Lemma length_N : length N = len_MASK MASK.
Proof. apply length_ref_count_reduced. Qed.

Lemma length_N_row (ci : nat) :
  (ci < len_MASK MASK)%nat -> length (nth ci N []) = n.
Proof. intros; now apply length_nth_ref_count_reduced with (c := c) (h := h) (w := w). Qed.

Lemma mean_entry (ci b : nat) :
  (ci < len_MASK MASK)%nat -> (b < n)%nat ->
  get2 mean ci b = ratio (get2 S ci b) (get2 N ci b).
Proof.
  intros Hci Hb. unfold mean. apply get2_zip2.
  - exact same_shape_S_N.
  - now rewrite length_N.
  - now rewrite length_N_row.
Qed.

Lemma mean_times_count (ci b : nat) :
  (ci < len_MASK MASK)%nat -> (b < n)%nat ->
  get2 mean ci b * get2 N ci b == get2 S ci b.
Proof.
  intros Hci Hb. rewrite mean_entry by assumption. unfold ratio.
  destruct (Qeq_bool (get2 N ci b) 0) eqn:E.
  - apply Qeq_bool_iff in E. rewrite E.
    rewrite S_entry by assumption.
    rewrite class_count_zero_sum; [ring|].
    now rewrite <- N_entry.
  - field. intros Hz. apply Qeq_bool_iff in Hz. congruence.
Qed.

Lemma same_shape_mean_N : same_shape2 mean N.
Proof. apply zip2_same_shape, same_shape_S_N. Qed.

Lemma n_columns_mean : MASK <> [] -> n_columns mean = n.
Proof.
  intros Hne. unfold n_columns.
  assert (Hm : (0 < len_MASK MASK)%nat).
  { unfold len_MASK. destruct MASK; [contradiction | cbn; lia]. }
  replace (hd [] mean) with (nth 0 mean []) by now destruct mean.
  rewrite (same_shape2_nth _ _ 0 same_shape_mean_N).
  now apply length_N_row.
Qed.

Lemma slice_mean_pooled (start : nat) (stop : option nat) :
  MASK <> [] ->
  exists v,
    slice_mean mean N start stop = Ok v /\
    length v = n /\
    forall b, (b < n)%nat ->
      exists r,
        nth_error v b = Some r /\
        same_float r
          (pooled_mean MASK c h w mask image
             (sliced_classes MASK start stop) b).
Proof.
  intros Hne. unfold slice_mean.
  rewrite (elemwise2_ok Qmult _ _
             (same_shape2_slice start stop _ _ same_shape_mean_N)).
  cbn [bind]. rewrite n_columns_mean by assumption.
  eexists. split; [reflexivity|].
  assert (Hlen : forall t : list (list Q), length (sum_axis0 n t) = n)
    by (intros; unfold sum_axis0; now rewrite length_map, length_seq).
  split.
  { now rewrite length_map, length_combine, !Hlen, Nat.min_id. }
  intros b Hb. eexists. split.
  { rewrite nth_error_map.
    rewrite (nth_error_nth' _ (0, 0)) by
      (now rewrite length_combine, !Hlen, Nat.min_id).
    rewrite combine_nth by now rewrite !Hlen. cbn [option_map fst snd].
    reflexivity. }
  unfold pooled_mean. fold (get1 (sum_axis0 n
    (zip2 Qmult (slice start stop mean) (slice start stop N))) b).
  fold (get1 (sum_axis0 n (slice start stop N)) b).
  rewrite <- slice_zip2, !sum_axis0_slice by assumption.
  assert (Hzl : length (zip2 Qmult mean N) = len_MASK MASK).
  { unfold zip2. rewrite length_map, length_combine.
    rewrite (same_shape2_length _ _ same_shape_mean_N), length_N.
    apply Nat.min_id. }
  rewrite Hzl, length_N. fold (sliced_classes MASK start stop).
  assert (Hin : forall ci, In ci (sliced_classes MASK start stop) ->
                           (ci < len_MASK MASK)%nat).
  { intros ci Hci. apply slice_incl in Hci. apply in_seq in Hci. lia. }
  apply fdiv_compat.
  - apply sum1_ext_map. intros ci Hci. apply Hin in Hci.
    rewrite get2_zip2.
    + rewrite mean_times_count by assumption. now apply S_entry.
    + exact same_shape_mean_N.
    + now rewrite length_N.
    + now rewrite length_N_row.
  - apply sum1_ext_map. intros ci Hci. apply Hin in Hci. now apply N_entry.
Qed.

End PooledMeans.

Lemma firstn_of_seq (k start len : nat) :
  firstn k (seq start len) = seq start (Nat.min k len).
Proof.
  revert start len. induction k as [|k IH]; intros start [|len];
    try reflexivity.
  cbn. now rewrite IH.
Qed.

Lemma sliced_classes_before (MASK : list (string * Q)) (i : nat) :
  (i <= len_MASK MASK)%nat -> sliced_classes MASK 0 (Some i) = seq 0 i.
Proof.
  intros H. unfold sliced_classes, slice. cbn [skipn].
  rewrite firstn_of_seq. f_equal. lia.
Qed.

Lemma sliced_classes_after (MASK : list (string * Q)) (i : nat) :
  sliced_classes MASK (i + 1) None =
  seq (S i) (len_MASK MASK - S i).
Proof.
  unfold sliced_classes, slice. rewrite skipn_seq. f_equal; lia.
Qed.

Lemma sliced_classes_window (MASK : list (string * Q)) (i : nat) :
  sliced_classes MASK i (Some (i + 2)%nat) =
  seq i (Nat.min 2 (len_MASK MASK - i)).
Proof.
  unfold sliced_classes, slice. rewrite firstn_of_seq, skipn_seq.
  f_equal; lia.
Qed.

Lemma keys_nonempty (MASK : list (string * Q)) (key : string) (i : nat) :
  list_index key (map fst MASK) = Ok i -> MASK <> [].
Proof. intros H ->. discriminate. Qed.

Lemma segment_means_reference (MASK : list (string * Q))
  (device impl : string) (grid_idx image : tvar) (n c h w i : nat) :
  fst (get_split_mask_fn device impl) = TheanoSplitMask ->
  rect4 n c h w (nd_data (v_array grid_idx)) ->
  rect4 n c h w (nd_data (v_array image)) ->
  list_index "IGNORE" (map fst MASK) = Ok i ->
  exists black white ign,
    segment_means MASK device impl grid_idx image = Ok (black, white, ign) /\
    (length black = n /\ length white = n /\ length ign = n) /\
    forall b, (b < n)%nat ->
      exists rb rw ri,
        nth_error black b = Some rb /\ nth_error white b = Some rw /\
        nth_error ign b = Some ri /\
        same_float rb
          (pooled_mean MASK c h w (nd_data (v_array grid_idx))
             (nd_data (v_array image)) (sliced_classes MASK 0 (Some i)) b) /\
        same_float rw
          (pooled_mean MASK c h w (nd_data (v_array grid_idx))
             (nd_data (v_array image))
             (sliced_classes MASK (i + 1) None) b) /\
        same_float ri
          (pooled_mean MASK c h w (nd_data (v_array grid_idx))
             (nd_data (v_array image))
             (sliced_classes MASK i (Some (i + 2)%nat)) b).
Proof.
  intros Hfn Hm Hi Hidx.
  pose proof (keys_nonempty MASK _ _ Hidx) as Hne.
  unfold segment_means. rewrite Hfn.
  assert (Hbuild : build_split_fn MASK TheanoSplitMask grid_idx image = Ok tt).
  { unfold build_split_fn. destruct MASK; [contradiction | reflexivity]. }
  rewrite Hbuild. cbn [bind]. rewrite Hidx. cbn [bind call_split_fn].
  rewrite (theano_split_mask_same MASK n c h w _ _ Hne Hm Hi). cbn [bind].
  rewrite (ref_stats MASK n c h w _ _ Hm Hi). cbn [bind].
  destruct (slice_mean_pooled MASK n c h w _ _ Hm Hi 0 (Some i) Hne)
    as (vb & Eb & Lb & Hb).
  destruct (slice_mean_pooled MASK n c h w _ _ Hm Hi (i + 1) None Hne)
    as (vw & Ew & Lw & Hw).
  destruct (slice_mean_pooled MASK n c h w _ _ Hm Hi i (Some (i + 2)%nat) Hne)
    as (vi & Ei & Li & Hig).
  rewrite Eb. cbn [bind]. rewrite Ew. cbn [bind]. rewrite Ei. cbn [bind].
  exists vb, vw, vi. split; [reflexivity|]. split; [auto|].
  intros b Hlt.
  destruct (Hb b Hlt) as (rb & Hrb & Hsb).
  destruct (Hw b Hlt) as (rw & Hrw & Hsw).
  destruct (Hig b Hlt) as (ri & Hri & Hsi).
  exists rb, rw, ri. auto 6.
Qed.

(** On the reference path, with label map and image of one shape and
    "IGNORE" the class of index [i], [segment_means] returns: for every
    image, [black_mean] is the mean of all its pixels labelled with a
    class before "IGNORE", [white_mean] the mean of all its pixels
    labelled with a class after "IGNORE", and [ignore_mean] the mean of
    its pixels labelled "IGNORE" or with the class right after it. A mean
    over no pixel at all is 0/0, NaN. *)
Theorem segment_means_are_pooled_means (MASK : list (string * Q))
  (device impl : string) (grid_idx image : tvar) (n c h w i : nat) :
  fst (get_split_mask_fn device impl) = TheanoSplitMask ->
  rect4 n c h w (nd_data (v_array grid_idx)) ->
  rect4 n c h w (nd_data (v_array image)) ->
  list_index "IGNORE" (map fst MASK) = Ok i ->
  exists black white ign,
    segment_means MASK device impl grid_idx image = Ok (black, white, ign) /\
    forall b, (b < n)%nat ->
      exists rb rw ri,
        nth_error black b = Some rb /\ nth_error white b = Some rw /\
        nth_error ign b = Some ri /\
        same_float rb
          (pooled_mean MASK c h w (nd_data (v_array grid_idx))
             (nd_data (v_array image)) (seq 0 i) b) /\
        same_float rw
          (pooled_mean MASK c h w (nd_data (v_array grid_idx))
             (nd_data (v_array image))
             (seq (S i) (len_MASK MASK - S i)) b) /\
        same_float ri
          (pooled_mean MASK c h w (nd_data (v_array grid_idx))
             (nd_data (v_array image))
             (seq i (Nat.min 2 (len_MASK MASK - i))) b).
Proof.
  intros Hfn Hm Hi Hidx.
  destruct (segment_means_reference MASK device impl grid_idx image
              n c h w i Hfn Hm Hi Hidx)
    as (black & white & ign & Hret & _ & Hall).
  exists black, white, ign. split; [exact Hret|].
  intros b Hb. destruct (Hall b Hb) as (rb & rw & ri & H).
  exists rb, rw, ri.
  rewrite sliced_classes_before, sliced_classes_after,
    sliced_classes_window in H; [exact H|].
  apply list_index_Some in Hidx as [_ Hlt].
  unfold len_MASK. rewrite length_map in Hlt. lia.
Qed.

(** When "IGNORE" is the first class there is no class before it, and
    [black_mean] is NaN for every image. *)
Theorem segment_means_no_black_class (MASK : list (string * Q))
  (device impl : string) (grid_idx image : tvar) (n c h w : nat) :
  fst (get_split_mask_fn device impl) = TheanoSplitMask ->
  rect4 n c h w (nd_data (v_array grid_idx)) ->
  rect4 n c h w (nd_data (v_array image)) ->
  list_index "IGNORE" (map fst MASK) = Ok 0%nat ->
  exists black white ign,
    segment_means MASK device impl grid_idx image = Ok (black, white, ign) /\
    black = repeat NaN n.
Proof.
  intros Hfn Hm Hi Hidx.
  destruct (segment_means_reference MASK device impl grid_idx image
              n c h w 0 Hfn Hm Hi Hidx)
    as (black & white & ign & Hret & (Hlen & _) & Hall).
  exists black, white, ign. split; [exact Hret|].
  apply nth_ext with (d := NaN) (d' := NaN);
    [now rewrite repeat_length|].
  intros b Hb. rewrite Hlen in Hb.
  destruct (Hall b Hb) as (rb & _ & _ & Hrb & _ & _ & Hs & _).
  rewrite (nth_error_nth _ _ NaN Hrb).
  rewrite nth_repeat.
  rewrite sliced_classes_before in Hs by lia.
  unfold pooled_mean in Hs. cbn in Hs. now destruct rb.
Qed.

(** Without a class named "IGNORE" the graph of [segment_means] cannot be
    built: once the split function has accepted its arguments, the
    look-up of the key raises [ValueError], whatever the input data. *)
Theorem segment_means_needs_IGNORE (MASK : list (string * Q))
  (device impl : string) (grid_idx image : tvar) :
  build_split_fn MASK (fst (get_split_mask_fn device impl)) grid_idx image
  = Ok tt ->
  ~ In "IGNORE"%string (map fst MASK) ->
  segment_means MASK device impl grid_idx image
  = Raise (ValueError "'IGNORE' is not in list").
Proof.
  intros Hbuild Hnot. unfold segment_means. rewrite Hbuild. cbn [bind].
  now rewrite (list_index_missing "IGNORE" _ Hnot).
Qed.

(** * More on the reference implementation *)

(** The reference implementation never truncates a batch: when the label
    map and the image differ in their number of images, and the label map
    is not a single image, assigning the counts of the first class fails
    with [ValueError]. *)
Theorem theano_split_mask_batch_mismatch (MASK : list (string * Q))
  (mask_idx image : list (list (list (list Q)))) :
  MASK <> [] ->
  length mask_idx <> length image -> length mask_idx <> 1%nat ->
  exists msg,
    theano_split_mask MASK mask_idx image = Raise (ValueError msg).
Proof.
  intros Hne Hlen H1. unfold theano_split_mask.
  destruct MASK as [|[name v] rest]; [contradiction|].
  cbn [split_loop len_MASK length zeros2 repeat].
  unfold set_subtensor_row. cbn [nth_error].
  assert (Hv : length (idx_sum_axes123 (T_eq mask_idx v)) = length mask_idx)
    by (unfold idx_sum_axes123, T_eq; now rewrite !length_map).
  unfold zeros1 at 1. rewrite repeat_length, Hv.
  destruct (Nat.eqb_spec (length mask_idx) (length image)) as [E|_];
    [contradiction|].
  destruct (idx_sum_axes123 (T_eq mask_idx v)) as [|q [|q' l]] eqn:El;
    cbn in Hv.
  - eexists. reflexivity.
  - congruence.
  - eexists. reflexivity.
Qed.

Lemma theano_split_mask_batch_mismatch_witness :
  exists msg,
    theano_split_mask MASK_AB [labels_2x2; labels_2x2] [pixels_2x2]
    = Raise (ValueError msg).
Proof.
  apply theano_split_mask_batch_mismatch; cbn; [discriminate | lia | lia].
Defined.

Lemma get4_ref_splitted (MASK : list (string * Q)) (n c h w : nat)
  (mask_idx image : list (list (list (list Q)))) (ci b ch y x : nat) :
  rect4 n c h w mask_idx -> rect4 n c h w image ->
  (ci < len_MASK MASK)%nat ->
  (b < n)%nat -> (ch < c)%nat -> (y < h)%nat -> (x < w)%nat ->
  get4 (nth ci (ref_splitted MASK mask_idx image) []) b ch y x ==
  get4 image b ch y x *
  indicator (Qeq_bool (get4 mask_idx b ch y x) (class_value MASK ci)).
Proof.
  intros Hm Hi Hci Hb Hch Hy Hx.
  rewrite nth_ref_splitted by assumption.
  fold (class_value MASK ci).
  rewrite (get4_select4_T_eq n c h w) by assumption.
  unfold indicator.
  destruct (Qeq_bool (get4 mask_idx b ch y x) (class_value MASK ci)); ring.
Qed.

(** The class volumes of the reference implementation partition the
    image: for a label map and an image of one shape, labels that all
    belong to the enumeration and pairwise distinct class values, the sum
    volumes add up, position by position, to the image, and the square
    volumes to its square. *)
Theorem class_volumes_partition_image (MASK : list (string * Q))
  (n c h w : nat) (mask_idx image : list (list (list (list Q)))) :
  MASK <> [] -> distinct_values MASK ->
  rect4 n c h w mask_idx -> rect4 n c h w image ->
  (forall b ch y x,
      (b < n)%nat -> (ch < c)%nat -> (y < h)%nat -> (x < w)%nat ->
      in_enumeration MASK (get4 mask_idx b ch y x)) ->
  exists sum pow count,
    theano_split_mask MASK mask_idx image = Ok (sum, pow, count) /\
    forall b ch y x,
      (b < n)%nat -> (ch < c)%nat -> (y < h)%nat -> (x < w)%nat ->
      sumseq (len_MASK MASK) (fun ci => get4 (nth ci sum []) b ch y x)
      == get4 image b ch y x /\
      sumseq (len_MASK MASK) (fun ci => get4 (nth ci pow []) b ch y x)
      == get4 image b ch y x * get4 image b ch y x.
Proof.
  intros Hne Hd Hm Hi Hin. do 3 eexists.
  split; [now apply theano_split_mask_same
            with (n := n) (c := c) (h := h) (w := w)|].
  intros b ch y x Hb Hch Hy Hx.
  pose proof (class_indicator_sum MASK (get4 mask_idx b ch y x) Hd
                (Hin b ch y x Hb Hch Hy Hx)) as Hone.
  split.
  - transitivity
      (sumseq (len_MASK MASK) (fun ci =>
         get4 image b ch y x *
         indicator (Qeq_bool (get4 mask_idx b ch y x)
                      (class_value MASK ci)))).
    + apply sumseq_ext. intros ci Hci.
      now apply get4_ref_splitted with (n := n) (c := c) (h := h) (w := w).
    + rewrite sumseq_scal. unfold class_value. rewrite Hone. ring.
  - transitivity
      (sumseq (len_MASK MASK) (fun ci =>
         (get4 image b ch y x * get4 image b ch y x) *
         indicator (Qeq_bool (get4 mask_idx b ch y x)
                      (class_value MASK ci)))).
    + apply sumseq_ext. intros ci Hci.
      unfold square5.
      rewrite (nth_map_in _ _ []) by now rewrite length_ref_splitted.
      rewrite (get4_map4 sqr n c h w); try assumption.
      * rewrite nth_ref_splitted by assumption.
        fold (class_value MASK ci).
        rewrite (get4_select4_T_eq n c h w) by assumption.
        unfold sqr, indicator.
        destruct (Qeq_bool (get4 mask_idx b ch y x) (class_value MASK ci));
          ring.
      * rewrite nth_ref_splitted by assumption. now apply select4_rect.
    + rewrite sumseq_scal. unfold class_value. rewrite Hone. ring.
Qed.

Lemma class_volumes_partition_image_witness :
  exists sum pow count,
    theano_split_mask MASK_AB labels_4x4 image_4x4 = Ok (sum, pow, count) /\
    forall b ch y x,
      (b < 1)%nat -> (ch < 1)%nat -> (y < 4)%nat -> (x < 4)%nat ->
      sumseq (len_MASK MASK_AB) (fun ci => get4 (nth ci sum []) b ch y x)
      == get4 image_4x4 b ch y x /\
      sumseq (len_MASK MASK_AB) (fun ci => get4 (nth ci pow []) b ch y x)
      == get4 image_4x4 b ch y x * get4 image_4x4 b ch y x.
Proof.
  exact (class_volumes_partition_image MASK_AB 1 1 4 4 labels_4x4 image_4x4
           MASK_AB_nonempty distinct_values_MASK_AB
           rect4_labels_4x4 rect4_image_4x4 labels_4x4_in_enumeration).
Defined.

(** * The median *)

Lemma length_insert_sorted (x : Q) (l : list Q) :
  length (insert_sorted x l) = S (length l).
Proof.
  induction l as [|y l IH]; [reflexivity|].
  cbn. destruct (Qle_bool x y); cbn; [reflexivity | now rewrite IH].
Qed.

Lemma length_sort_last (l : list Q) : length (sort_last l) = length l.
Proof.
  unfold sort_last. induction l as [|x l IH]; [reflexivity|].
  cbn. now rewrite length_insert_sorted, IH.
Qed.

Lemma length_concat_rect (h w : nat) (rows : list (list Q)) :
  rect2 h w rows -> length (concat rows) = (h * w)%nat.
Proof.
  intros [Hh Hw]. subst h. induction rows as [|r rows IH]; [reflexivity|].
  inversion Hw as [|? ? Hr Hrest]; subst. cbn.
  rewrite length_app, IH by assumption. unfold rect1 in Hr. lia.
Qed.

Lemma mapM_pure {A B : Type} (f : A -> result B) (g : A -> B) (l : list A) :
  (forall a, In a l -> f a = Ok (g a)) -> mapM f l = Ok (map g l).
Proof.
  induction l as [|a l IH]; intros H; [reflexivity|].
  cbn. rewrite (H a) by now left. cbn.
  rewrite IH by (intros; apply H; now right). reflexivity.
Qed.

Lemma mapM_map {A B C : Type} (f : B -> result C) (g : A -> B) (l : list A) :
  mapM f (map g l) = mapM (fun a => f (g a)) l.
Proof.
  induction l as [|a l IH]; [reflexivity|]. cbn. now rewrite IH.
Qed.

Lemma median_index_bounds (pixels : nat) (cnt : Q) :
  0 <= cnt -> cnt < inject_Z (Z.of_nat pixels) ->
  (Z.of_nat pixels / 2 <=
   Qfloor ((inject_Z (Z.of_nat pixels) + cnt) / 2) < Z.of_nat pixels)%Z.
Proof.
  intros H0 H1.
  set (p := inject_Z (Z.of_nat pixels)) in *.
  split.
  - rewrite Zdiv_Qdiv. apply Qfloor_resp_le. fold p.
    change (inject_Z 2) with 2. unfold Qdiv. change (/ 2) with (1 # 2). lra.
  - rewrite Zlt_Qlt. fold p.
    apply Qle_lt_trans with ((p + cnt) / 2); [apply Qfloor_le|].
    unfold Qdiv. change (/ 2) with (1 # 2). lra.
Qed.

(** [median] does not read slot by slot. Every index it computes,
    [(pixels + count) // 2], is used on the flattened sorted array, and
    for counts from 0 up to (not including) the number of pixels it lies
    in the first sorted row: each median returned is an entry of the
    sorted pixels of the first class volume of the first image (its upper
    half), whatever the slot it is returned for. *)
Theorem median_reads_first_row (grid_split_image : tensor5)
  (grid_counts : tensor2) (m n c h w : nat) :
  length grid_split_image = m ->
  Forall (rect4 n c h w) grid_split_image ->
  (0 < m)%nat -> (0 < n)%nat -> (0 < c)%nat ->
  (forall row cnt,
      In row grid_counts -> In cnt row ->
      0 <= cnt /\ cnt < inject_Z (Z.of_nat (h * w))) ->
  let first_row :=
    sort_last (concat (nth 0 (nth 0 (nth 0 grid_split_image []) []) [])) in
  let index := fun cnt : Q =>
    Z.to_nat (Qfloor ((inject_Z (Z.of_nat (h * w)) + cnt) / 2)) in
  median grid_split_image grid_counts =
  Ok (map (map (fun cnt => nth (index cnt) first_row 0)) grid_counts)
  /\ (forall row cnt,
         In row grid_counts -> In cnt row ->
         (h * w / 2 <= index cnt < h * w)%nat).
Proof.
  intros Hm Hrect Hm0 Hn0 Hc0 Hcnt first_row index.
  destruct grid_split_image as [|v0 vs]; [cbn in Hm; lia|].
  inversion Hrect as [|? ? [Hn Hv0] _]; subst.
  destruct v0 as [|i0 imgs]; [cbn in Hn0; lia|].
  inversion Hv0 as [|? ? [Hc Hi0] _]; subst.
  destruct i0 as [|c0 cs]; [cbn in Hc0; lia|].
  inversion Hi0 as [|? ? Hc0r _]; subst.
  cbn [nth] in first_row.
  assert (Hlen : length first_row = (h * w)%nat).
  { unfold first_row. rewrite length_sort_last.
    now apply length_concat_rect. }
  assert (Hidx : forall row cnt, In row grid_counts -> In cnt row ->
            (Z.of_nat (h * w) / 2 <=
             Qfloor ((inject_Z (Z.of_nat (h * w)) + cnt) / 2)
             < Z.of_nat (h * w))%Z).
  { intros row cnt Hr Hq. destruct (Hcnt row cnt Hr Hq).
    now apply median_index_bounds. }
  split.
  - unfold median. cbv zeta.
    assert (Hpix : last_axis
              (map (map (map sort_last))
                 (reshape_last2 (((c0 :: cs) :: imgs) :: vs))) = (h * w)%nat).
    { unfold last_axis. cbn. exact Hlen. }
    rewrite Hpix.
    assert (Hflat : exists rest,
              flatten4 (map (map (map sort_last))
                          (reshape_last2 (((c0 :: cs) :: imgs) :: vs)))
              = first_row ++ rest).
    { unfold flatten4, reshape_last2. cbn [map concat].
      rewrite <- !app_assoc. eexists. reflexivity. }
    destruct Hflat as [rest Hflat]. rewrite Hflat.
    rewrite mapM_map.
    apply mapM_pure. intros row Hr. rewrite mapM_map.
    apply mapM_pure. intros cnt Hq.
    destruct (Hidx row cnt Hr Hq) as [Hlo Hhi].
    assert (Hnonneg : (0 <= Z.of_nat (h * w) / 2)%Z)
      by (apply Z.div_pos; lia).
    unfold take_flat. rewrite length_app, Hlen.
    replace (0 <=? Qfloor ((inject_Z (Z.of_nat (h * w)) + cnt) / 2))%Z
      with true by (symmetry; apply Z.leb_le; lia).
    replace (Qfloor ((inject_Z (Z.of_nat (h * w)) + cnt) / 2)
             <? Z.of_nat (h * w + length rest))%Z
      with true by (symmetry; apply Z.ltb_lt; lia).
    cbn [andb]. f_equal. apply app_nth1. rewrite Hlen. unfold index. lia.
  - intros row cnt Hr Hq. destruct (Hidx row cnt Hr Hq) as [Hlo Hhi].
    unfold index.
    assert (Hnonneg : (0 <= Z.of_nat (h * w) / 2)%Z)
      by (apply Z.div_pos; lia).
    split.
    + apply Nat2Z.inj_le. rewrite Nat2Z.inj_div, Z2Nat.id by lia.
      exact Hlo.
    + lia.
Qed.

Lemma median_reads_first_row_witness :
  median volumes_two_classes counts_two_classes = Ok [[2]; [3]] /\
  nth 0 (nth 0 (nth 1 volumes_two_classes []) []) []
  = [[13; 11]; [12; 10]].
Proof.
  split; [|reflexivity].
  destruct (median_reads_first_row volumes_two_classes counts_two_classes
              2 1 1 2 2) as [Hret _].
  - reflexivity.
  - repeat constructor.
  - lia.
  - lia.
  - lia.
  - intros row cnt [<-|[<-|[]]] [<-|[]]; split;
      [discriminate | reflexivity | discriminate | reflexivity].
  - exact Hret.
Defined.

Lemma segment_means_are_pooled_means_witness :
  exists black white ign,
    segment_means MASK_RING "cpu" "auto" (f32 [1; 1; 4; 4]%Z labels_4x4)
      (f32 [1; 1; 4; 4]%Z image_4x4) = Ok (black, white, ign) /\
    forall b, (b < 1)%nat ->
      exists rb rw ri,
        nth_error black b = Some rb /\ nth_error white b = Some rw /\
        nth_error ign b = Some ri /\
        same_float rb
          (pooled_mean MASK_RING 1 4 4 labels_4x4 image_4x4 (seq 0 1) b) /\
        same_float rw
          (pooled_mean MASK_RING 1 4 4 labels_4x4 image_4x4 (seq 2 1) b) /\
        same_float ri
          (pooled_mean MASK_RING 1 4 4 labels_4x4 image_4x4 (seq 1 2) b).
Proof.
  exact (segment_means_are_pooled_means MASK_RING "cpu" "auto"
           (f32 [1; 1; 4; 4]%Z labels_4x4) (f32 [1; 1; 4; 4]%Z image_4x4)
           1 1 4 4 1 eq_refl rect4_labels_4x4 rect4_image_4x4 eq_refl).
Defined.

Lemma segment_means_no_black_class_witness :
  exists black white ign,
    segment_means MASK_IGNORE_FIRST "cpu" "theano"
      (f32 [1; 1; 4; 4]%Z labels_4x4) (f32 [1; 1; 4; 4]%Z image_4x4)
    = Ok (black, white, ign) /\
    black = [NaN].
Proof.
  exact (segment_means_no_black_class MASK_IGNORE_FIRST "cpu" "theano"
           (f32 [1; 1; 4; 4]%Z labels_4x4) (f32 [1; 1; 4; 4]%Z image_4x4)
           1 1 4 4 eq_refl rect4_labels_4x4 rect4_image_4x4 eq_refl).
Defined.

Lemma segment_means_needs_IGNORE_witness :
  segment_means MASK_AB "cpu" "auto" (f32 [1; 1; 4; 4]%Z labels_4x4)
    (f32 [1; 1; 4; 4]%Z image_4x4)
  = Raise (ValueError "'IGNORE' is not in list").
Proof.
  apply segment_means_needs_IGNORE.
  - reflexivity.
  - intros [H|[H|[]]]; discriminate.
Defined.

(** * The loss on the statistics of the classes *)

Lemma mapM_lookup_cases {B : Type} (g : nat -> B) (keys l : list string) :
  ((forall k, In k l -> In k keys) /\
   exists r,
     mapM (fun k => i <- list_index k keys ;; Ok (g i)) l = Ok r /\
     length r = length l /\
     Forall (fun x => exists i, (i < length keys)%nat /\ x = g i) r)
  \/ (exists k,
        In k l /\ ~ In k keys /\
        mapM (fun k => i <- list_index k keys ;; Ok (g i)) l
        = Raise (ValueError
                   (String.append "'" (String.append k "' is not in list")))).
Proof.
  induction l as [|a l IH].
  - left. split; [intros k []|]. exists [].
    split; [reflexivity|]. split; [reflexivity | constructor].
  - destruct (in_dec string_dec a keys) as [Ha|Ha].
    + destruct (list_index_present a keys Ha) as [i Hi].
      destruct IH as [[Hall (r & Hr & Hlen & Hfa)]|(k & Hk & Hnk & Hr)].
      * left. split.
        { intros k [<-|Hk]; auto. }
        exists (g i :: r). cbn. rewrite Hi. cbn. rewrite Hr. cbn.
        split; [reflexivity|]. split; [now rewrite Hlen|].
        constructor; [|exact Hfa].
        exists i. split; [|reflexivity].
        now apply list_index_Some in Hi.
      * right. exists k. split; [now right|]. split; [exact Hnk|].
        cbn. rewrite Hi. cbn. rewrite Hr. reflexivity.
    + right. exists a. split; [now left|]. split; [exact Ha|].
      cbn. now rewrite (list_index_missing a keys Ha).
Qed.

(** [mask_loss] needs the classes "IGNORE", "BACKGROUND_RING" and
    "OUTER_WHITE_RING" and every key of [MASK_BLACK] and [MASK_WHITE] in
    the enumeration: once the split function has accepted its arguments,
    a missing key makes the call raise [ValueError] for one of the
    missing keys, whatever the images are. *)
Theorem mask_loss_missing_key (MASK : list (string * Q))
  (MASK_BLACK MASK_WHITE : list string) (device impl : string)
  (mask_image image : tvar) (scale : py_num) (mean_weight var_weight : Q) :
  build_split_fn MASK (fst (get_split_mask_fn device impl)) mask_image image
  = Ok tt ->
  (exists k,
      In k ("IGNORE" :: "BACKGROUND_RING" :: "OUTER_WHITE_RING"
              :: MASK_BLACK ++ MASK_WHITE)%string /\
      ~ In k (map fst MASK)) ->
  exists k,
    In k ("IGNORE" :: "BACKGROUND_RING" :: "OUTER_WHITE_RING"
            :: MASK_BLACK ++ MASK_WHITE)%string /\
    ~ In k (map fst MASK) /\
    mask_loss MASK MASK_BLACK MASK_WHITE device impl mask_image image
      scale mean_weight var_weight
    = Raise (ValueError
               (String.append "'" (String.append k "' is not in list"))).
Proof.
  intros Hbuild (k0 & Hk0 & Hmiss0).
  unfold mask_loss. rewrite Hbuild. cbn [bind].
  destruct (in_dec string_dec "IGNORE"%string (map fst MASK)) as [H1|H1];
    [|exists "IGNORE"%string; split; [now left|]; split; [exact H1|];
      now rewrite (list_index_missing _ _ H1)].
  destruct (list_index_present _ _ H1) as [i Hi]. rewrite Hi. cbn [bind].
  destruct (in_dec string_dec "BACKGROUND_RING"%string (map fst MASK))
    as [H2|H2];
    [|exists "BACKGROUND_RING"%string; split; [right; now left|];
      split; [exact H2|]; now rewrite (list_index_missing _ _ H2)].
  destruct (list_index_present _ _ H2) as [bg Hbg]. rewrite Hbg. cbn [bind].
  destruct (in_dec string_dec "OUTER_WHITE_RING"%string (map fst MASK))
    as [H3|H3];
    [|exists "OUTER_WHITE_RING"%string; split; [right; right; now left|];
      split; [exact H3|]; now rewrite (list_index_missing _ _ H3)].
  destruct (list_index_present _ _ H3) as [ow How]. rewrite How. cbn [bind].
  destruct (mapM_lookup_cases
              (fun i => mk_cell i true mean_weight var_weight)
              (map fst MASK) MASK_BLACK)
    as [[Hb (rb & Hrb & _)]|(k & Hk & Hnk & Hr)].
  2:{ exists k. split; [do 3 right; apply in_or_app; now left|].
      split; [exact Hnk|]. now rewrite Hr. }
  rewrite Hrb. cbn [bind].
  destruct (mapM_lookup_cases
              (fun i => mk_cell i false mean_weight var_weight)
              (map fst MASK) MASK_WHITE)
    as [[Hw _]|(k & Hk & Hnk & Hr)].
  2:{ exists k. split; [do 3 right; apply in_or_app; now right|].
      split; [exact Hnk|].
      change (mapM _ MASK_WHITE) with
        (mapM (fun k => i <- list_index k (map fst MASK) ;;
                        Ok (mk_cell i false mean_weight var_weight))
           MASK_WHITE).
      now rewrite Hr. }
  exfalso. apply Hmiss0.
  destruct Hk0 as [<-|[<-|[<-|Hk0]]]; auto.
  apply in_app_or in Hk0 as [Hk0|Hk0]; auto.
Qed.

Lemma mask_loss_missing_key_witness :
  exists k,
    mask_loss MASK_AB [] [] "cpu" "auto" (f32 [1; 1; 4; 4]%Z labels_4x4)
      (f32 [1; 1; 4; 4]%Z image_4x4) (PyInt 50) 1 4
    = Raise (ValueError
               (String.append "'" (String.append k "' is not in list"))).
Proof.
  destruct (mask_loss_missing_key MASK_AB [] [] "cpu" "auto"
              (f32 [1; 1; 4; 4]%Z labels_4x4) (f32 [1; 1; 4; 4]%Z image_4x4)
              (PyInt 50) 1 4 eq_refl) as (k & _ & _ & Hk).
  - exists "IGNORE"%string. split; [now left|].
    intros [H|[H|[]]]; discriminate.
  - exists k. exact Hk.
Defined.

(** With every key in the enumeration, a [float] for [scale] makes
    [mask_loss] raise [TypeError]: the entry 'cell_losses' multiplies
    [scale] with a Python list. No image is looked at. *)
Theorem mask_loss_float_scale (MASK : list (string * Q))
  (MASK_BLACK MASK_WHITE : list string) (device impl : string)
  (mask_image image : tvar) (scale mean_weight var_weight : Q) :
  build_split_fn MASK (fst (get_split_mask_fn device impl)) mask_image image
  = Ok tt ->
  (forall k,
      In k ("IGNORE" :: "BACKGROUND_RING" :: "OUTER_WHITE_RING"
              :: MASK_BLACK ++ MASK_WHITE)%string ->
      In k (map fst MASK)) ->
  mask_loss MASK MASK_BLACK MASK_WHITE device impl mask_image image
    (PyFloat scale) mean_weight var_weight
  = Raise TypeError.
Proof.
  intros Hbuild Hall.
  unfold mask_loss. rewrite Hbuild. cbn [bind].
  destruct (list_index_present "IGNORE" (map fst MASK)) as [i Hi];
    [apply Hall; now left|].
  destruct (list_index_present "BACKGROUND_RING" (map fst MASK)) as [bg Hbg];
    [apply Hall; right; now left|].
  destruct (list_index_present "OUTER_WHITE_RING" (map fst MASK))
    as [ow How]; [apply Hall; right; right; now left|].
  rewrite Hi. cbn [bind]. rewrite Hbg. cbn [bind]. rewrite How. cbn [bind].
  destruct (mapM_lookup_cases
              (fun i => mk_cell i true mean_weight var_weight)
              (map fst MASK) MASK_BLACK)
    as [[_ (rb & Hrb & _)]|(k & Hk & Hnk & _)].
  2:{ exfalso. apply Hnk, Hall. do 3 right. apply in_or_app. now left. }
  rewrite Hrb. cbn [bind].
  destruct (mapM_lookup_cases
              (fun i => mk_cell i false mean_weight var_weight)
              (map fst MASK) MASK_WHITE)
    as [[_ (rw & Hrw & _)]|(k & Hk & Hnk & _)].
  2:{ exfalso. apply Hnk, Hall. do 3 right. apply in_or_app. now right. }
  change (mapM _ MASK_WHITE) with
    (mapM (fun k => i <- list_index k (map fst MASK) ;;
                    Ok (mk_cell i false mean_weight var_weight))
       MASK_WHITE).
  rewrite Hrw. reflexivity.
Qed.

Lemma mask_loss_float_scale_witness :
  mask_loss MASK_GRID MASK_BLACK_GRID MASK_WHITE_GRID "cpu" "auto"
    (f32 [1; 1; 4; 4]%Z labels_grid) (f32 [1; 1; 4; 4]%Z image_grid)
    (PyFloat 50) 1 4
  = Raise TypeError.
Proof.
  apply mask_loss_float_scale.
  - reflexivity.
  - intros k Hk. cbn in Hk. cbn.
    repeat (destruct Hk as [<-|Hk]; [tauto|]). contradiction.
Defined.

Lemma nth_error_map_seq {A : Type} (f : nat -> A) (n i : nat) :
  (i < n)%nat -> nth_error (map f (seq 0 n)) i = Some (f i).
Proof.
  intros Hi. rewrite nth_error_map.
  rewrite (nth_error_nth' _ 0%nat) by now rewrite length_seq.
  now rewrite seq_nth.
Qed.



Lemma fold_fadd_NaN (l : list fval) :
  In NaN l -> fold_right fadd (Fin 0) l = NaN.
Proof.
  induction l as [|a l IH]; intros H; [contradiction|].
  cbn. destruct H as [->|H]; [reflexivity|].
  rewrite (IH H). now destruct a.
Qed.

Lemma same_float_NaN (a : fval) : same_float a NaN -> a = NaN.
Proof. now destruct a. Qed.

Lemma same_float_Fin (a : fval) (q : Q) :
  same_float a (Fin q) -> exists q', a = Fin q' /\ q' == q.
Proof. destruct a; cbn; try contradiction. eauto. Qed.

Lemma Qminimum_compat (x x' y : Q) :
  x == x' -> Qminimum x y == Qminimum x' y.
Proof.
  intros H. unfold Qminimum.
  destruct (Qle_bool x y) eqn:E, (Qle_bool x' y) eqn:E'; auto;
    try reflexivity.
  - apply Qle_bool_iff in E. rewrite H in E. apply Qle_bool_iff in E.
    congruence.
  - apply Qle_bool_iff in E'. rewrite <- H in E'. apply Qle_bool_iff in E'.
    congruence.
Qed.

Section MaskLossReference.

Variable MASK : list (string * Q).
Variables MASK_BLACK MASK_WHITE : list string.
Variables device impl : string.
Variables mask_image image : tvar.
Variables n c h w : nat.
Variables ignore_idx background_ring_idx outer_white_ring_idx : nat.
Variables mean_weight var_weight : Q.

Hypothesis Hfn : fst (get_split_mask_fn device impl) = TheanoSplitMask.
Hypothesis Hmask : rect4 n c h w (nd_data (v_array mask_image)).
Hypothesis Himage : rect4 n c h w (nd_data (v_array image)).
Hypothesis Hignore :
  list_index "IGNORE" (map fst MASK) = Ok ignore_idx.
Hypothesis Hbackground :
  list_index "BACKGROUND_RING" (map fst MASK) = Ok background_ring_idx.
Hypothesis Houter :
  list_index "OUTER_WHITE_RING" (map fst MASK) = Ok outer_white_ring_idx.
Hypothesis Hparts :
  forall k, In k (MASK_BLACK ++ MASK_WHITE) -> In k (map fst MASK).

Let labels := nd_data (v_array mask_image).
Let pixels := nd_data (v_array image).
Let S := sum_axes234 (ref_splitted MASK labels pixels).
Let P := sum_axes234 (square5 (ref_splitted MASK labels pixels)).
Let N := sum_axes234 (reshape_count (ref_count MASK labels)).
Let ratio := fun xs c0 : Q => if Qeq_bool c0 0 then 0 else xs / c0.
Let mean := zip2 ratio S N.
Let var := zip2 (fun p m : Q => p - m * m) (zip2 ratio P N) mean.

Lemma mask_loss_reference :
  exists cells black white,
    length cells = (length MASK_BLACK + length MASK_WHITE)%nat /\
    Forall (fun k => (cell_idx k < len_MASK MASK)%nat /\
                     cell_mean_weight k = mean_weight /\
                     cell_var_weight k = var_weight) cells /\
    length black = n /\ length white = n /\
    (forall b, (b < n)%nat ->
       same_float (nth b black NaN)
         (pooled_mean MASK c h w labels pixels (seq 0 ignore_idx) b)) /\
    (forall b, (b < n)%nat ->
       same_float (nth b white NaN)
         (pooled_mean MASK c h w labels pixels
            (seq (Datatypes.S ignore_idx)
               (len_MASK MASK - Datatypes.S ignore_idx)) b)) /\
    forall scale,
      mask_loss MASK MASK_BLACK MASK_WHITE device impl mask_image image
        scale mean_weight var_weight
      = (scaled <- mul_list scale cells ;;
         Ok (mask_loss_terms mean var N black white ignore_idx
               background_ring_idx outer_white_ring_idx cells scaled
               scale))%py.
Proof.
  pose proof (keys_nonempty MASK _ _ Hignore) as Hne.
  assert (Hlt : (ignore_idx < len_MASK MASK)%nat).
  { apply list_index_Some in Hignore as [_ Hl].
    unfold len_MASK. now rewrite length_map in Hl. }
  destruct (mapM_lookup_cases
              (fun i => mk_cell i true mean_weight var_weight)
              (map fst MASK) MASK_BLACK)
    as [[_ (rb & Hrb & Lb & Fb)]|(k & Hk & Hnk & _)].
  2:{ exfalso. apply Hnk, Hparts, in_or_app. now left. }
  destruct (mapM_lookup_cases
              (fun i => mk_cell i false mean_weight var_weight)
              (map fst MASK) MASK_WHITE)
    as [[_ (rw & Hrw & Lw & Fw)]|(k & Hk & Hnk & _)].
  2:{ exfalso. apply Hnk, Hparts, in_or_app. now right. }
  destruct (slice_mean_pooled MASK n c h w _ _ Hmask Himage 0
              (Some ignore_idx) Hne) as (vb & Eb & Lvb & Hvb).
  destruct (slice_mean_pooled MASK n c h w _ _ Hmask Himage
              (ignore_idx + 1) None Hne) as (vw & Ew & Lvw & Hvw).
  exists (rb ++ rw), vb, vw.
  split; [rewrite length_app; congruence|].
  split.
  { apply Forall_app. split; [revert Fb | revert Fw];
      apply Forall_impl; intros k (j & Hj & ->); cbn;
      unfold len_MASK; rewrite length_map in Hj; auto. }
  split; [exact Lvb|]. split; [exact Lvw|].
  split; [|split].
  - intros b Hb. destruct (Hvb b Hb) as (r & Hr & Hs).
    rewrite (nth_error_nth _ _ NaN Hr).
    now rewrite sliced_classes_before in Hs by lia.
  - intros b Hb. destruct (Hvw b Hb) as (r & Hr & Hs).
    rewrite (nth_error_nth _ _ NaN Hr).
    now rewrite sliced_classes_after in Hs.
  - intros scale. unfold mask_loss. rewrite Hfn.
    assert (Hbuild :
              build_split_fn MASK TheanoSplitMask mask_image image = Ok tt).
    { unfold build_split_fn. destruct MASK; [contradiction | reflexivity]. }
    rewrite Hbuild. cbn [bind].
    rewrite Hignore. cbn [bind]. rewrite Hbackground. cbn [bind].
    rewrite Houter. cbn [bind]. rewrite Hrb. cbn [bind].
    change (mapM _ MASK_WHITE) with
      (mapM (fun k => i <- list_index k (map fst MASK) ;;
                      Ok (mk_cell i false mean_weight var_weight))
         MASK_WHITE).
    rewrite Hrw. cbn [bind].
    destruct (mul_list scale (rb ++ rw)) as [scaled|e]; [|reflexivity].
    cbn [bind call_split_fn].
    rewrite (theano_split_mask_same MASK n c h w _ _ Hne Hmask Himage).
    cbn [bind].
    rewrite (ref_stats MASK n c h w _ _ Hmask Himage). cbn [bind].
    rewrite Eb. cbn [bind]. rewrite Ew. cbn [bind]. reflexivity.
Qed.


(** On the reference path, for an image whose black classes (those
    before "IGNORE") have the mean [kb] and whose white classes (those
    after it) have the mean [kw], the entry 'black_white_loss' is a
    number: zero as soon as [kw - kb] reaches 0.25, and [scale] times
    the square of the missing distance below. *)
Theorem mask_loss_black_white_margin (scale : Z) (b : nat) (kb kw : Q) :
  (b < n)%nat ->
  same_float
    (pooled_mean MASK c h w labels pixels (seq 0 ignore_idx) b) (Fin kb) ->
  same_float
    (pooled_mean MASK c h w labels pixels
       (seq (Datatypes.S ignore_idx)
          (len_MASK MASK - Datatypes.S ignore_idx)) b) (Fin kw) ->
  exists r v,
    mask_loss MASK MASK_BLACK MASK_WHITE device impl mask_image image
      (PyInt scale) mean_weight var_weight = Ok r /\
    nth_error (ml_black_white_loss r) b = Some (Fin v) /\
    ((25 # 100) <= kw - kb -> v == 0) /\
    (kw - kb <= (25 # 100) ->
     v == inject_Z scale *
          (((25 # 100) - (kw - kb)) * ((25 # 100) - (kw - kb)))).
Proof.
  intros Hb Hkb Hkw.
  destruct mask_loss_reference
    as (cells & black & white & _ & _ & _ & _ & Hblack & Hwhite & Hret).
  pose proof (keys_nonempty MASK _ _ Hignore) as Hne.
  specialize (Hblack b Hb). specialize (Hwhite b Hb).
  destruct (pooled_mean MASK c h w labels pixels (seq 0 ignore_idx) b)
    as [pb| | |] eqn:Epb; try contradiction.
  destruct (pooled_mean MASK c h w labels pixels
              (seq (Datatypes.S ignore_idx)
                 (len_MASK MASK - Datatypes.S ignore_idx)) b)
    as [pw| | |] eqn:Epw; try contradiction.
  cbn in Hkb, Hkw.
  apply same_float_Fin in Hblack as (qb & Eqb & Hqb).
  apply same_float_Fin in Hwhite as (qw & Eqw & Hqw).
  do 2 eexists.
  split; [rewrite Hret; reflexivity|].
  cbn [ml_black_white_loss mask_loss_terms].
  assert (Hn : n_columns mean = n)
    by exact (n_columns_mean MASK n c h w _ _ Hmask Himage Hne).
  rewrite Hn.
  split.
  { rewrite nth_error_map, (nth_error_map_seq _ n b Hb).
    cbn [option_map]. rewrite Eqb, Eqw.
    cbn [fsub fmin fsquare fmul num_value]. reflexivity. }
  assert (Hd : qw - qb == kw - kb) by (rewrite Hqb, Hqw, Hkb, Hkw; reflexivity).
  rewrite (Qminimum_compat _ _ (25 # 100) Hd).
  unfold Qminimum.
  destruct (Qle_bool (kw - kb) (25 # 100)) eqn:E.
  - apply Qle_bool_iff in E. split.
    + intros Hge.
      assert (He : kw - kb == 25 # 100) by now apply Qle_antisym.
      rewrite He. ring.
    + intros _. ring.
  - split.
    + intros _. ring.
    + intros Hle. apply Qle_bool_iff in Hle. congruence.
Qed.

(** On the reference path, one image without a pixel of a black class
    (a class before "IGNORE") makes the loss of the whole batch NaN: its
    black mean is 0/0, and so are its 'black_white_loss', its
    'loss_per_sample' and the mean 'loss'. *)
Theorem mask_loss_nan_without_black (scale : Z) (b : nat) :
  (b < n)%nat ->
  (forall ci, (ci < ignore_idx)%nat ->
              class_count MASK c h w labels ci b == 0) ->
  exists r,
    mask_loss MASK MASK_BLACK MASK_WHITE device impl mask_image image
      (PyInt scale) mean_weight var_weight = Ok r /\
    nth_error (ml_black_white_loss r) b = Some NaN /\
    nth_error (ml_loss_per_sample r) b = Some NaN /\
    ml_loss r = NaN.
Proof.
  intros Hb Hnone.
  destruct mask_loss_reference
    as (cells & black & white & _ & _ & _ & _ & Hblack & _ & Hret).
  pose proof (keys_nonempty MASK _ _ Hignore) as Hne.
  specialize (Hblack b Hb).
  assert (Hpm : pooled_mean MASK c h w labels pixels (seq 0 ignore_idx) b
                = NaN).
  { unfold pooled_mean, fdiv.
    assert (Hc : sum1 (map (fun ci => class_count MASK c h w labels ci b)
                         (seq 0 ignore_idx)) == 0).
    { rewrite (sum1_ext_map _ (fun _ => 0) (seq 0 ignore_idx)).
      - clear. induction (seq 0 ignore_idx) as [|a l IH]; [reflexivity|].
        cbn. rewrite IH. ring.
      - intros ci Hci. apply in_seq in Hci. apply Hnone. lia. }
    assert (Hs : sum1 (map (fun ci =>
                              class_sum MASK c h w labels pixels ci b)
                         (seq 0 ignore_idx)) == 0).
    { rewrite (sum1_ext_map _ (fun _ => 0) (seq 0 ignore_idx)).
      - clear. induction (seq 0 ignore_idx) as [|a l IH]; [reflexivity|].
        cbn. rewrite IH. ring.
      - intros ci Hci. apply in_seq in Hci.
        apply (class_count_zero_sum MASK c h w labels pixels).
        apply Hnone. lia. }
    apply Qeq_bool_iff in Hc, Hs. now rewrite Hc, Hs. }
  rewrite Hpm in Hblack. apply same_float_NaN in Hblack.
  eexists. split; [rewrite Hret; reflexivity|].
  cbn [ml_black_white_loss ml_loss_per_sample ml_loss mask_loss_terms].
  assert (Hn : n_columns mean = n)
    by exact (n_columns_mean MASK n c h w _ _ Hmask Himage Hne).
  rewrite Hn.
  assert (Hbw : forall d,
            nth b
              (map (fun b0 =>
                      fsquare
                        (fsub (fmin (fsub (nth b0 white NaN)
                                       (nth b0 black NaN)) (Fin (25 # 100)))
                           (Fin (25 # 100)))) (seq 0 n)) d = NaN).
  { intros d. rewrite nth_map_seq by assumption. rewrite Hblack.
    now destruct (nth b white NaN). }
  split.
  { rewrite nth_error_map, (nth_error_map_seq _ n b Hb).
    cbn [option_map]. rewrite Hblack.
    now destruct (nth b white NaN). }
  assert (Hloss : forall f g,
            nth_error
              (map (fun b0 =>
                      fadd (fadd (nth b0
                        (map (fun b1 =>
                           fsquare
                             (fsub (fmin (fsub (nth b1 white NaN)
                                            (nth b1 black NaN))
                                      (Fin (25 # 100)))
                                (Fin (25 # 100)))) (seq 0 n)) NaN)
                              (f b0)) (g b0)) (seq 0 n)) b = Some NaN).
  { intros f g. rewrite (nth_error_map_seq _ n b Hb), Hbw. reflexivity. }
  split.
  { rewrite nth_error_map, Hloss. reflexivity. }
  unfold fmean. rewrite fold_fadd_NaN; [reflexivity|].
  eapply nth_error_In. apply Hloss.
Qed.

End MaskLossReference.

Lemma rect4_labels_grid : rect4 1 1 4 4 labels_grid.
Proof. repeat constructor. Qed.

Lemma rect4_image_grid : rect4 1 1 4 4 image_grid.
Proof. repeat constructor. Qed.

Lemma rect4_labels_no_black : rect4 1 1 4 4 labels_no_black.
Proof. repeat constructor. Qed.

Lemma parts_of_MASK_GRID (k : string) :
  In k (MASK_BLACK_GRID ++ MASK_WHITE_GRID) -> In k (map fst MASK_GRID).
Proof.
  intros Hk. cbn in Hk. cbn.
  repeat (destruct Hk as [<-|Hk]; [tauto|]). contradiction.
Qed.


Lemma mask_loss_black_white_margin_witness :
  exists r v,
    mask_loss MASK_GRID MASK_BLACK_GRID MASK_WHITE_GRID "cpu" "auto"
      (f32 [1; 1; 4; 4]%Z labels_grid) (f32 [1; 1; 4; 4]%Z image_grid)
      (PyInt 50) 1 4 = Ok r /\
    nth_error (ml_black_white_loss r) 0 = Some (Fin v) /\ v == 0.
Proof.
  destruct (mask_loss_black_white_margin MASK_GRID MASK_BLACK_GRID
              MASK_WHITE_GRID "cpu" "auto" (f32 [1; 1; 4; 4]%Z labels_grid)
              (f32 [1; 1; 4; 4]%Z image_grid) 1 1 4 4 2 1 3 1 4
              eq_refl rect4_labels_grid rect4_image_grid eq_refl eq_refl
              eq_refl parts_of_MASK_GRID 50%Z 0%nat 0 1)
    as (r & v & Hr & Hv & Hzero & _).
  - lia.
  - reflexivity.
  - reflexivity.
  - exists r, v. split; [exact Hr|]. split; [exact Hv|].
    apply Hzero. discriminate.
Defined.

Lemma mask_loss_nan_without_black_witness :
  exists r,
    mask_loss MASK_GRID MASK_BLACK_GRID MASK_WHITE_GRID "cpu" "auto"
      (f32 [1; 1; 4; 4]%Z labels_no_black) (f32 [1; 1; 4; 4]%Z image_grid)
      (PyInt 50) 1 4 = Ok r /\
    ml_loss r = NaN.
Proof.
  destruct (mask_loss_nan_without_black MASK_GRID MASK_BLACK_GRID
              MASK_WHITE_GRID "cpu" "auto"
              (f32 [1; 1; 4; 4]%Z labels_no_black)
              (f32 [1; 1; 4; 4]%Z image_grid) 1 1 4 4 2 1 3 1 4
              eq_refl rect4_labels_no_black rect4_image_grid eq_refl eq_refl
              eq_refl parts_of_MASK_GRID 50%Z 0%nat)
    as (r & Hr & _ & _ & Hnan).
  - lia.
  - intros [|[|ci]] Hci; [reflexivity | reflexivity | lia].
  - exists r. split; [exact Hr | exact Hnan].
Defined.
